(** * pandas-ta: the indicator computation engine

    A shallow embedding of the parts of [pandas_ta] that carry algorithmic
    content, the properties of them that are stated in the specification,
    and further properties read off the code:

    - [utils/_math.py]   : [linear_regression] and its two backends;
    - [overlap/ssf.py]   : Ehler's Super Smoother Filter;
    - [overlap/vwap.py]  : the daily Volume Weighted Average Price;
    - [volume/vp.py]     : the Volume Profile;
    - [core.py]          : the [ta] DataFrame accessor (dispatch, column
                           resolution, append, construction, [constants]
                           and [indicators]);
    - [utils/_math.py]   : [combination], [fibonacci], [pascals_triangle],
                           [symmetric_triangle] and [zero].

    Integers are unbounded; where the code holds them in a float or in
    the 64 bits of a numpy array, the properties are stated within the
    bounds in which that changes nothing.

    Floating point numbers are idealised: code that only adds, multiplies,
    divides and compares is modelled over the rationals [Qc] and computes;
    code that needs [sqrt], [exp] or [cos] is modelled over the reals [R]. *)

From Stdlib Require Import ZArith List String Ascii Reals Lra Lia QArith Qcanon.
From Stdlib Require Lqa.
From stdpp Require Import base option list strings gmap pretty.

(** ** Python outcomes: a call returns a value or raises an exception, and
    may have printed lines on standard output. *)

Inductive exn : Type :=
  | Exn (cls : string) (msg : string).

Inductive result (A : Type) : Type :=
  | Ok (a : A)
  | Raise (e : exn).
Arguments Ok {A} a.
Arguments Raise {A} e.

#[global] Instance result_ret : MRet result := fun A a => Ok a.
#[global] Instance result_bind : MBind result := fun A B k r =>
  match r with
  | Ok a => k a
  | Raise e => Raise e
  end.

#[global] Instance exn_eq_dec : EqDecision exn.
Proof. solve_decision. Defined.

#[global] Instance result_eq_dec {A} `{EqDecision A} : EqDecision (result A).
Proof. solve_decision. Defined.

Definition stdout := list string.

(** The call ends by raising an exception of class [cls]. *)
Definition raises {A} (cls : string) (r : result A) : Prop :=
  exists msg, r = Raise (Exn cls msg).

(** ** [utils/_math.py]: linear regression *)

Module Regression.
Local Open Scope R_scope.

(** A [pd.Series] of floats, by position. *)
Definition Series := list R.

Definition size (x : Series) : nat := length x.
Definition sum (x : Series) : R := fold_right Rplus 0 x.
Definition mean (x : Series) : R := sum x / INR (size x).

(** [x * y], [a + b * x] and [x - c] on series sharing one index. *)
Definition smul (x y : Series) : Series :=
  map (fun p => fst p * snd p) (combine x y).
Definition affine (a b : R) (x : Series) : Series :=
  map (fun xi => a + b * xi) x.
Definition ssub (x y : Series) : Series :=
  map (fun p => fst p - snd p) (combine x y).
Definition center (x : Series) : Series :=
  map (fun xi => xi - mean x) x.

Record RegressionResult : Type := mkResult {
  a : R;
  b : R;
  r : R;
  t : R;
  line : Series
}.

(** [numpy.cov(x, y)[i, j]] (unbiased, [ddof = 1]) and
    [numpy.corrcoef(x, y)[0, 1]], which numpy computes by dividing the
    covariance by the two standard deviations in turn. *)
Definition cov (x y : Series) : R :=
  sum (smul (center x) (center y)) / (INR (size x) - 1).

Definition npCorrcoef01 (x y : Series) : R :=
  cov x y / sqrt (cov x x) / sqrt (cov y y).

(** [_linear_regression_np] *)
Definition _linear_regression_np (x y : Series) : RegressionResult :=
  let m := INR (size x) in
  let x_sum := sum x in
  let y_sum := sum y in
  let r := npCorrcoef01 x y in
  let r_mixture := m * sum (smul x y) - x_sum * y_sum in
  let b := r_mixture / (m * sum (smul x x) - x_sum * x_sum) in
  let a := mean y - b * mean x in
  let line := affine a b x in
  {| a := a; b := b; r := r;
     t := r / sqrt ((1 - r * r) / (m - 2));
     line := line |}.

(** [sklearn.linear_model.LinearRegression] with its default
    [fit_intercept=True] on one feature: the least-squares line through the
    centred data, and [score], the coefficient of determination
    [1 - u / v] with [u] the residual and [v] the total sum of squares. *)
Record LinearRegression : Type := mkLR {
  coef_0 : R;
  intercept_ : R
}.

Definition fit (X y : Series) : LinearRegression :=
  let coef := sum (smul (center X) (center y))
              / sum (smul (center X) (center X)) in
  {| coef_0 := coef; intercept_ := mean y - coef * mean X |}.

Definition predict (lr : LinearRegression) (X : Series) : Series :=
  affine (intercept_ lr) (coef_0 lr) X.

Definition score (lr : LinearRegression) (X y : Series) : R :=
  let res := ssub y (predict lr X) in
  let u := sum (smul res res) in
  let v := sum (smul (center y) (center y)) in
  1 - u / v.

(** [_linear_regression_sklearn] *)
Definition _linear_regression_sklearn (x y : Series) : RegressionResult :=
  let X := x in
  let lr := fit X y in
  let r := score lr X y in
  let a := intercept_ lr in
  let b := coef_0 lr in
  {| a := a; b := b; r := r;
     t := r / sqrt ((1 - r * r) / (INR (size x) - 2));
     line := affine a b x |}.

(** [linear_regression].  It uses [verify_series] of [pandas_ta.utils],
    which hands back a series or [None], and the entry [Imports["sklearn"]]
    of the package's capability table; both are parameters here.  Reading
    [.size] of [None] raises. *)
Definition mismatch_message (m n : nat) : string :=
  ("[X] Linear Regression X and y observations do not match: "
     ++ pretty m ++ " != " ++ pretty n)%string.

Definition none_has_no (attr : string) : exn :=
  Exn "AttributeError"
      ("'NoneType' object has no attribute '" ++ attr ++ "'")%string.

Section LinearRegression.
Variable verify_series : Series -> option Series.
Variable Imports_sklearn : bool.

Definition linear_regression (x y : Series)
  : result (option RegressionResult) * stdout :=
  match verify_series x, verify_series y with
  | Some x, Some y =>
      let m := size x in
      let n := size y in
      if negb (Nat.eqb m n) then
        (Ok None, [mismatch_message m n])
      else if Imports_sklearn then
        (Ok (Some (_linear_regression_sklearn x y)), [])
      else
        (Ok (Some (_linear_regression_np x y)), [])
  | _, _ => (Raise (none_has_no "size"), [])
  end.

End LinearRegression.

(** The sample of the specification. *)
Definition xs : Series := [1; 2; 3; 4; 5].
Definition ys : Series := [2; 4; 5; 4; 5].

End Regression.

(** ** [overlap/ssf.py]: Ehler's Super Smoother Filter *)

Module SSF.
Local Open Scope R_scope.

Definition Series := list R.

(** What [ssf] returns: the values ([None] is NaN, which only [shift]
    introduces) and the two attributes set at the end. *)
Record Indicator : Type := mkIndicator {
  values : list (option R);
  name : string;
  category : string
}.

Definition IndexError : exn :=
  Exn "IndexError" "single positional indexer is out-of-bounds".

(** [s.iloc[i]]: a negative position counts from the end of the series, a
    position outside [-len, len) raises. *)
Definition iloc_pos (s : Series) (i : Z) : option nat :=
  let n := Z.of_nat (length s) in
  if (0 <=? i)%Z && (i <? n)%Z then Some (Z.to_nat i)
  else if (- n <=? i)%Z && (i <? 0)%Z then Some (Z.to_nat (n + i))
  else None.

Definition iloc (s : Series) (i : Z) : result R :=
  match iloc_pos s i with
  | Some k => Ok (nth k s 0)
  | None => Raise IndexError
  end.

(** [s.iloc[i] = v] *)
Definition iloc_set (s : Series) (i : Z) (v : R) : result Series :=
  match iloc_pos s i with
  | Some k => Ok (<[k := v]> s)
  | None => Raise IndexError
  end.

(** [s[k:] = 0] *)
Definition zero_from (k : nat) (s : Series) : Series :=
  firstn k s ++ repeat 0 (length s - k).

(** [s.shift(k)] *)
Definition shift (k : Z) (s : Series) : list (option R) :=
  map (fun i : nat =>
         let j := (Z.of_nat i - k)%Z in
         if (0 <=? j)%Z && (j <? Z.of_nat (length s))%Z
         then Some (nth (Z.to_nat j) s 0) else None)
      (seq 0 (length s)).

(** The coefficients of the two-pole filter for a period [n]. *)
Definition x2 (n : Z) : R := PI * sqrt 2 / IZR n.
Definition a0_2 (n : Z) : R := exp (- x2 n).
Definition a1_2 (n : Z) : R := - a0_2 n * a0_2 n.
Definition b1_2 (n : Z) : R := 2 * a0_2 n * cos (x2 n).
Definition c1_2 (n : Z) : R := 1 - a1_2 n - b1_2 n.

(** The coefficients of the three-pole filter. *)
Definition x3 (n : Z) : R := PI / IZR n.
Definition a0_3 (n : Z) : R := exp (- x3 n).
Definition b0_3 (n : Z) : R := 2 * a0_3 n * cos (sqrt 3 * x3 n).
Definition c0_3 (n : Z) : R := a0_3 n * a0_3 n.
Definition c4_3 (n : Z) : R := c0_3 n * c0_3 n.
Definition c3_3 (n : Z) : R := - c0_3 n * (1 + b0_3 n).
Definition c2_3 (n : Z) : R := c0_3 n + b0_3 n.
Definition c1_3 (n : Z) : R := 1 - c2_3 n - c3_3 n - c4_3 n.

(** One turn of each loop, at [i]:
    [ssf.iloc[i] = c1 * close.iloc[i] + ... * ssf.iloc[i - 1] + ...]. *)
Definition body2 (n : Z) (close ssf : Series) (i : Z) : result Series :=
  x ← iloc close i;
  p1 ← iloc ssf (i - 1);
  p2 ← iloc ssf (i - 2);
  iloc_set ssf i (c1_2 n * x + b1_2 n * p1 + a1_2 n * p2).

Definition body3 (n : Z) (close ssf : Series) (i : Z) : result Series :=
  x ← iloc close i;
  p1 ← iloc ssf (i - 1);
  p2 ← iloc ssf (i - 2);
  p3 ← iloc ssf (i - 3);
  iloc_set ssf i (c1_3 n * x + c2_3 n * p1 + c3_3 n * p2 + c4_3 n * p3).

(** [for i in range(0, m): body] *)
Definition for_range (m : nat) (body : Series -> Z -> result Series)
    (s : Series) : result Series :=
  fold_left (fun acc i => s ← acc; body s (Z.of_nat i))
            (seq 0 m) (Ok s).

(** The arguments: [length] and [poles] are [None] or an integer. *)
Definition length_arg (length : option Z) : Z :=
  match length with
  | Some l => if (l =? 0)%Z then 10%Z else if (0 <? l)%Z then l else 10%Z
  | None => 10%Z
  end.

Definition poles_arg (poles : option Z) : Z :=
  match poles with
  | Some p => if (p =? 2)%Z || (p =? 3)%Z then p else 2%Z
  | None => 2%Z
  end.

Definition ssf_name (length poles : Z) : string :=
  ("SSF_" ++ pretty length ++ "_" ++ pretty poles)%string.

Section Ssf.
(** [verify_series] and [get_offset] come from [pandas_ta.utils]. *)
Variable verify_series : Series -> option Series.
Variable get_offset : option Z -> Z.

Definition ssf (close : Series) (length poles offset : option Z)
  : result Indicator :=
  match verify_series close with
  | None => Raise (Regression.none_has_no "size")
  | Some close =>
      let length := length_arg length in
      let poles := poles_arg poles in
      let offset := get_offset offset in
      let m := List.length close in
      let ssf := zero_from (Z.to_nat poles) close in
      ssf ← (if (poles =? 3)%Z
             then for_range m (body3 length close) ssf
             else for_range m (body2 length close) ssf);
      let ssf :=
        if (offset =? 0)%Z then map Some ssf else shift offset ssf in
      Ok {| values := ssf;
            name := ssf_name length poles;
            category := "overlap" |}
  end.

End Ssf.

End SSF.

(** ** Series of rationals carrying a datetime index *)

Module TimeSeries.
Local Open Scope Qc_scope.

(** A timestamp of a [DatetimeIndex]: nanoseconds since the epoch. *)
Definition Timestamp := Z.

(** A series: its rows, each an index label and a value; [None] is NaN
    (or an infinity), which a division by zero and [shift] introduce. *)
Definition Series := list (Timestamp * Qc).
Definition NaSeries := list (Timestamp * option Qc).

Definition index {A} (s : list (Timestamp * A)) : list Timestamp := map fst s.
Definition values {A} (s : list (Timestamp * A)) : list A := map snd s.

(** Arithmetic of two series row by row.  pandas aligns the operands on
    their labels first; on operands with one index, the case the indicators
    are written for, that is the identity. *)
Definition zip_with {A B C} (f : A -> B -> C)
    (x : list (Timestamp * A)) (y : list (Timestamp * B))
  : list (Timestamp * C) :=
  map (fun p => (fst (fst p), f (snd (fst p)) (snd (snd p)))) (combine x y).

Definition smul : Series -> Series -> Series := zip_with Qcmult.
Definition sadd : Series -> Series -> Series := zip_with Qcplus.

(** Float division: no rational stands for the result when the divisor
    is zero. *)
Definition fdiv (a b : Qc) : option Qc :=
  if decide (b = 0) then None else Some (a / b).

Definition sdiv : Series -> Series -> NaSeries := zip_with fdiv.

(** [index.to_period('d')]: the calendar day of a timestamp. *)
Definition ns_per_day : Z := 86400000000000.
Definition to_period_d (t : Timestamp) : Z := (t / ns_per_day)%Z.

(** [s.groupby(key).cumsum()]: one running total per group, the rows
    visited in order, each row receiving the total of its group so far. *)
Fixpoint group_cumsum (key : Timestamp -> Z) (acc : gmap Z Qc) (s : Series)
  : Series :=
  match s with
  | [] => []
  | (t, v) :: s' =>
      let total := default 0 (acc !! key t) + v in
      (t, total) :: group_cumsum key (<[key t := total]> acc) s'
  end.

Definition groupby_cumsum (key : Timestamp -> Z) (s : Series) : Series :=
  group_cumsum key ∅ s.

(** [s.shift(k)] *)
Definition shift (k : Z) (s : NaSeries) : NaSeries :=
  imap (fun i p =>
          let j := (Z.of_nat i - k)%Z in
          (fst p,
           if (0 <=? j)%Z && (j <? Z.of_nat (length s))%Z
           then snd (nth (Z.to_nat j) s (0%Z, None)) else None))
       s.

End TimeSeries.

(** ** [overlap/vwap.py]: Volume Weighted Average Price *)

Module VWAP.
Import TimeSeries.
Local Open Scope Qc_scope.

Record Indicator : Type := mkIndicator {
  data : NaSeries;
  name : string;
  category : string
}.

#[global] Instance Indicator_eq_dec : EqDecision Indicator.
Proof. solve_decision. Defined.

(** Modelled from the spec: [hlc3], defined in [overlap/hlc3.py], is the
    typical price, "arithmetic mean of high, low, close (weights 1/3 each)". *)
Definition hlc3 (high low close : Series) : Series :=
  map (fun p => (fst p, snd p / Q2Qc 3)) (sadd (sadd high low) close).

Definition volume_not_ordered : string :=
  "[!] VWAP volume series is not datetime ordered. Results may not be as expected.".
Definition price_not_ordered : string :=
  "[!] VWAP price series is not datetime ordered. Results may not be as expected.".

Section Vwap.
(** From [pandas_ta.utils]. *)
Variable verify_series : Series -> option Series.
Variable get_offset : option Z -> Z.
Variable is_datetime_ordered : Series -> bool.

(** A [None] handed back by [verify_series] makes the first use of the
    series raise. *)
Definition verified (s : Series) : result Series :=
  match verify_series s with
  | Some s => Ok s
  | None => Raise (Exn "TypeError" "unsupported operand type(s): 'NoneType'")
  end.

Definition vwap (high low close volume : Series) (offset : option Z)
  : result Indicator * stdout :=
  match (high ← verified high;
         low ← verified low;
         close ← verified close;
         volume ← verified volume;
         Ok (high, low, close, volume)) with
  | Raise e => (Raise e, [])
  | Ok (high, low, close, volume) =>
      let offset := get_offset offset in
      let typical_price := hlc3 high low close in
      let out1 :=
        if is_datetime_ordered volume then [] else [volume_not_ordered] in
      let out2 :=
        if is_datetime_ordered typical_price then [] else [price_not_ordered] in
      let weighted_price := smul typical_price volume in
      let vwap :=
        sdiv (groupby_cumsum to_period_d weighted_price)
             (groupby_cumsum to_period_d volume) in
      let vwap := if (offset =? 0)%Z then vwap else shift offset vwap in
      (Ok {| data := vwap; name := "VWAP"; category := "overlap" |},
       out1 ++ out2)
  end.

End Vwap.

(** *** The statement of the specification

    Four series on one index are the columns of a list of bars.  The
    specification gives the value at a row as a quotient of two sums over
    the rows of the day of that row, up to that row. *)

Record Bar : Type := mkBar {
  bar_time : Timestamp;
  bar_high : Qc;
  bar_low : Qc;
  bar_close : Qc;
  bar_volume : Qc
}.

Definition column (f : Bar -> Qc) (bars : list Bar) : Series :=
  map (fun b => (bar_time b, f b)) bars.

Definition typical_price (b : Bar) : Qc :=
  (bar_high b + bar_low b + bar_close b) / Q2Qc 3.

Definition total (f : Bar -> Qc) (bars : list Bar) : Qc :=
  foldr (fun b acc => f b + acc) 0 bars.

(** The rows of the day of [b] among the first [i + 1] rows. *)
Definition day_so_far (bars : list Bar) (i : nat) (b : Bar) : list Bar :=
  filter (fun b' => to_period_d (bar_time b') = to_period_d (bar_time b))
         (take (S i) bars).

Definition vwap_of_day (bars : list Bar) (i : nat) (b : Bar) : option Qc :=
  fdiv (total (fun b' => typical_price b' * bar_volume b') (day_so_far bars i b))
       (total bar_volume (day_so_far bars i b)).

(** Two bars of one day and the first bar of the next day. *)
Definition sample_bars : list Bar :=
  [ mkBar 0%Z (Q2Qc 3) (Q2Qc 1) (Q2Qc 2) (Q2Qc 10);
    mkBar 3600000000000%Z (Q2Qc 6) (Q2Qc 4) (Q2Qc 5) (Q2Qc 30);
    mkBar 86400000000000%Z (Q2Qc 9) (Q2Qc 9) (Q2Qc 9) (Q2Qc 5) ].

End VWAP.

(** ** [volume/vp.py]: Volume Profile *)

Module VP.
Local Open Scope Qc_scope.

(** [close] and [volume] by position: two series on one increasing index. *)
Definition Series := list Qc.
Definition NaSeries := list (option Qc).

(** Modelled from the spec: [signed_series], defined in [pandas_ta.utils],
    classifies each row as "positive" or "negative" by "the sign of the
    close-to-close change", the first row taking the [initial] value ("first
    row default positive" for [initial=1]), and "flat rows follow a
    documented default sign": the default the spec documents, that of the
    first row. *)
Definition sign (default d : Qc) : Qc :=
  if decide (0 < d) then 1 else if decide (d < 0) then - (1) else default.

Fixpoint diff_sign (default prev : Qc) (s : Series) : Series :=
  match s with
  | [] => []
  | c :: s' => sign default (c - prev) :: diff_sign default c s'
  end.

Definition signed_series (s : Series) (initial : Qc) : Series :=
  match s with
  | [] => []
  | c :: s' => initial :: diff_sign initial c s'
  end.

(** [signed_price[signed_price > 0] * volume]: the rows the mask drops
    come back from the product as NaN. *)
Definition masked_mul (keep : Qc -> bool) (signed_price : Series)
    (volume : Series) : NaSeries :=
  map (fun p => if keep (fst p) then Some (fst p * snd p) else None)
      (combine signed_price volume).

(** A row of the frame [concat([close, pos_volume, neg_volume], axis=1)]. *)
Record Row : Type := mkRow {
  close_ : Qc;
  pos_volume_ : option Qc;
  neg_volume_ : option Qc
}.

Definition concat3 (close : Series) (pos neg : NaSeries) : list Row :=
  map (fun p => mkRow (fst (fst p)) (snd (fst p)) (snd p))
      (combine (combine close pos) neg).

(** [numpy.array_split(ary, n)]: [n] sections, the first [len % n] of them
    one row longer than the others. *)
Definition section_sizes (total sections : nat) : list nat :=
  (replicate (total mod sections) (S (total / sections))
   ++ replicate (sections - total mod sections) (total / sections))%nat.

Definition array_split {A} (l : list A) (sections : nat) : list (list A) :=
  reshape (section_sizes (length l) sections) l.

(** Column reductions; they skip NaN, and [min], [max] and [mean] of no
    value at all are NaN. *)
Definition nansum (s : NaSeries) : Qc :=
  foldr (fun o acc => default 0 o + acc) 0 s.

Definition qmin (a b : Qc) : Qc := if decide (a <= b) then a else b.
Definition qmax (a b : Qc) : Qc := if decide (a <= b) then b else a.

Definition smin (s : Series) : option Qc :=
  match s with
  | [] => None
  | c :: s' => Some (foldr qmin c s')
  end.

Definition smax (s : Series) : option Qc :=
  match s with
  | [] => None
  | c :: s' => Some (foldr qmax c s')
  end.

Definition smean (s : Series) : option Qc :=
  match s with
  | [] => None
  | _ => Some (foldr Qcplus 0 s / Q2Qc (inject_Z (Z.of_nat (length s))))
  end.

(** A row of the resulting frame. *)
Record Bucket : Type := mkBucket {
  low_close : option Qc;
  mean_close : option Qc;
  high_close : option Qc;
  pos_volume : Qc;
  neg_volume : Qc;
  total_volume : Qc
}.

Record VPFrame : Type := mkFrame {
  rows : list Bucket;
  name : string;
  category : string
}.

(** The record built for one range [r] of [vp_ranges], to which the
    [total_volume] column is added afterwards. *)
Definition range_bucket (r : list Row) : Bucket :=
  let pos := nansum (map pos_volume_ r) in
  let neg := nansum (map neg_volume_ r) in
  {| low_close := smin (map close_ r);
     mean_close := smean (map close_ r);
     high_close := smax (map close_ r);
     pos_volume := pos;
     neg_volume := neg;
     total_volume := pos + neg |}.

(** The group of the rows that [cut] puts in interval [k], aggregated. *)
Definition cut_bucket (frame : list Row) (codes : list nat)
    (k : nat) (interval : Qc * Qc) : Bucket :=
  let r := map fst (filter (fun p => snd p = k) (combine frame codes)) in
  let pos := nansum (map pos_volume_ r) in
  let neg := nansum (map neg_volume_ r) in
  {| low_close := Some (fst interval);
     mean_close := smean (map close_ r);
     high_close := Some (snd interval);
     pos_volume := pos;
     neg_volume := neg;
     total_volume := pos + neg |}.

(** [vpdf.fillna(value)] and [vpdf.fillna(method=...)] *)
Inductive FillMethod : Type := ffill | bfill.

Definition fill_value (v : Qc) (b : Bucket) : Bucket :=
  {| low_close := Some (default v (low_close b));
     mean_close := Some (default v (mean_close b));
     high_close := Some (default v (high_close b));
     pos_volume := pos_volume b;
     neg_volume := neg_volume b;
     total_volume := total_volume b |}.

Definition or_else (o last : option Qc) : option Qc :=
  match o with Some _ => o | None => last end.

Fixpoint fill_forward (last : Bucket) (l : list Bucket) : list Bucket :=
  match l with
  | [] => []
  | b :: l' =>
      let b' := {| low_close := or_else (low_close b) (low_close last);
                   mean_close := or_else (mean_close b) (mean_close last);
                   high_close := or_else (high_close b) (high_close last);
                   pos_volume := pos_volume b;
                   neg_volume := neg_volume b;
                   total_volume := total_volume b |} in
      b' :: fill_forward b' l'
  end.

Definition no_bucket : Bucket := mkBucket None None None 0 0 0.

Definition fill_method (m : FillMethod) (l : list Bucket) : list Bucket :=
  match m with
  | ffill => fill_forward no_bucket l
  | bfill => rev (fill_forward no_bucket (rev l))
  end.

Definition width_arg (width : option Z) : Z :=
  match width with
  | Some w => if (w =? 0)%Z then 10%Z else if (0 <? w)%Z then w else 10%Z
  | None => 10%Z
  end.

Definition vp_name (width : Z) : string := ("VP_" ++ pretty width)%string.

(** The keyword arguments [vp] looks at. *)
Record Kwargs : Type := mkKwargs {
  kw_sort_close : bool;
  kw_fillna : option Qc;
  kw_fill_method : option FillMethod
}.

Definition no_kwargs : Kwargs := mkKwargs false None None.

Section Vp.
(** [verify_series(series, width)], from [pandas_ta.utils], and
    [pandas.cut(x, bins, include_lowest=True, precision=2)], which gives the
    [bins] intervals and, for every value of [x], the number of its
    interval. *)
Variable verify_series : Series -> Z -> option Series.
Variable cut : Series -> Z -> list (Qc * Qc) * list nat.

Definition vp (close volume : Series) (width : option Z) (kwargs : Kwargs)
  : option VPFrame :=
  let width := width_arg width in
  match verify_series close width, verify_series volume width with
  | Some close, Some volume =>
      let signed_price := signed_series close 1 in
      let pos_volume :=
        masked_mul (fun s => bool_decide (0 < s)) signed_price volume in
      let neg_volume :=
        masked_mul (fun s => bool_decide (s < 0)) signed_price (map Qcopp volume) in
      let vp := concat3 close pos_volume neg_volume in
      let vpdf :=
        if kw_sort_close kwargs then
          let '(intervals, codes) := cut (map close_ vp) width in
          imap (cut_bucket vp codes) intervals
        else
          let vp_ranges := array_split vp (Z.to_nat width) in
          map range_bucket vp_ranges in
      let vpdf :=
        match kw_fillna kwargs with
        | Some v => map (fill_value v) vpdf
        | None => vpdf
        end in
      let vpdf :=
        match kw_fill_method kwargs with
        | Some m => fill_method m vpdf
        | None => vpdf
        end in
      Some {| rows := vpdf; name := vp_name width; category := "volume" |}
  | _, _ => None
  end.

End Vp.

(** *** The vocabulary of the specification

    A row goes up, goes down or is flat with respect to the row before it;
    the first row counts as going up, and a flat row takes the default
    sign, which is positive. *)

Inductive Direction : Type := Up | Down | Flat.

#[global] Instance Direction_eq_dec : EqDecision Direction.
Proof. solve_decision. Defined.

Definition direction (prev c : Qc) : Direction :=
  if decide (prev < c) then Up else if decide (c < prev) then Down else Flat.

Fixpoint directions_from (prev : Qc) (close : Series) : list Direction :=
  match close with
  | [] => []
  | c :: close' => direction prev c :: directions_from c close'
  end.

Definition directions (close : Series) : list Direction :=
  match close with
  | [] => []
  | c :: close' => Up :: directions_from c close'
  end.

(** The input rows: close, direction and volume. *)
Definition Input : Type := Qc * (Direction * Qc).

Definition inputs (close volume : Series) : list Input :=
  combine close (combine (directions close) volume).

(** The sign that stands for a direction, and the row of the frame that
    an input row gives. *)
Definition sign_of (d : Direction) : Qc :=
  match d with Up => 1 | Down => - (1) | Flat => 1 end.

Definition row_of (r : Input) : Row :=
  let '(c, (d, v)) := r in
  mkRow c (if decide (d = Down) then None else Some v)
          (if decide (d = Down) then Some v else None).


Definition sum_series (s : Series) : Qc := foldr Qcplus 0 s.

(** The three volumes of a bucket, and those the rows of a group give:
    the rows that go up and the flat rows on the positive side, the rows
    that go down on the negative side. *)
Definition bucket_volumes (b : Bucket) : Qc * Qc * Qc :=
  (pos_volume b, neg_volume b, total_volume b).


(** Six rows, two of which repeat the close before them. *)
Definition sample_close : Series :=
  [Q2Qc 10; Q2Qc 10; Q2Qc 11; Q2Qc 9; Q2Qc 9; Q2Qc 12].
Definition sample_volume : Series :=
  [Q2Qc 1; Q2Qc 2; Q2Qc 3; Q2Qc 4; Q2Qc 5; Q2Qc 6].

(** Stand-ins for the two functions [vp] takes from elsewhere, for runs
    in chronological mode. *)
Definition verify_any (s : Series) (min_length : Z) : option Series := Some s.
Definition cut_unused (x : Series) (bins : Z) : list (Qc * Qc) * list nat :=
  ([], []).


End VP.

(** ** [core.py]: the [ta] accessor of a DataFrame *)

Module Core.
Local Open Scope string_scope.

(** A cell is a float, NaN being [None]; row labels are timestamps. *)
Definition Cell := option Qc.
Definition Label := Z.

Record Series : Type := mkSeries {
  s_name : string;
  s_index : list Label;
  s_values : list Cell
}.

(** A DataFrame: its row labels and its columns in their order. *)
Record DataFrame : Type := mkDataFrame {
  df_index : list Label;
  df_columns : list (string * list Cell)
}.

Definition columns (df : DataFrame) : list string := map fst (df_columns df).

(** Python values passed as arguments. *)
Inductive pyval : Type :=
  | PyNone
  | PyBool (b : bool)
  | PyInt (z : Z)
  | PyStr (s : string)
  | PySeries (s : Series).

Definition kwargs := gmap string pyval.

(** [bool(v)]; pandas refuses to give a series a truth value. *)
Definition truthy (v : pyval) : result bool :=
  match v with
  | PyNone => Ok false
  | PyBool b => Ok b
  | PyInt z => Ok (negb (z =? 0)%Z)
  | PyStr s => Ok (negb (String.eqb s ""))
  | PySeries _ =>
      Raise (Exn "ValueError" "The truth value of a Series is ambiguous.")
  end.

(** [f"{v}"] *)
Definition py_str (v : pyval) : string :=
  match v with
  | PyNone => "None"
  | PyBool true => "True"
  | PyBool false => "False"
  | PyInt z => pretty z
  | PyStr s => s
  | PySeries s => s_name s
  end.

(** What an indicator returns: a series or a frame, with the attributes
    [timed] and [alias] the dispatcher may set on it. *)
Inductive Value : Type :=
  | VSeries (s : Series)
  | VFrame (f : DataFrame).

Record Indicator : Type := mkIndicator {
  value : Value;
  timed_ : option string;
  alias_ : option string
}.

(** [df[name]] and [df.iloc[:, i]] *)
Definition KeyError (name : string) : exn := Exn "KeyError" name.

Fixpoint find_column (cols : list (string * list Cell)) (name : string)
  : option (list Cell) :=
  match cols with
  | [] => None
  | (n, c) :: cols' =>
      if decide (n = name) then Some c else find_column cols' name
  end.

Definition getitem (df : DataFrame) (name : string) : result Series :=
  match find_column (df_columns df) name with
  | Some col => Ok (mkSeries name (df_index df) col)
  | None => Raise (KeyError name)
  end.

Definition iloc_col (df : DataFrame) (i : nat) : result Series :=
  match df_columns df !! i with
  | Some (name, col) => Ok (mkSeries name (df_index df) col)
  | None =>
      Raise (Exn "IndexError" "single positional indexer is out-of-bounds")
  end.

(** [df[name] = s], as pandas does it.

    [s.reindex(idx)], for a series whose labels are all different: the
    value of [s] at each label of [idx], NaN at a label [s] lacks. *)
Definition reindex (idx : list Label) (s : Series) : list Cell :=
  map (fun l =>
         match list_find (fun p => fst p = l)
                         (combine (s_index s) (s_values s)) with
         | Some (_, (_, v)) => v
         | None => None
         end) idx.

(** The [ValueError] of [reindex] on labels that repeat, in the words of
    pandas 1.4 and later. *)
Definition duplicate_labels : exn :=
  Exn "ValueError" "cannot reindex on an axis with duplicate labels".

(** [_ensure_valid_index]: a frame without rows takes the row labels of a
    series that has some, and the columns it has are filled with NaN. *)
Definition ensure_valid_index (df : DataFrame) (s : Series) : DataFrame :=
  match df_index df, s_index s with
  | [], _ :: _ =>
      {| df_index := s_index s;
         df_columns :=
           map (fun c => (fst c, map (fun _ => None) (s_index s)))
               (df_columns df) |}
  | _, _ => df
  end.

(** [_reindex_for_setitem]: the values are copied as they stand when the
    series has the row labels of the frame, in their order; they are
    looked up label by label otherwise, which pandas refuses for a series
    in which a label comes twice. *)
Definition reindex_for_setitem (idx : list Label) (s : Series)
  : result (list Cell) :=
  if bool_decide (s_index s = idx) || bool_decide (idx = []) then
    Ok (s_values s)
  else if bool_decide (NoDup (s_index s)) then Ok (reindex idx s)
  else Raise duplicate_labels.

(** The columns after the assignment: every column of that name takes the
    values, and when there is none a new column is added after the last. *)
Definition set_column (cols : list (string * list Cell)) (name : string)
    (col : list Cell) : list (string * list Cell) :=
  if bool_decide (name ∈ map fst cols) then
    map (fun c => if decide (fst c = name) then (fst c, col) else c) cols
  else (cols ++ [(name, col)])%list.

Definition with_column (df : DataFrame) (name : string) (col : list Cell)
  : DataFrame :=
  {| df_index := df_index df;
     df_columns := set_column (df_columns df) name col |}.

Definition setitem (df : DataFrame) (name : string) (s : Series)
  : result DataFrame :=
  let df := ensure_valid_index df s in
  col ← reindex_for_setitem (df_index df) s;
  Ok (with_column df name col).

(** The state a method runs in: the frame [self._df] the accessor was
    created on, which the caller shares, and what was printed.  A method
    is a computation that returns or raises in such a state. *)
Record State : Type := mkState {
  _df : option DataFrame;
  printed : stdout
}.

Definition M (A : Type) : Type := State -> result A * State.

#[global] Instance M_ret : MRet M := fun A a st => (Ok a, st).
#[global] Instance M_bind : MBind M := fun A B k m st =>
  match m st with
  | (Ok a, st') => k a st'
  | (Raise e, st') => (Raise e, st')
  end.

Definition raise {A} (e : exn) : M A := fun st => (Raise e, st).
Definition lift {A} (r : result A) : M A := fun st => (r, st).
Definition get_df : M (option DataFrame) := fun st => (Ok (_df st), st).
Definition put_df (df : DataFrame) : M unit :=
  fun st => (Ok tt, mkState (Some df) (printed st)).
Definition print (line : string) : M unit :=
  fun st => (Ok tt, mkState (_df st) (printed st ++ [line])%list).

(** [try: body  except: handler] with a bare [except]. *)
Definition try_except {A} (body handler : M A) : M A := fun st =>
  match body st with
  | (Ok a, st') => (Ok a, st')
  | (Raise _, st') => handler st'
  end.

(** [_append] *)
Definition append_requested (kw : kwargs) : result bool :=
  match kw !! "append" with
  | Some v => truthy v
  | None => Ok false
  end.

Definition frame_series (f : DataFrame) : list Series :=
  map (fun c => mkSeries (fst c) (df_index f) (snd c)) (df_columns f).

(** [df[s.name] = s] on the frame that [self._df] holds: the frame is
    changed in place, so what was written stays when a later assignment
    raises. *)
Definition write (df : DataFrame) (s : Series) : M DataFrame :=
  df' ← lift (setitem df (s_name s) s);
  _ ← put_df df';
  mret df'.

(** [for i, column in enumerate(result.columns):
        df[column] = result.iloc[:, i]] *)
Fixpoint write_all (df : DataFrame) (ss : list Series) : M unit :=
  match ss with
  | [] => mret tt
  | s :: ss' => df' ← write df s; write_all df' ss'
  end.

Definition _append (result : option Value) (kw : kwargs) : M unit :=
  requested ← lift (append_requested kw);
  if requested : bool then
    df ← get_df;
    match df, result with
    | Some df, Some (VFrame f) => write_all df (frame_series f)
    | Some df, Some (VSeries s) => _ ← write df s; mret tt
    | _, _ => mret tt
    end
  else mret tt.







(** [_get_column] *)
Definition not_found (series : string) (df : DataFrame) : string :=
  "[X] Ooops!!!: It's True, the series '" ++ series ++ "' not in "
    ++ String.concat ", " (columns df).

Definition true_positions (matches : list bool) : list nat :=
  map fst (filter (fun p => snd p = true) (imap pair matches)).

Section Resolver.
(** [df.columns.str.match(pat, case=False)]: for every column name, whether
    the regular expression [pat] matches at its start, case ignored; a
    pattern that is no regular expression raises. *)
Variable str_match : string -> list string -> result (list bool).

Definition _get_column (series : pyval) (default : option string)
  : M (option Series) :=
  df ← get_df;
  match df with
  | None => mret None
  | Some df =>
      match series, default with
      | PySeries s, _ => mret (Some s)
      | PyNone, Some d => s ← lift (getitem df d); mret (Some s)
      | _, None => raise (Exn "KeyError" "None")
      | PyStr series, Some _ =>
          if bool_decide (series ∈ columns df) then
            s ← lift (getitem df series); mret (Some s)
          else
            matches ← lift (str_match series (columns df));
            match true_positions matches with
            | i :: _ => s ← lift (iloc_col df i); mret (Some s)
            | [] => _ ← print (not_found series df); mret None
            end
      | _, Some _ => mret None
      end
  end.

End Resolver.

(** [re.match] with [re.IGNORECASE] for a pattern of letters, digits and
    underscores, which stand for themselves: the pattern matches when it
    is a prefix of the name, case ignored. *)
Definition lower_ascii (c : ascii) : ascii :=
  let n := nat_of_ascii c in
  if (65 <=? n)%nat && (n <=? 90)%nat then ascii_of_nat (n + 32) else c.

Fixpoint lower (s : string) : string :=
  match s with
  | EmptyString => EmptyString
  | String c s' => String (lower_ascii c) (lower s')
  end.

Definition literal_match (pat : string) (names : list string)
  : result (list bool) :=
  Ok (map (fun n => String.prefix (lower pat) (lower n)) names).

(** The indicator methods of the accessor all have one shape: resolve the
    input columns with their default names, call the indicator of the
    package, append, return.  [w_inputs] lists the input parameters with
    their defaults, [w_others] the other named parameters, and [w_passed]
    which resolved input goes to each series argument of the indicator. *)
Record Wrapper : Type := mkWrapper {
  w_inputs : list (string * string);
  w_others : list string;
  w_passed : list nat
}.

Definition on_close (others : list string) : Wrapper :=
  mkWrapper [("close", "close")] others [0].
Definition hl : list (string * string) := [("high", "high"); ("low", "low")].
Definition hlc : list (string * string) := hl ++ [("close", "close")].

Definition wrappers : list (string * Wrapper) :=
  [ ("dema", on_close ["length"; "offset"]);
    ("ema", on_close ["length"; "offset"; "adjust"]);
    ("fwma", on_close ["length"; "offset"]);
    ("hl2", mkWrapper hl ["offset"] [0; 1]);
    ("hlc3", mkWrapper hlc ["offset"] [0; 1; 2]);
    ("hma", on_close ["length"; "offset"]);
    ("ichimoku",
       mkWrapper hlc ["tenkan"; "kijun"; "senkou"; "offset"] [0; 1; 2]);
    ("midpoint", on_close ["length"; "offset"]);
    ("midprice", mkWrapper hl ["length"; "offset"] [0; 1]);
    ("ohlc4", mkWrapper (("open_", "open") :: hlc) ["offset"] [0; 1; 2; 3]);
    ("pwma", on_close ["length"; "offset"]);
    ("rma", on_close ["length"; "offset"]);
    ("sma", on_close ["length"; "offset"]);
    ("t3", on_close ["length"; "a"; "offset"]);
    ("tema", on_close ["length"; "offset"]);
    ("trima", on_close ["length"; "offset"]);
    ("vwap", mkWrapper (hlc ++ [("volume", "volume")]) ["offset"] [0; 1; 2; 3]);
    ("vwma",
       mkWrapper [("close", "close"); ("volume", "volume")]
                 ["length"; "offset"] [0; 0]);
    ("wma", on_close ["length"; "offset"]);
    ("log_return", on_close ["length"; "cumulative"; "percent"; "offset"]);
    ("percent_return", on_close ["length"; "cumulative"; "percent"; "offset"]);
    ("kurtosis", on_close ["length"; "offset"]);
    ("mad", on_close ["length"; "offset"]);
    ("median", on_close ["length"; "offset"]);
    ("quantile", on_close ["length"; "q"; "offset"]);
    ("skew", on_close ["length"; "offset"]);
    ("stdev", on_close ["length"; "offset"]);
    ("variance", on_close ["length"; "offset"]);
    ("zscore", on_close ["length"; "std"; "offset"]) ].

Definition without (names : list string) (kw : kwargs) : kwargs :=
  foldr (fun n m => delete n m) kw names.

Definition AttributeError (attr : string) : exn :=
  Exn "AttributeError"
      ("'AnalysisIndicators' object has no attribute '" ++ attr ++ "'").

Section Dispatch.
Variable str_match : string -> list string -> result (list bool).
(** The indicators of the package: the function of that name applied to
    the series handed over and to the remaining keyword arguments. *)
Variable indicator : string -> list (option Series) -> kwargs
                     -> result (option Value).
(** The other methods of the class: [constants], [indicators] and the
    private ones. *)
Variable helper : string -> kwargs -> M (option Value).
(** The text [f"{ms:2.3f} ms ({time_diff:2.3f} s)"] for the time a call
    took. *)
Variable elapsed : string.

Definition resolve (kw : kwargs) (input : string * string)
  : M (option Series) :=
  _get_column str_match (default PyNone (kw !! fst input)) (Some (snd input)).

Fixpoint resolve_all (kw : kwargs) (inputs : list (string * string))
  : M (list (option Series)) :=
  match inputs with
  | [] => mret []
  | input :: inputs' =>
      s ← resolve kw input;
      rest ← resolve_all kw inputs';
      mret (s :: rest)
  end.

(** [def name(self, <inputs>=None, <others>=None, **kwargs)] *)
Definition run_wrapper (name : string) (w : Wrapper) (kw : kwargs)
  : M (option Value) :=
  resolved ← resolve_all kw (w_inputs w);
  let passed := map (fun i => default None (resolved !! i)) (w_passed w) in
  result ← lift (indicator name passed (without (map fst (w_inputs w)) kw));
  _ ← _append result (without (map fst (w_inputs w) ++ w_others w)%list kw);
  mret result.

(** [getattr(self, name)] followed by the call of what was found: the
    methods are those the class body defines. *)
Definition other_methods : list string :=
  ["constants"; "indicators"; "_append"; "_get_column"; "__call__"; "__init__"].

Definition call_method (name : string) (kw : kwargs) : M (option Value) :=
  match list_find (fun m => fst m = name) wrappers with
  | Some (_, (_, w)) => run_wrapper name w kw
  | None =>
      if bool_decide (name ∈ other_methods)
      then helper name kw
      else raise (AttributeError name)
  end.

(** [self.help()] *)
Definition help : M unit :=
  _ ← call_method "help" ∅; mret tt.

(** [indicator.timed = ...] and [indicator.alias = ...] *)
Definition set_attr (attr : string) (o : option Indicator)
    (f : Indicator -> Indicator) : M (option Indicator) :=
  match o with
  | Some i => mret (Some (f i))
  | None => raise (Regression.none_has_no attr)
  end.

(** [AnalysisIndicators.__call__]: the body of its [try], and the whole. *)
Definition call_body (kind alias : pyval) (timed : bool) (kw : kwargs)
  : M (option Indicator) :=
  match kind with
  | PyStr kind =>
      let kind := lower kind in
      v ← call_method kind kw;
      let ind := (fun v => mkIndicator v None None) <$> v in
      ind ← (if timed
             then set_attr "timed" ind
                    (fun i => mkIndicator (value i) (Some elapsed) (alias_ i))
             else mret ind);
      has_alias ← lift (truthy alias);
      ind ← (if has_alias : bool
             then set_attr "alias" ind
                    (fun i => mkIndicator (value i) (timed_ i)
                                          (Some (py_str alias)))
             else mret ind);
      mret ind
  | _ => _ ← help; mret None
  end.

Definition __call__ (kind alias : pyval) (timed : bool) (kw : kwargs)
  : M (option Indicator) :=
  try_except (call_body kind alias timed kw) (_ ← help; mret None).

End Dispatch.

(** A frame of two rows whose columns are capitalised, and stand-ins for
    the indicators of the package and the helper methods. *)
Definition sample_column (a b : Z) : list Cell :=
  [Some (Q2Qc (inject_Z a)); Some (Q2Qc (inject_Z b))].

Definition sample_df : DataFrame :=
  {| df_index := [0%Z; 86400000000000%Z];
     df_columns := [ ("Open", sample_column 10 11);
                     ("High", sample_column 12 13);
                     ("Low", sample_column 9 10);
                     ("Close", sample_column 11 12);
                     ("Close_adj", sample_column 5 6) ] |}.

Definition sample_state : State := mkState (Some sample_df) [].

Definition sample_kwargs : kwargs := {[ "append" := PyBool true ]}.

Definition sample_result (a b : Z) : Series :=
  mkSeries "SMA_2" (df_index sample_df) (sample_column a b).

Definition no_indicator (name : string) (inputs : list (option Series))
    (kw : kwargs) : result (option Value) := Ok None.
Definition no_helper (name : string) (kw : kwargs) : M (option Value) :=
  mret None.

End Core.

(** *** The prices of a bucket *)

Module VPPrices.
Import VP.
Local Open Scope Qc_scope.

(** A bucket whose three prices are numbers, in their order. *)
Definition priced (b : Bucket) : Prop :=
  exists l m h, low_close b = Some l /\ mean_close b = Some m /\
                high_close b = Some h /\ l <= m /\ m <= h.

End VPPrices.

(** ** [utils/_math.py]: combinatorial helpers *)

Module Math.

(** [range(start, stop)] and [range(start, stop, -1)] *)
Definition range_up (start stop : Z) : list Z :=
  map (fun k => (start + Z.of_nat k)%Z) (seq 0 (Z.to_nat (stop - start))).
Definition range_down (start stop : Z) : list Z :=
  map (fun k => (start - Z.of_nat k)%Z) (seq 0 (Z.to_nat (start - stop))).

(** [reduce(mul, xs, 1)] *)
Definition reduce_mul (xs : list Z) : Z := foldl Z.mul 1%Z xs.

(** The integers the definitions stand for.  [int(fabs(x))] goes through
    a float, which holds every integer up to [2^53] as it is, and numpy
    keeps the integers of an array and their sum in 64 bits, below [2^63].
    Past these bounds the code rounds or wraps, and the definitions below,
    on unbounded integers, do not: the properties that depend on it are
    stated within the bounds. *)
Definition float_exact : Z := 2 ^ 53.
Definition int64_bound : Z := 2 ^ 63.

Definition in_int64 (x : Z) : bool := (0 <=? x)%Z && (x <? int64_bound)%Z.

(** [combination(n=.., r=.., repetition=.., multichoose=..)] on integers. *)
Definition combination (n r : Z) (repetition multichoose : bool) : Z :=
  let n := Z.abs n in
  let r := Z.abs r in
  let n := if repetition || multichoose then (n + r - 1)%Z else n in
  let r := Z.min n (n - r) in
  if (r =? 0)%Z then 1%Z
  else
    let numerator := reduce_mul (range_down n (n - r)) in
    let denominator := reduce_mul (range_up 1 (r + 1)) in
    (numerator / denominator)%Z.

(** [fibonacci(n, zero=.., weighted=..)]: an array of integers, or of
    weights when [weighted] is set and the sum is positive. *)
Inductive Numbers : Type :=
  | Ints (xs : list Z)
  | Floats (xs : list Qc).

Fixpoint fib_loop (k : nat) (a b : Z) : list Z :=
  match k with
  | O => []
  | S k' => b :: fib_loop k' b (a + b)%Z
  end.

Definition sum_Z (xs : list Z) : Z := foldr Z.add 0%Z xs.
Definition sum_Qc (xs : list Qc) : Qc := foldr Qcplus 0%Qc xs.
Definition of_int (z : Z) : Qc := Q2Qc (inject_Z z).

(** [array / total] *)
Definition divide_by (total : Z) (xs : list Z) : list Qc :=
  map (fun x => (of_int x / of_int total)%Qc) xs.

(** [int(fabs(n)) if n >= 0 else 2] *)
Definition fib_count (n : Z) : Z := if (0 <=? n)%Z then Z.abs n else 2%Z.

Definition fibonacci (n : Z) (zero weighted : bool) : Numbers :=
  let n := fib_count n in
  let '(n, a, b) := if zero then (n, 0%Z, 1%Z) else ((n - 1)%Z, 1%Z, 1%Z) in
  let result := a :: fib_loop (Z.to_nat n) a b in
  if weighted then
    let fib_sum := sum_Z result in
    if (0 <? fib_sum)%Z then Floats (divide_by fib_sum result)
    else Ints result
  else Ints result.

(** The numbers of [fibonacci(n, zero=..)] before any weighting. *)
Definition fib_numbers (n : Z) (zero : bool) : list Z :=
  match fibonacci n zero false with
  | Ints xs => xs
  | Floats _ => []
  end.

(** [pascals_triangle(n, weighted=.., inverse=..)]; [inverse] alone gives
    [None]. *)
Definition pascals_triangle (n : option Z) (weighted inverse : bool)
  : option Numbers :=
  let n := match n with Some n => Z.abs n | None => 0%Z end in
  let triangle :=
    map (fun i => combination n i false false) (range_up 0 (n + 1)) in
  let triangle_sum := sum_Z triangle in
  let triangle_weights := divide_by triangle_sum triangle in
  let inverse_weights := map (fun w => (1 - w)%Qc) triangle_weights in
  if weighted && inverse then Some (Floats inverse_weights)
  else if weighted then Some (Floats triangle_weights)
  else if inverse then None
  else Some (Ints triangle).

(** [symmetric_triangle(n, weighted=..)].  The name [triangle] is bound
    only when [n >= 2]; reading it unbound raises. *)
Definition UnboundLocalError : exn :=
  Exn "UnboundLocalError"
      "local variable 'triangle' referenced before assignment".

(** [[i + 1 for i in range(0, m)]] *)
Definition front (m : Z) : list Z :=
  map (fun i => (i + 1)%Z) (range_up 0 m).

Definition symmetric_triangle (n : option Z) (weighted : bool)
  : result Numbers :=
  let n := match n with Some n => Z.abs n | None => 2%Z end in
  let triangle : option (list Z) :=
    if (n =? 2)%Z then Some [1%Z; 1%Z]
    else if (2 <? n)%Z then
      if (n mod 2 =? 0)%Z then
        Some (front (n / 2) ++ rev (front (n / 2)))
      else
        Some (front ((n + 1) / 2) ++ rev (removelast (front ((n + 1) / 2))))
    else None in
  match triangle with
  | None => Raise UnboundLocalError
  | Some triangle =>
      if weighted then Ok (Floats (divide_by (sum_Z triangle) triangle))
      else Ok (Ints triangle)
  end.

(** [zero(x)], with [sys.float_info.epsilon = 2^-52]. *)
Definition epsilon : Qc := Q2Qc (1 # 4503599627370496).

Definition Qcabs (x : Qc) : Qc := if decide (x < 0)%Qc then (- x)%Qc else x.

Definition zero (x : Qc) : Qc :=
  if decide (Qcabs x < epsilon)%Qc then 0%Qc else x.

(** Pascal's rule, to say what [combination] computes. *)
Fixpoint binomial (n k : nat) : nat :=
  match n, k with
  | _, O => 1
  | O, S _ => 0
  | S n', S k' => binomial n' k' + binomial n' k
  end.

End Math.

(** ** [core.py]: construction, [constants] and [indicators] *)

Module CoreMethods.
Import Core.
Local Open Scope string_scope.

(** [df.empty]: one of the two axes has no entry. *)
Definition empty (df : DataFrame) : bool :=
  (length (df_index df) =? 0)%nat || (length (columns df) =? 0)%nat.

(** [BasePandasObject.__init__].  The result is the attribute [_df] of the
    object afterwards: [None] when the method returned without setting
    it. *)
Definition __init__ (df : DataFrame) : result (option DataFrame) :=
  if empty df then Ok None
  else if (0 <? length (columns df))%nat then Ok (Some df)
  else Raise (Exn "AttributeError" "[X] No columns!").

(** [[x for x in range(lower_bound, upper_bound + 1) if x % every == 0]];
    [%] takes the sign of the divisor, as [Z.modulo] does, and raises on a
    zero divisor. *)
Definition ZeroDivisionError : exn :=
  Exn "ZeroDivisionError" "integer division or modulo by zero".

Definition levels (lower_bound upper_bound every : Z) : result (list Z) :=
  match Math.range_up lower_bound (upper_bound + 1) with
  | [] => Ok []
  | xs =>
      if (every =? 0)%Z then Raise ZeroDivisionError
      else Ok (filter (fun x => (x mod every)%Z = 0%Z) xs)
  end.

(** [df[name] = x] for a number [x]: the column holds [x] in every row. *)
Definition setitem_scalar (df : DataFrame) (name : string) (x : Z)
  : DataFrame :=
  {| df_index := df_index df;
     df_columns :=
       set_column (df_columns df) name
                  (map (fun _ => Some (Q2Qc (inject_Z x))) (df_index df)) |}.

(** The column of the constant [x], with its name [f'{x}']. *)
Definition constant_column (idx : list Label) (x : Z) : string * list Cell :=
  (pretty x, map (fun _ => Some (Q2Qc (inject_Z x))) idx).

(** [del df[name]] *)
Definition delitem (df : DataFrame) (name : string) : result DataFrame :=
  if bool_decide (name ∈ columns df) then
    Ok {| df_index := df_index df;
          df_columns := filter (fun c => fst c <> name) (df_columns df) |}
  else Raise (KeyError name).

Definition NoneType_object (what : string) : exn :=
  Exn "TypeError" ("'NoneType' object " ++ what).

(** [self._df[f'{x}'] = x] and [del self._df[f'{x}']] *)
Definition set_constant (x : Z) : M unit :=
  df ← get_df;
  match df with
  | Some df => put_df (setitem_scalar df (pretty x) x)
  | None => raise (NoneType_object "does not support item assignment")
  end.

Definition del_constant (x : Z) : M unit :=
  df ← get_df;
  match df with
  | Some df => df' ← lift (delitem df (pretty x)); put_df df'
  | None => raise (NoneType_object "does not support item deletion")
  end.

(** [for x in xs: body] *)
Fixpoint for_each {A} (xs : list A) (body : A -> M unit) : M unit :=
  match xs with
  | [] => mret tt
  | x :: xs' => _ ← body x; for_each xs' body
  end.

Definition constants (apply : bool) (lower_bound upper_bound every : Z)
  : M unit :=
  levels ← lift (levels lower_bound upper_bound every);
  if apply then for_each levels set_constant
  else for_each levels del_constant.

(** The values [indicators] may get for [exclude], and [==] on them. *)
#[warnings="-register-all"] Inductive pyobj : Type :=
  | ONone
  | OBool (b : bool)
  | OInt (z : Z)
  | OStr (s : string)
  | OList (xs : list pyobj).

Definition int_of_bool (b : bool) : Z := if b then 1%Z else 0%Z.

Fixpoint py_eq (a b : pyobj) : bool :=
  match a, b with
  | ONone, ONone => true
  | OBool x, OBool y => (int_of_bool x =? int_of_bool y)%Z
  | OBool x, OInt y => (int_of_bool x =? y)%Z
  | OInt x, OBool y => (x =? int_of_bool y)%Z
  | OInt x, OInt y => (x =? y)%Z
  | OStr x, OStr y => String.eqb x y
  | OList xs, OList ys =>
      (fix go (xs ys : list pyobj) : bool :=
         match xs, ys with
         | [], [] => true
         | x :: xs', y :: ys' => py_eq x y && go xs' ys'
         | _, _ => false
         end) xs ys
  | _, _ => false
  end.

(** [x in l] and [l.remove(x)] for a list [l] of strings. *)
Definition py_in (x : pyobj) (l : list string) : bool :=
  existsb (fun s => py_eq x (OStr s)) l.

Definition not_in_list : exn :=
  Exn "ValueError" "list.remove(x): x not in list".

Fixpoint remove (x : pyobj) (l : list string) : result (list string) :=
  match l with
  | [] => Raise not_in_list
  | s :: l' =>
      if py_eq (OStr s) x then Ok l'
      else l'' ← remove x l'; Ok (s :: l'')
  end.

(** [for x in xs: l.remove(x)] *)
Definition remove_each (xs : list pyobj) (l : list string)
  : result (list string) :=
  foldl (fun acc x => l ← acc; remove x l) (Ok l) xs.

(** [x.startswith('_')] and [x.endswith('_')] *)
Definition startswith_ (x : string) : bool :=
  match x with
  | String c _ => Ascii.eqb c "_"
  | EmptyString => false
  end.

Fixpoint endswith_ (x : string) : bool :=
  match x with
  | EmptyString => false
  | String c EmptyString => Ascii.eqb c "_"
  | String _ x' => endswith_ x'
  end.

Definition header : string := "pandas.ta - Technical Analysis Indicators".
Definition newline : string := String (ascii_of_nat 10) EmptyString.

Section Indicators.
(** [dir(pd.DataFrame().ta)]: the names of the attributes of an accessor. *)
Variable dir_ta : list string.

Definition indicators (exclude : pyobj) (as_list : bool)
  : M (option (list string)) :=
  let helper_methods := ["indicators"; "constants"] in
  let ta_indicators :=
    List.filter (fun x => negb (startswith_ x) && negb (endswith_ x)) dir_ta in
  ta_indicators ← lift (remove_each (map OStr helper_methods) ta_indicators);
  ta_indicators ← lift
    match exclude with
    | OList xs =>
        if py_in exclude ta_indicators && (0 <? length xs)%nat
        then remove_each xs ta_indicators
        else Ok ta_indicators
    | _ => Ok ta_indicators
    end;
  if as_list : bool then mret (Some ta_indicators)
  else
    let total_indicators := length ta_indicators in
    let s := header ++ newline ++ "Total Indicators: "
             ++ pretty total_indicators ++ newline in
    if (0 <? total_indicators)%nat then
      _ ← print (s ++ "Abbreviations:" ++ newline ++ "    "
                   ++ String.concat ", " ta_indicators);
      mret None
    else
      _ ← print s; mret None.

End Indicators.

(** A frame that has the constants 1 and 2 already. *)
Definition levelled_df : DataFrame :=
  {| df_index := [0%Z; 86400000000000%Z];
     df_columns := [ ("close", sample_column 11 12);
                     ("1", sample_column 1 1);
                     ("2", sample_column 2 2) ] |}.

End CoreMethods.

(** * Properties *)

(** ** Linear regression *)

Module RegressionFacts.
Import Regression.
Local Open Scope R_scope.

Ltac eval_series :=
  unfold _linear_regression_np, _linear_regression_sklearn, npCorrcoef01,
    cov, score, fit, predict, ssub, affine, center, mean, smul, sum, size,
    xs, ys;
  simpl.

Lemma cov_xs_ys : cov xs ys = 3 / 2.
Proof. eval_series. lra. Qed.

Lemma cov_xs_xs : cov xs xs = 5 / 2.
Proof. eval_series. lra. Qed.

Lemma cov_ys_ys : cov ys ys = 3 / 2.
Proof. eval_series. lra. Qed.

Lemma np_slope : b (_linear_regression_np xs ys) = 6 / 10.
Proof. eval_series. lra. Qed.

Lemma np_intercept : a (_linear_regression_np xs ys) = 22 / 10.
Proof. eval_series. lra. Qed.

Lemma sklearn_slope : b (_linear_regression_sklearn xs ys) = 6 / 10.
Proof. eval_series. lra. Qed.

Lemma sklearn_intercept : a (_linear_regression_sklearn xs ys) = 22 / 10.
Proof. eval_series. lra. Qed.

(** [score] is the coefficient of determination of the fit. *)
Lemma sklearn_r : r (_linear_regression_sklearn xs ys) = 6 / 10.
Proof. eval_series. lra. Qed.

(** [corrcoef] is Pearson's coefficient, whose square is that number. *)
Lemma np_r : r (_linear_regression_np xs ys) = 3 / 2 / sqrt (5 / 2) / sqrt (3 / 2).
Proof.
  change (r (_linear_regression_np xs ys)) with (npCorrcoef01 xs ys).
  unfold npCorrcoef01. now rewrite cov_xs_ys, cov_xs_xs, cov_ys_ys.
Qed.

Lemma np_r_pos : 0 < r (_linear_regression_np xs ys).
Proof.
  rewrite np_r.
  assert (0 < sqrt (5 / 2)) by (apply sqrt_lt_R0; lra).
  assert (0 < sqrt (3 / 2)) by (apply sqrt_lt_R0; lra).
  repeat apply Rdiv_lt_0_compat; lra.
Qed.

Lemma np_r_sqr :
  r (_linear_regression_np xs ys) * r (_linear_regression_np xs ys) = 6 / 10.
Proof.
  rewrite np_r.
  assert (H1 : sqrt (5 / 2) * sqrt (5 / 2) = 5 / 2) by (apply sqrt_sqrt; lra).
  assert (H2 : sqrt (3 / 2) * sqrt (3 / 2) = 3 / 2) by (apply sqrt_sqrt; lra).
  assert (0 < sqrt (5 / 2)) by (apply sqrt_lt_R0; lra).
  assert (0 < sqrt (3 / 2)) by (apply sqrt_lt_R0; lra).
  replace (3 / 2 / sqrt (5 / 2) / sqrt (3 / 2) * (3 / 2 / sqrt (5 / 2) / sqrt (3 / 2)))
    with (9 / 4 / (sqrt (5 / 2) * sqrt (5 / 2)) / (sqrt (3 / 2) * sqrt (3 / 2)))
    by (field; lra).
  rewrite H1, H2. lra.
Qed.

(** *** Where the two backends agree: slope, intercept and line *)

Lemma sum_centered_products (c d : R) (x y : Series) :
  length x = length y ->
  sum (smul (map (fun xi => xi - c) x) (map (fun yi => yi - d) y))
  = sum (smul x y) - d * sum x - c * sum y + INR (length x) * c * d.
Proof.
  revert y. induction x as [|xi x IH]; intros y Hlen.
  - destruct y; [|discriminate]. simpl. ring.
  - destruct y as [|yi y]; [discriminate|].
    injection Hlen as Hlen.
    change (length (xi :: x)) with (S (length x)). rewrite S_INR.
    unfold smul, sum in *. simpl. rewrite (IH y Hlen). ring.
Qed.

Lemma centered_products (x y : Series) :
  length x = length y ->
  x <> [] ->
  INR (length x) * sum (smul (center x) (center y))
  = INR (length x) * sum (smul x y) - sum x * sum y.
Proof.
  intros Hlen Hne.
  assert (Hm : INR (length x) <> 0).
  { apply not_0_INR. destruct x; [contradiction | discriminate]. }
  unfold center. rewrite sum_centered_products by exact Hlen.
  unfold mean, size. rewrite <- Hlen. field. exact Hm.
Qed.

(** For series of one size the two backends compute the same slope, the
    same intercept and the same line (division being total on [R], also
    when all the [x] are equal and both slopes are a quotient by zero). *)
Lemma backends_agree_on_the_line (x y : Series) :
  length x = length y ->
  x <> [] ->
  let np := _linear_regression_np x y in
  let sk := _linear_regression_sklearn x y in
  b np = b sk /\ a np = a sk /\ line np = line sk.
Proof.
  intros Hlen Hne. cbv zeta.
  assert (Hm : INR (length x) <> 0).
  { apply not_0_INR. destruct x; [contradiction | discriminate]. }
  assert (Hb : b (_linear_regression_np x y) = b (_linear_regression_sklearn x y)).
  { unfold _linear_regression_np, _linear_regression_sklearn, fit. simpl.
    unfold size.
    rewrite <- (centered_products x y Hlen Hne).
    rewrite <- (centered_products x x eq_refl Hne).
    unfold Rdiv. rewrite Rinv_mult.
    generalize (/ sum (smul (center x) (center x))). intros q.
    field. exact Hm. }
  assert (Ha : a (_linear_regression_np x y) = a (_linear_regression_sklearn x y)).
  { change (mean y - b (_linear_regression_np x y) * mean x
            = mean y - b (_linear_regression_sklearn x y) * mean x).
    now rewrite Hb. }
  split; [exact Hb|]. split; [exact Ha|].
  change (affine (a (_linear_regression_np x y))
                 (b (_linear_regression_np x y)) x
          = affine (a (_linear_regression_sklearn x y))
                   (b (_linear_regression_sklearn x y)) x).
  now rewrite Ha, Hb.
Qed.

Lemma div_lt_above (x s c : R) : 0 < s -> x < c * s -> x / s < c.
Proof.
  intros Hs H. apply Rmult_lt_reg_r with s; [exact Hs|].
  replace (x / s * s) with x by (field; lra). exact H.
Qed.

Lemma div_lt_below (x s c : R) : 0 < s -> c * s < x -> c < x / s.
Proof.
  intros Hs H. apply Rmult_lt_reg_r with s; [exact Hs|].
  replace (x / s * s) with x by (field; lra). exact H.
Qed.

Lemma np_t :
  t (_linear_regression_np xs ys)
  = r (_linear_regression_np xs ys) / sqrt (2 / 15).
Proof.
  change (t (_linear_regression_np xs ys))
    with (r (_linear_regression_np xs ys)
          / sqrt ((1 - r (_linear_regression_np xs ys)
                       * r (_linear_regression_np xs ys))
                  / (INR (size xs) - 2))).
  rewrite np_r_sqr. do 2 f_equal. simpl. lra.
Qed.

Lemma sklearn_t :
  t (_linear_regression_sklearn xs ys) = 6 / 10 / sqrt (16 / 75).
Proof.
  change (t (_linear_regression_sklearn xs ys))
    with (r (_linear_regression_sklearn xs ys)
          / sqrt ((1 - r (_linear_regression_sklearn xs ys)
                       * r (_linear_regression_sklearn xs ys))
                  / (INR (size xs) - 2))).
  rewrite sklearn_r. do 2 f_equal. simpl. lra.
Qed.

Lemma lines_agree :
  line (_linear_regression_np xs ys) = line (_linear_regression_sklearn xs ys).
Proof.
  change (affine (a (_linear_regression_np xs ys))
                 (b (_linear_regression_np xs ys)) xs
          = affine (a (_linear_regression_sklearn xs ys))
                   (b (_linear_regression_sklearn xs ys)) xs).
  now rewrite np_slope, np_intercept, sklearn_slope, sklearn_intercept.
Qed.

(** C1 (fails on the code).  On the sample [x = [1,2,3,4,5]],
    [y = [2,4,5,4,5]] of the specification the two backends agree on the
    intercept, the slope and the fitted line, but not on [r] and [t]: the
    numpy backend returns Pearson's correlation (about 0.77) and the sklearn
    backend the coefficient of determination 0.6, its square, so the two
    [r] are more than 0.1 apart and the two [t] more than 0.5. *)
Theorem backends_disagree_on_r_and_t :
  let np := _linear_regression_np xs ys in
  let sk := _linear_regression_sklearn xs ys in
  a np = a sk /\ b np = b sk /\ line np = line sk /\
  r sk = 6 / 10 /\ r np * r np = r sk /\
  r sk + 1 / 10 < r np /\
  t sk + 1 / 2 < t np.
Proof.
  cbv zeta.
  pose proof np_r_pos as Hpos. pose proof np_r_sqr as Hsqr.
  repeat split.
  - now rewrite np_intercept, sklearn_intercept.
  - now rewrite np_slope, sklearn_slope.
  - apply lines_agree.
  - apply sklearn_r.
  - now rewrite sklearn_r.
  - rewrite sklearn_r. nra.
  - rewrite np_t, sklearn_t.
    set (rn := r (_linear_regression_np xs ys)) in *.
    assert (H1 : sqrt (2 / 15) * sqrt (2 / 15) = 2 / 15) by (apply sqrt_sqrt; lra).
    assert (H2 : sqrt (16 / 75) * sqrt (16 / 75) = 16 / 75) by (apply sqrt_sqrt; lra).
    assert (P1 : 0 < sqrt (2 / 15)) by (apply sqrt_lt_R0; lra).
    assert (P2 : 0 < sqrt (16 / 75)) by (apply sqrt_lt_R0; lra).
    assert (U : 6 / 10 / sqrt (16 / 75) < 3 / 2)
      by (apply div_lt_above; [exact P2 | nra]).
    assert (L : 2 < rn / sqrt (2 / 15))
      by (apply div_lt_below; [exact P1 | nra]).
    lra.
Qed.

(** C9, as stated, fails: on series of sizes 1 and 2 the call raises no
    [ValidationError]; it returns [None] in the ordinary way. *)
Lemma mismatch_raises_no_ValidationError :
  ~ raises "ValidationError"
      (fst (linear_regression (fun s => Some s) false [1] [1; 2])).
Proof. intros [msg H]. discriminate H. Qed.

(** C9 (amended).  For series of unequal sizes [linear_regression] raises
    nothing: it prints one line that names the two sizes and returns
    [None], so that no [RegressionResult] is produced and neither backend
    runs. *)
Theorem mismatch_prints_and_returns_none :
  forall (verify_series : Series -> option Series) (Imports_sklearn : bool)
         (x y : Series),
    verify_series x = Some x ->
    verify_series y = Some y ->
    length x <> length y ->
    linear_regression verify_series Imports_sklearn x y
    = (Ok None, [mismatch_message (length x) (length y)]).
Proof.
  intros verify_series imports x y Hx Hy Hne.
  unfold linear_regression. rewrite Hx, Hy. unfold size.
  destruct (Nat.eqb_spec (length x) (length y)) as [Heq | _]; [contradiction|].
  reflexivity.
Qed.

Lemma mismatch_prints_and_returns_none_witness :
  length [1; 2; 3] <> length [1; 2] /\
  linear_regression (fun s => Some s) true [1; 2; 3] [1; 2]
  = (Ok None,
     ["[X] Linear Regression X and y observations do not match: 3 != 2"%string]).
Proof.
  split; [simpl; lia|].
  apply (mismatch_prints_and_returns_none (fun s => Some s) true [1; 2; 3] [1; 2]);
    [reflexivity | reflexivity | simpl; lia].
Defined.

End RegressionFacts.

(** ** The Super Smoother Filter *)

Module SSFFacts.
Import SSF.
Local Open Scope R_scope.

(** *** The coefficients of the two-pole filter for the default period *)

Lemma x2_10_bounds : 0 < x2 10 /\ x2 10 < PI / 3.
Proof.
  unfold x2.
  pose proof PI_RGT_0 as Hpi.
  assert (Hs : sqrt 2 * sqrt 2 = 2) by (apply sqrt_sqrt; lra).
  assert (Hp : 0 < sqrt 2) by (apply sqrt_lt_R0; lra).
  assert (Hlt : sqrt 2 < 2) by nra.
  split.
  - apply Rdiv_lt_0_compat; [nra | lra].
  - apply Rmult_lt_reg_r with 30; [lra|].
    replace (PI * sqrt 2 / 10 * 30) with (3 * (PI * sqrt 2)) by field.
    replace (PI / 3 * 30) with (10 * PI) by field.
    nra.
Qed.

Lemma a0_2_pos (n : Z) : 0 < a0_2 n.
Proof. apply exp_pos. Qed.

Lemma a0_2_10_lt_1 : a0_2 10 < 1.
Proof.
  unfold a0_2. rewrite <- exp_0. apply exp_increasing.
  destruct x2_10_bounds. lra.
Qed.

Lemma cos_x2_10 : 1 / 2 < cos (x2 10).
Proof.
  destruct x2_10_bounds as [H0 H3]. pose proof PI_RGT_0.
  rewrite <- cos_PI3. apply cos_decreasing_1; lra.
Qed.

Lemma a1_2_neg (n : Z) : a1_2 n < 0.
Proof. unfold a1_2. pose proof (a0_2_pos n). nra. Qed.

Lemma c1_2_10_lt_1 : c1_2 10 < 1.
Proof.
  unfold c1_2, a1_2, b1_2.
  pose proof (a0_2_pos 10). pose proof a0_2_10_lt_1. pose proof cos_x2_10.
  nra.
Qed.

(** *** The loop keeps the size of the series *)

Lemma iloc_set_length (s s' : Series) (i : Z) (v : R) :
  iloc_set s i v = Ok s' -> length s' = length s.
Proof.
  unfold iloc_set. destruct (iloc_pos s i); [|discriminate].
  intros [= <-]. apply length_insert.
Qed.

Lemma body2_length (n : Z) (close s s' : Series) (i : Z) :
  body2 n close s i = Ok s' -> length s' = length s.
Proof.
  unfold body2.
  destruct (iloc close i); [|discriminate]; simpl.
  destruct (iloc s (i - 1)); [|discriminate]; simpl.
  destruct (iloc s (i - 2)); [|discriminate]; simpl.
  apply iloc_set_length.
Qed.

Lemma body3_length (n : Z) (close s s' : Series) (i : Z) :
  body3 n close s i = Ok s' -> length s' = length s.
Proof.
  unfold body3.
  destruct (iloc close i); [|discriminate]; simpl.
  destruct (iloc s (i - 1)); [|discriminate]; simpl.
  destruct (iloc s (i - 2)); [|discriminate]; simpl.
  destruct (iloc s (i - 3)); [|discriminate]; simpl.
  apply iloc_set_length.
Qed.

Lemma fold_raise (body : Series -> Z -> result Series) (l : list nat) (e : exn) :
  fold_left (fun acc i => s ← acc; body s (Z.of_nat i)) l (Raise e) = Raise e.
Proof. induction l as [|i l IH]; [reflexivity | exact IH]. Qed.

Lemma for_range_length (body : Series -> Z -> result Series) :
  (forall s s' i, body s i = Ok s' -> length s' = length s) ->
  forall (l : list nat) (s s' : Series),
    fold_left (fun acc i => s ← acc; body s (Z.of_nat i)) l (Ok s) = Ok s' ->
    length s' = length s.
Proof.
  intros Hbody l. induction l as [|i l IH]; intros s s' H; simpl in H.
  - now injection H as <-.
  - destruct (body s (Z.of_nat i)) as [s1|e] eqn:E; simpl in H.
    + rewrite (IH _ _ H). eauto.
    + rewrite fold_raise in H. discriminate.
Qed.

Lemma zero_from_length (k : nat) (s : Series) :
  length (zero_from k s) = length s.
Proof.
  unfold zero_from.
  rewrite length_app, length_take, repeat_length. lia.
Qed.

Lemma shift_length (k : Z) (s : Series) : length (shift k s) = length s.
Proof. unfold shift. now rewrite length_map, length_seq. Qed.

(** Whenever [ssf] returns, the result is as long as the input. *)
Lemma ssf_length verify_series get_offset (close : Series) length_ poles offset out :
  verify_series close = Some close ->
  ssf verify_series get_offset close length_ poles offset = Ok out ->
  length (values out) = length close.
Proof.
  intros Hv. unfold ssf. rewrite Hv.
  set (p := poles_arg poles). set (n := length_arg length_).
  destruct (if (p =? 3)%Z then _ else _) as [s|e] eqn:E; [|discriminate].
  simpl. intros [= <-]. simpl.
  assert (Hs : length s = length close).
  { destruct (p =? 3)%Z.
    - apply for_range_length in E; [|apply body3_length].
      now rewrite E, zero_from_length.
    - apply for_range_length in E; [|apply body2_length].
      now rewrite E, zero_from_length. }
  destruct (get_offset offset =? 0)%Z.
  - now rewrite length_map.
  - now rewrite shift_length.
Qed.

(** *** The loop runs to its end on a series of at least [poles] samples *)

Lemma iloc_pos_nonneg (s : Series) (i : Z) :
  (0 <= i < Z.of_nat (length s))%Z -> iloc_pos s i = Some (Z.to_nat i).
Proof.
  intros [H0 H1]. unfold iloc_pos.
  destruct (Z.leb_spec 0 i); [|lia].
  destruct (Z.ltb_spec i (Z.of_nat (length s))); [|lia].
  reflexivity.
Qed.

Lemma iloc_pos_negative (s : Series) (i : Z) :
  (- Z.of_nat (length s) <= i < 0)%Z ->
  iloc_pos s i = Some (Z.to_nat (Z.of_nat (length s) + i)).
Proof.
  intros [H0 H1]. unfold iloc_pos.
  destruct (Z.leb_spec 0 i); [lia|]. simpl.
  destruct (Z.leb_spec (- Z.of_nat (length s)) i); [|lia].
  destruct (Z.ltb_spec i 0); [|lia].
  reflexivity.
Qed.

Lemma iloc_ok (s : Series) (i : Z) :
  (- Z.of_nat (length s) <= i < Z.of_nat (length s))%Z ->
  exists v, iloc s i = Ok v.
Proof.
  intros H. unfold iloc.
  destruct (Z.neg_nonneg_cases i) as [Hneg | Hpos].
  - rewrite iloc_pos_negative by lia. eauto.
  - rewrite iloc_pos_nonneg by lia. eauto.
Qed.

Lemma iloc_set_ok (s : Series) (i : nat) (v : R) :
  (i < length s)%nat -> iloc_set s (Z.of_nat i) v = Ok (<[i := v]> s).
Proof.
  intros H. unfold iloc_set. rewrite iloc_pos_nonneg by lia.
  now rewrite Nat2Z.id.
Qed.

Lemma body2_ok (n : Z) (close s : Series) (i : nat) :
  length s = length close -> (2 <= length s)%nat -> (i < length s)%nat ->
  exists v, body2 n close s (Z.of_nat i) = Ok (<[i := v]> s).
Proof.
  intros Hlen H2 Hi. unfold body2.
  destruct (iloc_ok close (Z.of_nat i)) as [x ->]; [lia|].
  destruct (iloc_ok s (Z.of_nat i - 1)) as [p1 ->]; [lia|].
  destruct (iloc_ok s (Z.of_nat i - 2)) as [p2 ->]; [lia|].
  simpl. rewrite iloc_set_ok by exact Hi. eauto.
Qed.

Lemma body3_ok (n : Z) (close s : Series) (i : nat) :
  length s = length close -> (3 <= length s)%nat -> (i < length s)%nat ->
  exists v, body3 n close s (Z.of_nat i) = Ok (<[i := v]> s).
Proof.
  intros Hlen H3 Hi. unfold body3.
  destruct (iloc_ok close (Z.of_nat i)) as [x ->]; [lia|].
  destruct (iloc_ok s (Z.of_nat i - 1)) as [p1 ->]; [lia|].
  destruct (iloc_ok s (Z.of_nat i - 2)) as [p2 ->]; [lia|].
  destruct (iloc_ok s (Z.of_nat i - 3)) as [p3 ->]; [lia|].
  simpl. rewrite iloc_set_ok by exact Hi. eauto.
Qed.

(** A loop whose turns each write the sample of their own index runs to
    its end and leaves the samples of the other indices alone. *)
Lemma fold_writes_own_index (body : Series -> Z -> result Series) (m : nat) :
  (forall s i, length s = m -> (i < m)%nat ->
               exists v, body s (Z.of_nat i) = Ok (<[i := v]> s)) ->
  forall (l : list nat) (s : Series),
    length s = m ->
    (forall i, i ∈ l -> (i < m)%nat) ->
    exists s',
      fold_left (fun acc i => s ← acc; body s (Z.of_nat i)) l (Ok s) = Ok s' /\
      length s' = m /\
      forall j, j ∉ l -> s' !! j = s !! j.
Proof.
  intros Hbody l. induction l as [|i l IH]; intros s Hlen Hl.
  - exists s. repeat split; auto.
  - destruct (Hbody s i Hlen) as [v Hv].
    { apply Hl, elem_of_cons. now left. }
    destruct (IH (<[i := v]> s)) as (s' & Hfold & Hlen' & Hkeep).
    { transitivity (length s); [apply length_insert | exact Hlen]. }
    { intros k Hk. apply Hl, elem_of_cons. now right. }
    exists s'. split; [|split].
    + simpl. rewrite Hv. exact Hfold.
    + exact Hlen'.
    + intros j [Hji Hjl]%not_elem_of_cons.
      rewrite Hkeep by exact Hjl. now apply list_lookup_insert_ne.
Qed.

Lemma for_range_ok (body : Series -> Z -> result Series) (s : Series) :
  (forall s' i, length s' = length s -> (i < length s)%nat ->
                exists v, body s' (Z.of_nat i) = Ok (<[i := v]> s')) ->
  exists s', for_range (length s) body s = Ok s' /\ length s' = length s.
Proof.
  intros Hbody.
  destruct (fold_writes_own_index body (length s) Hbody
              (seq 0 (length s)) s eq_refl) as (s' & Hrun & Hlen & _).
  { intros i Hi%elem_of_seq. lia. }
  exists s'. split; [exact Hrun | exact Hlen].
Qed.

(** [ssf] returns, with a result as long as its input, on every series
    that has at least [poles] samples. *)
Lemma ssf_returns verify_series get_offset (close : Series) length_ poles offset :
  verify_series close = Some close ->
  (Z.to_nat (poles_arg poles) <= length close)%nat ->
  exists out,
    ssf verify_series get_offset close length_ poles offset = Ok out /\
    length (values out) = length close.
Proof.
  intros Hv Hm.
  assert (Hp : poles_arg poles = 2%Z \/ poles_arg poles = 3%Z).
  { unfold poles_arg. destruct poles as [p|]; [|now left].
    destruct (Z.eqb_spec p 2) as [->|]; [now left|].
    destruct (Z.eqb_spec p 3) as [->|]; [now right|]. now left. }
  assert (Hrun : exists s,
    (if (poles_arg poles =? 3)%Z
     then for_range (length close) (body3 (length_arg length_) close)
                    (zero_from (Z.to_nat (poles_arg poles)) close)
     else for_range (length close) (body2 (length_arg length_) close)
                    (zero_from (Z.to_nat (poles_arg poles)) close)) = Ok s).
  { set (s0 := zero_from (Z.to_nat (poles_arg poles)) close).
    assert (Hs0 : length s0 = length close) by apply zero_from_length.
    rewrite <- Hs0.
    destruct Hp as [Hp | Hp]; rewrite Hp in *; simpl.
    - destruct (for_range_ok (body2 (length_arg length_) close) s0)
        as (s' & -> & _); [|eauto].
      intros s' i Hl Hi. apply body2_ok; lia.
    - destruct (for_range_ok (body3 (length_arg length_) close) s0)
        as (s' & -> & _); [|eauto].
      intros s' i Hl Hi. apply body3_ok; lia. }
  destruct Hrun as [s Hrun].
  assert (Hout : exists out,
    ssf verify_series get_offset close length_ poles offset = Ok out).
  { unfold ssf. rewrite Hv. cbv zeta.
    destruct (if (poles_arg poles =? 3)%Z then _ else _) as [s'|e] eqn:E.
    - simpl. eauto.
    - discriminate Hrun. }
  destruct Hout as [out Hout]. exists out. split; [exact Hout|].
  now apply (ssf_length verify_series get_offset close length_ poles offset).
Qed.

(** *** The first output of the two-pole filter

    On a series of four samples or more the reads at index 0 fall in the
    part of the buffer that [ssf[poles:] = 0] has zeroed, and the first
    output is [c1 * close[0]] whatever the series. *)

Lemma nth_zero_from (k i : nat) (s : Series) :
  (k <= i)%nat -> nth i (zero_from k s) 0 = 0.
Proof.
  intros H. unfold zero_from.
  destruct (Nat.lt_ge_cases i (length (firstn k s ++ repeat 0 (length s - k))))
    as [Hlt | Hge]; [|now apply nth_overflow].
  rewrite app_nth2.
  - apply nth_repeat.
  - rewrite length_take. pose proof (Nat.le_min_l k (length s)). lia.
Qed.

Lemma first_turn (n : Z) (close : Series) (x0 : R) :
  (4 <= length close)%nat ->
  close !! 0%nat = Some x0 ->
  body2 n close (zero_from 2 close) 0
  = Ok (<[0%nat := c1_2 n * x0 + b1_2 n * 0 + a1_2 n * 0]> (zero_from 2 close)).
Proof.
  intros Hlen Hx0. unfold body2, iloc.
  pose proof (zero_from_length 2 close) as Hz.
  rewrite (iloc_pos_nonneg close 0) by lia.
  rewrite (iloc_pos_negative (zero_from 2 close) (0 - 1)) by lia.
  rewrite (iloc_pos_negative (zero_from 2 close) (0 - 2)) by lia.
  simpl.
  rewrite !nth_zero_from by lia.
  destruct close as [|c close]; [discriminate|]. injection Hx0 as ->.
  simpl nth.
  change 0%Z with (Z.of_nat 0). apply iloc_set_ok. rewrite Hz. simpl. lia.
Qed.

Lemma ssf_first_output_two_poles verify_series get_offset
    (close : Series) (length_ : option Z) (x0 : R) :
  verify_series close = Some close ->
  get_offset None = 0%Z ->
  (4 <= length close)%nat ->
  close !! 0%nat = Some x0 ->
  exists out,
    ssf verify_series get_offset close length_ (Some 2%Z) None = Ok out /\
    values out !! 0%nat
    = Some (Some (c1_2 (length_arg length_) * x0
                  + b1_2 (length_arg length_) * 0
                  + a1_2 (length_arg length_) * 0)).
Proof.
  intros Hv Hoff Hlen Hx0.
  set (n := length_arg length_).
  set (v := c1_2 n * x0 + b1_2 n * 0 + a1_2 n * 0).
  pose proof (zero_from_length 2 close) as Hz.
  destruct (fold_writes_own_index (body2 n close) (length close))
    with (l := seq 1 (length close - 1)) (s := <[0%nat := v]> (zero_from 2 close))
    as (s' & Hrun & Hlen' & Hkeep).
  { intros s i Hs Hi. apply body2_ok; lia. }
  { transitivity (length (zero_from 2 close)); [apply length_insert | exact Hz]. }
  { intros i Hi%elem_of_seq. lia. }
  assert (Hloop : for_range (length close) (body2 n close) (zero_from 2 close)
                  = Ok s').
  { unfold for_range.
    replace (seq 0 (length close)) with (0%nat :: seq 1 (length close - 1))
      by (destruct (length close); [lia | simpl; now rewrite Nat.sub_0_r]).
    change (fold_left (fun acc i => s ← acc; body2 n close s (Z.of_nat i))
                      (seq 1 (length close - 1))
                      (body2 n close (zero_from 2 close) 0) = Ok s').
    rewrite (first_turn n close x0 Hlen Hx0). exact Hrun. }
  assert (H0 : s' !! 0%nat = Some v).
  { rewrite Hkeep by (intros Hin%elem_of_seq; lia).
    apply list_lookup_insert_eq. rewrite Hz. lia. }
  exists {| values := map Some s'; name := ssf_name n 2; category := "overlap" |}.
  split.
  - unfold ssf. rewrite Hv, Hoff. cbv zeta.
    change (poles_arg (Some 2%Z)) with 2%Z. simpl Z.eqb. cbv iota.
    change (Z.to_nat 2) with 2%nat. fold n.
    destruct (for_range (length close) (body2 n close) (zero_from 2 close))
      as [s1|e] eqn:E; [|discriminate Hloop].
    injection Hloop as ->. reflexivity.
  - simpl. rewrite list_lookup_fmap, H0. reflexivity.
Qed.

Ltac run_ssf Hv Hoff :=
  unfold ssf; rewrite Hv, ?Hoff;
  cbv -[c1_2 b1_2 a1_2 Rmult Rplus IZR].

(** C2 (fails on the code).  The loop of [ssf] starts at index 0 and not at
    index [poles], so it writes over the seed rows that
    [ssf = close.copy(); ssf[poles:] = 0] has just set up.  On the
    constant series [1, 1, 1, 1] with the default period and two poles the
    result has the size of the input, but its first sample is the
    coefficient [c1], which is below 1, not the first input sample 1. *)
Theorem ssf_overwrites_seed :
  forall (verify_series : Series -> option Series) (get_offset : option Z -> Z),
    verify_series [1; 1; 1; 1] = Some [1; 1; 1; 1] ->
    get_offset None = 0%Z ->
    exists out v,
      ssf verify_series get_offset [1; 1; 1; 1] None (Some 2%Z) None = Ok out /\
      length (values out) = 4%nat /\
      values out !! 0%nat = Some (Some v) /\
      v = c1_2 10 /\ v < 1.
Proof.
  intros verify_series get_offset Hv Hoff.
  eexists _, (c1_2 10 * 1 + b1_2 10 * 0 + a1_2 10 * 0).
  split; [run_ssf Hv Hoff; reflexivity|].
  split; [reflexivity|]. split; [reflexivity|].
  assert (E : c1_2 10 * 1 + b1_2 10 * 0 + a1_2 10 * 0 = c1_2 10) by ring.
  split; [exact E|]. rewrite E. apply c1_2_10_lt_1.
Qed.

Lemma ssf_overwrites_seed_witness :
  exists out v,
    ssf (fun s => Some s) (fun o => default 0%Z o) [1; 1; 1; 1]
        None (Some 2%Z) None = Ok out /\
    length (values out) = 4%nat /\
    values out !! 0%nat = Some (Some v) /\
    v = c1_2 10 /\ v < 1.
Proof.
  apply (ssf_overwrites_seed (fun s => Some s) (fun o => default 0%Z o));
    reflexivity.
Defined.

(** C3 (fails on the code).  At index 0 the loop reads [ssf.iloc[-1]] and
    [ssf.iloc[-2]], which pandas takes from the end of the series.  On a
    series of three samples [ssf.iloc[-2]] is the sample at index 1: the
    inputs [0, 1, 0] and [0, 0, 0] start with the same sample and no output
    precedes index 0, yet the first outputs differ, the one being
    [a1 * 1], the other 0. *)
Theorem ssf_first_output_reads_the_tail :
  forall (verify_series : Series -> option Series) (get_offset : option Z -> Z),
    verify_series [0; 1; 0] = Some [0; 1; 0] ->
    verify_series [0; 0; 0] = Some [0; 0; 0] ->
    get_offset None = 0%Z ->
    exists out out' v v',
      ssf verify_series get_offset [0; 1; 0] None (Some 2%Z) None = Ok out /\
      ssf verify_series get_offset [0; 0; 0] None (Some 2%Z) None = Ok out' /\
      values out !! 0%nat = Some (Some v) /\
      values out' !! 0%nat = Some (Some v') /\
      v = a1_2 10 /\ v' = 0 /\ v <> v'.
Proof.
  intros verify_series get_offset Hv Hv' Hoff.
  eexists _, _, (c1_2 10 * 0 + b1_2 10 * 0 + a1_2 10 * 1),
                (c1_2 10 * 0 + b1_2 10 * 0 + a1_2 10 * 0).
  split; [run_ssf Hv Hoff; reflexivity|].
  split; [run_ssf Hv' Hoff; reflexivity|].
  split; [reflexivity|]. split; [reflexivity|].
  pose proof (a1_2_neg 10).
  repeat split; [ring | ring | lra].
Qed.

Lemma ssf_first_output_reads_the_tail_witness :
  exists out out' v v',
    ssf (fun s => Some s) (fun o => default 0%Z o) [0; 1; 0]
        None (Some 2%Z) None = Ok out /\
    ssf (fun s => Some s) (fun o => default 0%Z o) [0; 0; 0]
        None (Some 2%Z) None = Ok out' /\
    values out !! 0%nat = Some (Some v) /\
    values out' !! 0%nat = Some (Some v') /\
    v = a1_2 10 /\ v' = 0 /\ v <> v'.
Proof.
  apply (ssf_first_output_reads_the_tail
           (fun s => Some s) (fun o => default 0%Z o));
    reflexivity.
Defined.

End SSFFacts.

(** ** The Volume Weighted Average Price *)

Module VWAPFacts.
Import TimeSeries VWAP.
Local Open Scope Qc_scope.

Lemma zip_with_column {C} (h : Qc -> Qc -> C) (f g : Bar -> Qc) (bars : list Bar) :
  zip_with h (column f bars) (column g bars)
  = map (fun b => (bar_time b, h (f b) (g b))) bars.
Proof.
  unfold zip_with, column.
  induction bars as [|b bars IH]; [reflexivity|].
  simpl. now rewrite IH.
Qed.

Lemma zip_with_imap {A B C} (h : A -> B -> C)
    (F : nat -> Bar -> A) (G : nat -> Bar -> B) (bars : list Bar) :
  zip_with h (imap (fun i b => (bar_time b, F i b)) bars)
             (imap (fun i b => (bar_time b, G i b)) bars)
  = imap (fun i b => (bar_time b, h (F i b) (G i b))) bars.
Proof.
  unfold zip_with.
  revert F G. induction bars as [|b bars IH]; intros F G; [reflexivity|].
  simpl. f_equal. apply (IH (fun i => F (S i)) (fun i => G (S i))).
Qed.

Lemma hlc3_column (bars : list Bar) :
  hlc3 (column bar_high bars) (column bar_low bars) (column bar_close bars)
  = column typical_price bars.
Proof.
  unfold hlc3, sadd.
  rewrite (zip_with_column Qcplus bar_high bar_low).
  change (map (fun b => (bar_time b, bar_high b + bar_low b)) bars)
    with (column (fun b => bar_high b + bar_low b) bars).
  rewrite (zip_with_column Qcplus _ bar_close).
  unfold column. rewrite map_map. reflexivity.
Qed.

Lemma weighted_price_column (bars : list Bar) :
  smul (column typical_price bars) (column bar_volume bars)
  = column (fun b => typical_price b * bar_volume b) bars.
Proof. unfold smul. apply zip_with_column. Qed.

(** The running totals of [group_cumsum] are the sums over the rows of the
    group seen so far, on top of what the accumulator held at the start. *)
Lemma group_cumsum_column (f : Bar -> Qc) (bars : list Bar) (acc : gmap Z Qc) :
  group_cumsum to_period_d acc (column f bars)
  = imap (fun i b =>
            (bar_time b,
             default 0 (acc !! to_period_d (bar_time b))
             + total f (day_so_far bars i b)))
         bars.
Proof.
  revert acc. induction bars as [|b bars IH]; intros acc; [reflexivity|].
  simpl. f_equal.
  - f_equal. unfold day_so_far. simpl. rewrite take_0.
    rewrite filter_cons_True by reflexivity. simpl. ring.
  - rewrite IH. apply imap_ext. intros i b' _. simpl. f_equal.
    unfold day_so_far.
    change (take (S (S i)) (b :: bars)) with (b :: take (S i) bars).
    destruct (decide (to_period_d (bar_time b) = to_period_d (bar_time b')))
      as [Heq | Hne].
    + rewrite filter_cons_True by exact Heq.
      rewrite <- Heq, lookup_insert_eq. simpl. ring.
    + rewrite filter_cons_False by exact Hne.
      rewrite lookup_insert_ne by exact Hne. reflexivity.
Qed.

Lemma groupby_cumsum_column (f : Bar -> Qc) (bars : list Bar) :
  groupby_cumsum to_period_d (column f bars)
  = imap (fun i b => (bar_time b, total f (day_so_far bars i b))) bars.
Proof.
  unfold groupby_cumsum. rewrite group_cumsum_column.
  apply imap_ext. intros i b _. simpl. rewrite lookup_empty. simpl.
  f_equal. ring.
Qed.

(** C4.  For four series on one index, the columns of a list of bars,
    [vwap] gives at every row the sum of [(high + low + close) / 3 * volume]
    over the rows of that row's calendar day up to that row, divided by the
    sum of [volume] over the same rows; rows of other days do not enter
    the sums. *)
Theorem vwap_is_ratio_of_daily_prefix_sums :
  forall (verify_series : Series -> option Series)
         (get_offset : option Z -> Z)
         (is_datetime_ordered : Series -> bool)
         (bars : list Bar) (offset : option Z),
    (forall f, verify_series (column f bars) = Some (column f bars)) ->
    get_offset offset = 0%Z ->
    exists printed,
      vwap verify_series get_offset is_datetime_ordered
           (column bar_high bars) (column bar_low bars)
           (column bar_close bars) (column bar_volume bars) offset
      = (Ok {| data := imap (fun i b => (bar_time b, vwap_of_day bars i b)) bars;
               name := "VWAP";
               category := "overlap" |},
         printed).
Proof.
  intros verify_series get_offset ordered bars offset Hv Hoff.
  unfold vwap, verified. rewrite !Hv. simpl. rewrite Hoff. simpl.
  eexists. f_equal. f_equal.
  rewrite hlc3_column, weighted_price_column, !groupby_cumsum_column.
  unfold sdiv. rewrite zip_with_imap. reflexivity.
Qed.

Lemma vwap_is_ratio_of_daily_prefix_sums_witness :
  exists printed,
    vwap (fun s => Some s) (fun o => default 0%Z o) (fun _ => true)
         (column bar_high sample_bars) (column bar_low sample_bars)
         (column bar_close sample_bars) (column bar_volume sample_bars) None
    = (Ok {| data := imap (fun i b => (bar_time b, vwap_of_day sample_bars i b))
                          sample_bars;
             name := "VWAP";
             category := "overlap" |},
       printed).
Proof.
  apply (vwap_is_ratio_of_daily_prefix_sums
           (fun s => Some s) (fun o => default 0%Z o) (fun _ => true)
           sample_bars None); reflexivity.
Defined.

(** On the sample the second day starts afresh: 2, then 17/4, then 9. *)
Example vwap_sample :
  fst (vwap (fun s => Some s) (fun o => default 0%Z o) (fun _ => true)
            (column bar_high sample_bars) (column bar_low sample_bars)
            (column bar_close sample_bars) (column bar_volume sample_bars) None)
  = Ok {| data := [ (0%Z, Some (Q2Qc 2));
                    (3600000000000%Z, Some (Q2Qc (17 # 4)));
                    (86400000000000%Z, Some (Q2Qc 9)) ];
          name := "VWAP";
          category := "overlap" |}.
Proof. compute_done. Qed.

End VWAPFacts.

(** ** The Volume Profile *)

Module VPFacts.
Import VP.
Local Open Scope Qc_scope.

(** *** Signs and directions *)

Lemma sign_direction (prev c : Qc) :
  sign 1 (c - prev) = sign_of (direction prev c).
Proof.
  unfold sign, direction.
  assert (H1 : 0 < c - prev <-> prev < c).
  { rewrite (Qcplus_lt_mono_r 0 (c - prev) prev).
    replace (c - prev + prev) with c by ring.
    replace (0 + prev) with prev by ring. reflexivity. }
  assert (H2 : c - prev < 0 <-> c < prev).
  { rewrite (Qcplus_lt_mono_r (c - prev) 0 prev).
    replace (c - prev + prev) with c by ring.
    replace (0 + prev) with prev by ring. reflexivity. }
  repeat case_decide; try reflexivity; tauto.
Qed.

Lemma diff_sign_directions (prev : Qc) (close : Series) :
  diff_sign 1 prev close = map sign_of (directions_from prev close).
Proof.
  revert prev. induction close as [|c close IH]; intros prev; [reflexivity|].
  simpl. now rewrite sign_direction, IH.
Qed.

Lemma signed_series_directions (close : Series) :
  signed_series close 1 = map sign_of (directions close).
Proof.
  destruct close as [|c close]; [reflexivity|].
  simpl. now rewrite diff_sign_directions.
Qed.

Lemma directions_from_length (prev : Qc) (close : Series) :
  length (directions_from prev close) = length close.
Proof.
  revert prev. induction close as [|c close IH]; intros prev; simpl; auto.
Qed.

Lemma directions_length (close : Series) :
  length (directions close) = length close.
Proof.
  destruct close; simpl; [reflexivity|]. now rewrite directions_from_length.
Qed.

(** *** The frame, row by row *)

Lemma frame_rows (close volume : Series) (dirs : list Direction) :
  concat3 close
    (masked_mul (fun s => bool_decide (0 < s)) (map sign_of dirs) volume)
    (masked_mul (fun s => bool_decide (s < 0)) (map sign_of dirs)
                (map Qcopp volume))
  = map row_of (combine close (combine dirs volume)).
Proof.
  unfold concat3, masked_mul.
  revert dirs volume.
  induction close as [|c close IH]; intros dirs volume; [reflexivity|].
  destruct dirs as [|d dirs]; [reflexivity|].
  destruct volume as [|v volume]; [reflexivity|].
  simpl. rewrite IH. f_equal.
  destruct d; simpl; f_equal; try reflexivity; f_equal; ring.
Qed.

(** *** [array_split] *)

Lemma section_sizes_length (total sections : nat) :
  (0 < sections)%nat -> length (section_sizes total sections) = sections.
Proof.
  intros H. unfold section_sizes.
  rewrite length_app, !length_replicate.
  pose proof (Nat.mod_upper_bound total sections). lia.
Qed.

Lemma section_sizes_sum (total sections : nat) :
  (0 < sections)%nat -> sum_list (section_sizes total sections) = total.
Proof.
  intros H. unfold section_sizes.
  rewrite sum_list_with_app, !sum_list_replicate.
  pose proof (Nat.mod_upper_bound total sections).
  pose proof (Nat.div_mod_eq total sections). nia.
Qed.


Lemma array_split_length {A} (l : list A) (sections : nat) :
  (0 < sections)%nat -> length (array_split l sections) = sections.
Proof.
  intros H. unfold array_split.
  now rewrite length_reshape, section_sizes_length.
Qed.




(** *** The volumes of a bucket *)












(** *** What [vp] puts in the volumes of its buckets *)


Lemma width_arg_pos (width : option Z) : (0 < Z.to_nat (width_arg width))%nat.
Proof.
  unfold width_arg. destruct width as [w|]; [|lia].
  destruct (w =? 0)%Z; [lia|].
  destruct (Z.ltb_spec 0 w); lia.
Qed.




(** On the sample the rows 1 and 4 are flat and count on the positive
    side: the buckets hold 1 + 2 + 3 and 5 + 6 against 4. *)
Example vp_sample :
  (fun frame => map bucket_volumes (rows frame))
    <$> vp verify_any cut_unused sample_close sample_volume (Some 2%Z) no_kwargs
  = Some [ (Q2Qc 6, Q2Qc 0, Q2Qc 6); (Q2Qc 11, Q2Qc 4, Q2Qc 15) ].
Proof. compute_done. Qed.






(** With closes [1, 1], volumes [5, 7] and one bucket the total is the
    volume 12 of the input. *)
Example vp_flat_rows :
  (fun frame => (length (rows frame),
                 sum_series (map total_volume (rows frame))))
    <$> vp verify_any cut_unused [Q2Qc 1; Q2Qc 1] [Q2Qc 5; Q2Qc 7]
           (Some 1%Z) no_kwargs
  = Some (1%nat, Q2Qc 12).
Proof. compute_done. Qed.

End VPFacts.

(** ** The accessor *)

Module CoreFacts.
Import Core.
Local Open Scope string_scope.

(** *** Column resolution *)

(** The positions of the columns that match, counted from [start]. *)
Lemma positions_none (matches : list bool) (f : nat -> bool -> nat * bool) :
  (forall i b, snd (f i b) = b) ->
  (forall i, matches !! i <> Some true) ->
  filter (fun p => snd p = true) (imap f matches) = [].
Proof.
  revert f. induction matches as [|b matches IH]; intros f Hf H; [reflexivity|].
  simpl. rewrite filter_cons_False.
  - apply IH; [intros i b'; apply Hf | intros i; apply (H (S i))].
  - rewrite Hf. intros ->. now apply (H 0%nat).
Qed.

Lemma positions_first (matches : list bool) (f : nat -> bool -> nat * bool) (i : nat) :
  (forall i b, snd (f i b) = b) ->
  matches !! i = Some true ->
  (forall j, (j < i)%nat -> matches !! j <> Some true) ->
  exists rest,
    filter (fun p => snd p = true) (imap f matches) = f i true :: rest.
Proof.
  revert f i. induction matches as [|b matches IH]; intros f i Hf Hi Hfirst.
  - discriminate Hi.
  - simpl. destruct i as [|i].
    + injection Hi as ->. rewrite filter_cons_True by apply Hf. eauto.
    + rewrite filter_cons_False.
      * apply (IH (fun k => f (S k)) i); [intros k b'; apply Hf | exact Hi |].
        intros j Hj. apply (Hfirst (S j)). lia.
      * rewrite Hf. intros ->. apply (Hfirst 0%nat); [lia | reflexivity].
Qed.

Lemma true_positions_none (matches : list bool) :
  (forall i, matches !! i <> Some true) -> true_positions matches = [].
Proof.
  intros H. unfold true_positions. now rewrite positions_none.
Qed.

Lemma true_positions_first (matches : list bool) (i : nat) :
  matches !! i = Some true ->
  (forall j, (j < i)%nat -> matches !! j <> Some true) ->
  exists rest, true_positions matches = i :: rest.
Proof.
  intros Hi Hfirst. unfold true_positions.
  destruct (positions_first matches pair i) as [rest ->]; auto.
  simpl. eauto.
Qed.

Lemma iloc_col_lookup (df : DataFrame) (i : nat) (name : string) (col : list Cell) :
  df_columns df !! i = Some (name, col) ->
  iloc_col df i = Ok (mkSeries name (df_index df) col).
Proof. intros H. unfold iloc_col. now rewrite H. Qed.

(** C6 (amended).  For a name that is no column of the frame,
    [_get_column] matches the name against all the column names and
    - when some column matches, returns the first column that does, in
      the order of the frame, also when several match;
    - when no column matches, prints one line that names the candidate and
      the columns of the frame, and returns [None];
    - when the matching itself raises, raises.
    No exception is raised for a name that was not found. *)
Theorem get_column_takes_first_match :
  forall (str_match : string -> list string -> result (list bool))
         (df : DataFrame) (st : State) (series default : string),
    _df st = Some df ->
    series ∉ columns df ->
    (forall matches, str_match series (columns df) = Ok matches ->
                     length matches = length (columns df)) ->
    (forall matches i,
        str_match series (columns df) = Ok matches ->
        matches !! i = Some true ->
        (forall j, (j < i)%nat -> matches !! j <> Some true) ->
        exists name col,
          df_columns df !! i = Some (name, col) /\
          _get_column str_match (PyStr series) (Some default) st
          = (Ok (Some (mkSeries name (df_index df) col)), st)) /\
    (forall matches,
        str_match series (columns df) = Ok matches ->
        (forall i, matches !! i <> Some true) ->
        _get_column str_match (PyStr series) (Some default) st
        = (Ok None,
           mkState (_df st) (printed st ++ [not_found series df])%list)) /\
    (forall e,
        str_match series (columns df) = Raise e ->
        _get_column str_match (PyStr series) (Some default) st = (Raise e, st)).
Proof.
  intros str_match df st series default Hdf Hnew Hlen.
  assert (Hrun : forall k : M (option Series),
    (matches ← lift (str_match series (columns df));
     match true_positions matches with
     | i :: _ => s ← lift (iloc_col df i); mret (Some s)
     | [] => _ ← print (not_found series df); mret None
     end) st = k st ->
    _get_column str_match (PyStr series) (Some default) st = k st).
  { intros k <-. unfold _get_column.
    unfold mbind at 1, M_bind, get_df. rewrite Hdf.
    now rewrite bool_decide_eq_false_2 by exact Hnew. }
  repeat split.
  - intros matches i Hm Hi Hfirst.
    destruct (true_positions_first matches i Hi Hfirst) as [rest Hpos].
    assert (Hlt : (i < length (df_columns df))%nat).
    { apply lookup_lt_Some in Hi. rewrite (Hlen matches Hm) in Hi.
      unfold columns in Hi. now rewrite length_map in Hi. }
    destruct (lookup_lt_is_Some_2 _ _ Hlt) as [[name col] Hcol].
    exists name, col. split; [exact Hcol|].
    apply (Hrun (fun st => (Ok (Some (mkSeries name (df_index df) col)), st))).
    unfold mbind, M_bind, lift. rewrite Hm, Hpos.
    now rewrite (iloc_col_lookup df i name col Hcol).
  - intros matches Hm Hnone.
    apply (Hrun (fun st =>
      (Ok None, mkState (_df st) (printed st ++ [not_found series df])%list))).
    unfold mbind, M_bind, lift. rewrite Hm.
    now rewrite (true_positions_none matches Hnone).
  - intros e He.
    apply (Hrun (fun st => (Raise e, st))).
    unfold mbind, M_bind, lift. now rewrite He.
Qed.

(** C6, as stated, fails: the request [close] matches two columns of the
    sample frame, [Close] and [Close_adj], and the call returns the first
    of them and prints nothing. *)
Lemma ambiguous_match_returns_first_column :
  literal_match "close" (columns sample_df)
  = Ok [false; false; false; true; true] /\
  _get_column literal_match (PyStr "close") (Some "close") sample_state
  = (Ok (Some (mkSeries "Close" (df_index sample_df) (sample_column 11 12))),
     sample_state).
Proof. split; reflexivity. Qed.

Lemma get_column_takes_first_match_witness :
  exists name col,
    df_columns sample_df !! 3%nat = Some (name, col) /\
    _get_column literal_match (PyStr "close") (Some "close") sample_state
    = (Ok (Some (mkSeries name (df_index sample_df) col)), sample_state).
Proof.
  assert (H1 : _df sample_state = Some sample_df) by reflexivity.
  assert (H2 : "close" ∉ columns sample_df) by compute_done.
  assert (H3 : forall matches,
             literal_match "close" (columns sample_df) = Ok matches ->
             length matches = length (columns sample_df)).
  { intros matches [= <-]. reflexivity. }
  destruct (get_column_takes_first_match
              literal_match sample_df sample_state "close" "close" H1 H2 H3)
    as (Hfirst & _ & _).
  apply (Hfirst [false; false; false; true; true] 3%nat);
    [reflexivity | reflexivity |].
  intros j Hj. destruct j as [|[|[|j]]]; [discriminate.. | lia].
Defined.

(** The request of a column that is absent under any spelling. *)
Example volume_is_not_found :
  _get_column literal_match (PyStr "Volume") (Some "volume") sample_state
  = (Ok None,
     mkState (Some sample_df)
       ["[X] Ooops!!!: It's True, the series 'Volume' not in Open, High, Low, Close, Close_adj"]).
Proof. reflexivity. Qed.

(** *** Appending *)














(** *** What [df[name] = s] stores *)









(** *** A run of assignments *)



(** *** [_append] *)







(** Appending [SMA_2] twice to the sample frame: a sixth column, once. *)
Example append_twice :
  (s ← _append (Some (VSeries (sample_result 7 8))) sample_kwargs;
   _append (Some (VSeries (sample_result 1 2))) sample_kwargs) sample_state
  = (Ok tt,
     mkState
       (Some {| df_index := df_index sample_df;
                df_columns := (df_columns sample_df
                               ++ [("SMA_2", sample_column 1 2)])%list |})
       []).
Proof. reflexivity. Qed.

(** A series with the labels of the frame is copied row by row, also when
    a label comes twice; with other labels, one of them twice, pandas
    refuses the assignment and the frame stays as it was. *)
Example append_on_repeated_labels :
  let df := {| df_index := [0%Z; 0%Z];
               df_columns := [("close", sample_column 1 2)] |} in
  let st := mkState (Some df) [] in
  _append (Some (VSeries (mkSeries "SMA_2" [0%Z; 0%Z] (sample_column 7 8))))
          sample_kwargs st
  = (Ok tt,
     mkState (Some {| df_index := [0%Z; 0%Z];
                      df_columns := [("close", sample_column 1 2);
                                     ("SMA_2", sample_column 7 8)] |}) [])
  /\ _append (Some (VSeries (mkSeries "SMA_2" [1%Z; 1%Z] (sample_column 7 8))))
             sample_kwargs st
     = (Raise duplicate_labels, st).
Proof. split; reflexivity. Qed.

(** *** Dispatch *)

Section DispatchFacts.
Variable str_match : string -> list string -> result (list bool).
Variable indicator : string -> list (option Series) -> kwargs
                     -> result (option Value).
Variable helper : string -> kwargs -> M (option Value).
Variable elapsed : string.

(** The class defines no method [help]: looking it up raises. *)
Lemma help_raises (st : State) :
  help str_match indicator helper st = (Raise (AttributeError "help"), st).
Proof. reflexivity. Qed.

(** Whatever the [try] block raised, the handler raises in its turn. *)
Lemma handler_raises (kind alias : pyval) (timed : bool) (kw : kwargs)
    (st st' : State) (e : exn) :
  call_body str_match indicator helper elapsed kind alias timed kw st
  = (Raise e, st') ->
  __call__ str_match indicator helper elapsed kind alias timed kw st
  = (Raise (AttributeError "help"), st').
Proof.
  intros H. unfold __call__, try_except. rewrite H. reflexivity.
Qed.

(** A first argument that is no string leads to [help] at once. *)
Lemma not_a_name_raises (kind alias : pyval) (timed : bool) (kw : kwargs)
    (st : State) :
  (forall name, kind <> PyStr name) ->
  __call__ str_match indicator helper elapsed kind alias timed kw st
  = (Raise (AttributeError "help"), st).
Proof.
  intros H. apply handler_raises with (e := AttributeError "help").
  destruct kind; try reflexivity. now destruct (H s).
Qed.

End DispatchFacts.

(** C7 (fails on the code).  The bare [except] does catch what the
    invocation raises, but its handler calls [self.help()], and the class
    has no method [help]: the [AttributeError] of that lookup is what the
    caller gets, and no listing is shown.  So it goes for [df.ta(kind="sma")]
    on a frame whose columns are capitalised, where resolving the default
    column [close] raises a [KeyError]. *)
Theorem failed_invocation_raises_to_caller :
  forall (str_match : string -> list string -> result (list bool))
         (indicator : string -> list (option Series) -> kwargs
                      -> result (option Value))
         (helper : string -> kwargs -> M (option Value))
         (elapsed : string),
    (forall kind alias timed kw st e st',
        call_body str_match indicator helper elapsed kind alias timed kw st
        = (Raise e, st') ->
        __call__ str_match indicator helper elapsed kind alias timed kw st
        = (Raise (AttributeError "help"), st')) /\
    (forall alias timed,
        call_body str_match indicator helper elapsed
                  (PyStr "sma") alias timed ∅ sample_state
        = (Raise (KeyError "close"), sample_state) /\
        __call__ str_match indicator helper elapsed
                 (PyStr "sma") alias timed ∅ sample_state
        = (Raise (AttributeError "help"), sample_state)).
Proof.
  intros str_match indicator helper elapsed. split.
  - intros kind alias timed kw st e st' H. now apply handler_raises with e.
  - intros alias timed.
    assert (H : call_body str_match indicator helper elapsed
                          (PyStr "sma") alias timed ∅ sample_state
                = (Raise (KeyError "close"), sample_state)) by reflexivity.
    split; [exact H|]. now apply handler_raises with (KeyError "close").
Qed.

Lemma failed_invocation_raises_to_caller_witness :
  call_body literal_match no_indicator no_helper "0.012 ms (0.000 s)"
            (PyStr "SMA") PyNone true ∅ sample_state
  = (Raise (KeyError "close"), sample_state) /\
  __call__ literal_match no_indicator no_helper "0.012 ms (0.000 s)"
           (PyStr "SMA") PyNone true ∅ sample_state
  = (Raise (AttributeError "help"), sample_state).
Proof.
  split; [reflexivity|].
  apply (proj1 (failed_invocation_raises_to_caller
                  literal_match no_indicator no_helper "0.012 ms (0.000 s)")
               (PyStr "SMA") PyNone true ∅ sample_state
               (KeyError "close") sample_state).
  reflexivity.
Defined.

End CoreFacts.

(** ** The combinatorial helpers *)

Module MathFacts.
Import Math.

(** *** Products over ranges *)

Lemma foldl_mul (a : Z) (xs : list Z) :
  foldl Z.mul a xs = (a * reduce_mul xs)%Z.
Proof.
  unfold reduce_mul. revert a.
  induction xs as [|x xs IH]; intros a; simpl; [lia|].
  rewrite (IH (a * x)%Z), (IH (1 * x)%Z). lia.
Qed.

Lemma reduce_mul_cons (x : Z) (xs : list Z) :
  reduce_mul (x :: xs) = (x * reduce_mul xs)%Z.
Proof. unfold reduce_mul at 1. simpl. rewrite foldl_mul. lia. Qed.

Lemma reduce_mul_snoc (x : Z) (xs : list Z) :
  reduce_mul (xs ++ [x]) = (reduce_mul xs * x)%Z.
Proof. unfold reduce_mul. now rewrite foldl_app. Qed.

Lemma range_down_step (r d : nat) :
  range_down (Z.of_nat (r + S d)) (Z.of_nat r)
  = Z.of_nat (r + S d) :: range_down (Z.of_nat (r + d)) (Z.of_nat r).
Proof.
  unfold range_down.
  replace (Z.to_nat (Z.of_nat (r + S d) - Z.of_nat r)) with (S d) by lia.
  replace (Z.to_nat (Z.of_nat (r + d) - Z.of_nat r)) with d by lia.
  simpl seq. rewrite <- seq_shift, map_cons, map_map. f_equal; [lia|].
  apply map_ext. intros k. lia.
Qed.

(** [n * (n - 1) * ... * (r + 1)], times [r!], is [n!]. *)
Lemma falling_product (r d : nat) :
  (reduce_mul (range_down (Z.of_nat (r + d)) (Z.of_nat r)) * Z.of_nat (fact r))%Z
  = Z.of_nat (fact (r + d)).
Proof.
  induction d as [|d IH].
  - unfold range_down. rewrite Nat.add_0_r, Z.sub_diag.
    change (reduce_mul (map _ (seq 0 (Z.to_nat 0)))) with 1%Z. lia.
  - rewrite range_down_step, reduce_mul_cons, <- Z.mul_assoc, IH.
    replace (r + S d)%nat with (S (r + d)) by lia.
    rewrite (Nat2Z.inj_mul (S (r + d)) (fact (r + d)) : Z.of_nat (fact (S (r + d))) = _).
    reflexivity.
Qed.

Lemma rising_product (k : nat) :
  reduce_mul (range_up 1 (Z.of_nat k + 1)) = Z.of_nat (fact k).
Proof.
  unfold range_up.
  replace (Z.to_nat (Z.of_nat k + 1 - 1)) with k by lia.
  induction k as [|k IH]; [reflexivity|].
  rewrite seq_S, map_app. cbn [map Nat.add].
  rewrite reduce_mul_snoc, IH.
  change (fact (S k)) with (S k * fact k)%nat. lia.
Qed.

(** *** Pascal's rule and factorials *)

Lemma binomial_gt (n k : nat) : (n < k)%nat -> binomial n k = 0%nat.
Proof.
  revert k. induction n as [|n IH]; intros k H.
  - destruct k; [lia | reflexivity].
  - destruct k as [|k]; [lia|]. simpl. rewrite !IH by lia. reflexivity.
Qed.

Lemma binomial_diag (n : nat) : binomial n n = 1%nat.
Proof.
  induction n as [|n IH]; [reflexivity|].
  simpl. rewrite IH, binomial_gt by lia. reflexivity.
Qed.

Lemma binomial_fact (n k : nat) :
  (k <= n)%nat ->
  (binomial n k * (fact k * fact (n - k)))%nat = fact n.
Proof.
  revert k. induction n as [|n IH]; intros k H.
  - replace k with 0%nat by lia. reflexivity.
  - destruct k as [|k].
    + simpl binomial. rewrite Nat.sub_0_r. change (fact 0) with 1%nat. lia.
    + change (binomial (S n) (S k)) with (binomial n k + binomial n (S k))%nat.
      replace (S n - S k)%nat with (n - k)%nat by lia.
      pose proof (IH k ltac:(lia)) as Hk.
      destruct (Nat.eq_dec k n) as [-> | Hne].
      * rewrite (binomial_gt n (S n)) by lia. rewrite Nat.sub_diag in *.
        change (fact (S n)) with (S n * fact n)%nat.
        change (fact 0) with 1%nat in *. nia.
      * pose proof (IH (S k) ltac:(lia)) as HSk.
        replace (n - k)%nat with (S (n - S k)) in * by lia.
        change (fact (S n)) with (S n * fact n)%nat.
        change (fact (S k)) with (S k * fact k)%nat in *.
        change (fact (S (n - S k))) with (S (n - S k) * fact (n - S k))%nat in *.
        nia.
Qed.

Lemma binomial_sym (n k : nat) :
  (k <= n)%nat -> binomial n (n - k) = binomial n k.
Proof.
  intros H.
  pose proof (binomial_fact n k H) as H1.
  pose proof (binomial_fact n (n - k) ltac:(lia)) as H2.
  replace (n - (n - k))%nat with k in H2 by lia.
  pose proof (lt_O_fact k). pose proof (lt_O_fact (n - k)).
  apply Nat.mul_cancel_r with (fact k * fact (n - k))%nat; [nia|].
  rewrite H1, <- H2. lia.
Qed.

(** *** [combination] *)

Lemma combination_nat (n r : nat) :
  (r <= n)%nat ->
  combination (Z.of_nat n) (Z.of_nat r) false false = Z.of_nat (binomial n r).
Proof.
  intros H. unfold combination. simpl orb. cbv zeta.
  rewrite !Z.abs_eq by lia.
  rewrite Z.min_r by lia.
  destruct (Z.eqb_spec (Z.of_nat n - Z.of_nat r) 0) as [E | E].
  - replace r with n by lia. now rewrite binomial_diag.
  - replace (Z.of_nat n - (Z.of_nat n - Z.of_nat r))%Z with (Z.of_nat r) by lia.
    replace (Z.of_nat n - Z.of_nat r + 1)%Z with (Z.of_nat (n - r) + 1)%Z by lia.
    rewrite rising_product.
    pose proof (falling_product r (n - r)) as Hf.
    replace (r + (n - r))%nat with n in Hf by lia.
    pose proof (binomial_fact n r H) as Hb.
    pose proof (lt_O_fact r) as Hr. pose proof (lt_O_fact (n - r)) as Hnr.
    assert (Hnum : reduce_mul (range_down (Z.of_nat n) (Z.of_nat r))
                   = (Z.of_nat (binomial n r) * Z.of_nat (fact (n - r)))%Z).
    { apply Z.mul_cancel_r with (Z.of_nat (fact r)); [lia|].
      rewrite Hf, <- Hb. lia. }
    rewrite Hnum. apply Z.div_mul. lia.
Qed.

(** X1.  For integers with [|r| <= |n| <= 2^53], which the conversion
    through a float leaves as they are, [combination] is the binomial
    coefficient of [|n|] and [|r|]: the entry of Pascal's triangle, which
    times [|r|! (|n| - |r|)!] gives [|n|!]. *)
Theorem combination_is_binomial :
  forall n r : Z,
    (Z.abs r <= Z.abs n)%Z ->
    (Z.abs n <= float_exact)%Z ->
    combination n r false false
    = Z.of_nat (binomial (Z.abs_nat n) (Z.abs_nat r)) /\
    (combination n r false false
     * Z.of_nat (fact (Z.abs_nat r) * fact (Z.abs_nat n - Z.abs_nat r)))%Z
    = Z.of_nat (fact (Z.abs_nat n)).
Proof.
  intros n r H _.
  assert (E : combination n r false false
              = Z.of_nat (binomial (Z.abs_nat n) (Z.abs_nat r))).
  { rewrite <- (combination_nat (Z.abs_nat n) (Z.abs_nat r)) by lia.
    unfold combination. rewrite !Zabs2Nat.id_abs, !Z.abs_idemp.
    reflexivity. }
  split; [exact E|].
  rewrite E, <- Nat2Z.inj_mul. f_equal. apply binomial_fact. lia.
Qed.

Lemma combination_is_binomial_witness :
  combination (-5) 2 false false = 10%Z /\
  (combination (-5) 2 false false * Z.of_nat (fact 2 * fact (5 - 2)))%Z
  = Z.of_nat (fact 5).
Proof.
  apply (combination_is_binomial (-5) 2); [simpl; lia | discriminate].
Defined.

(** X2.  Choosing [r] of [n] or leaving [r] of [n] out comes to the same
    count, for [n <= 2^53]. *)
Theorem combination_symmetric :
  forall n r : Z,
    (0 <= r <= n)%Z ->
    (n <= float_exact)%Z ->
    combination n (n - r) false false = combination n r false false.
Proof.
  intros n r H _.
  rewrite <- (Z2Nat.id n), <- (Z2Nat.id r) by lia.
  rewrite <- Nat2Z.inj_sub by lia.
  rewrite !combination_nat by lia.
  f_equal. apply binomial_sym. lia.
Qed.

Lemma combination_symmetric_witness :
  combination 7 (7 - 2) false false = combination 7 2 false false.
Proof. apply (combination_symmetric 7 2); [lia | discriminate]. Defined.

(** X3.  When more is drawn than there is, [|r| > |n|], [combination]
    returns 1 and not 0: both ranges of the quotient are empty. *)
Theorem combination_beyond_n_is_one :
  forall n r : Z,
    (Z.abs n < Z.abs r)%Z -> combination n r false false = 1%Z.
Proof.
  intros n r H. unfold combination. simpl orb. cbv zeta.
  rewrite Z.min_r by lia.
  destruct (Z.eqb_spec (Z.abs n - Z.abs r) 0) as [E | E]; [reflexivity|].
  unfold range_down, range_up.
  replace (Z.to_nat (Z.abs n - (Z.abs n - (Z.abs n - Z.abs r)))) with 0%nat by lia.
  replace (Z.to_nat (Z.abs n - Z.abs r + 1 - 1)) with 0%nat by lia.
  reflexivity.
Qed.

Lemma combination_beyond_n_is_one_witness :
  combination 2 5 false false = 1%Z.
Proof. apply (combination_beyond_n_is_one 2 5). simpl. lia. Defined.

(** X4.  With [repetition] or [multichoose], [n >= 1] and [n] and [r] of
    at most [2^53], [combination] counts the multisets of [r] elements out
    of [n]: the binomial coefficient of [n + r - 1] and [r]. *)
Theorem combination_with_repetition :
  forall (n r : nat) (repetition multichoose : bool),
    (1 <= n)%nat ->
    (Z.of_nat n <= float_exact)%Z ->
    (Z.of_nat r <= float_exact)%Z ->
    repetition || multichoose = true ->
    combination (Z.of_nat n) (Z.of_nat r) repetition multichoose
    = Z.of_nat (binomial (n + r - 1) r).
Proof.
  intros n r rep mc Hn _ _ Hflag.
  rewrite <- (combination_nat (n + r - 1) r) by lia.
  unfold combination. rewrite Hflag. simpl orb. cbv zeta.
  rewrite !Z.abs_eq by lia.
  replace (Z.of_nat n + Z.of_nat r - 1)%Z with (Z.of_nat (n + r - 1)) by lia.
  reflexivity.
Qed.

Lemma combination_with_repetition_witness :
  combination 3 2 true false = Z.of_nat (binomial (3 + 2 - 1) 2).
Proof.
  apply (combination_with_repetition 3 2 true false);
    [lia | discriminate | discriminate | reflexivity].
Defined.

(** *** [pascals_triangle] *)

Lemma range_up_0 (n : nat) :
  range_up 0 (Z.of_nat n) = map Z.of_nat (seq 0 n).
Proof.
  unfold range_up. replace (Z.to_nat (Z.of_nat n - 0)) with n by lia.
  apply map_ext. intros k. lia.
Qed.

Lemma triangle_row (n : nat) :
  map (fun i => combination (Z.of_nat n) i false false)
      (range_up 0 (Z.of_nat n + 1))
  = map (fun i => Z.of_nat (binomial n i)) (seq 0 (S n)).
Proof.
  replace (Z.of_nat n + 1)%Z with (Z.of_nat (S n)) by lia.
  rewrite range_up_0, map_map.
  apply map_ext_in. intros i Hi%in_seq. apply combination_nat. lia.
Qed.

Lemma sum_Z_app (xs ys : list Z) :
  sum_Z (xs ++ ys) = (sum_Z xs + sum_Z ys)%Z.
Proof. induction xs as [|x xs IH]; simpl; [reflexivity|]. rewrite IH. lia. Qed.

Lemma binomial_0 (n : nat) : binomial n 0 = 1%nat.
Proof. now destruct n. Qed.

Lemma pascal_partial_sums (n m : nat) :
  sum_Z (map (fun i => Z.of_nat (binomial (S n) i)) (seq 0 (S m)))
  = (sum_Z (map (fun i => Z.of_nat (binomial n i)) (seq 0 m))
     + sum_Z (map (fun i => Z.of_nat (binomial n i)) (seq 0 (S m))))%Z.
Proof.
  induction m as [|m IH]; [unfold sum_Z; cbn [seq map foldr]; now rewrite !binomial_0|].
  rewrite (seq_S (S m)), map_app, sum_Z_app, IH.
  rewrite (seq_S m), !map_app, !sum_Z_app.
  unfold sum_Z. cbn [map foldr Nat.add].
  change (binomial (S n) (S m)) with (binomial n m + binomial n (S m))%nat.
  lia.
Qed.

Lemma binomial_row_sum (n : nat) :
  sum_Z (map (fun i => Z.of_nat (binomial n i)) (seq 0 (S n))) = (2 ^ Z.of_nat n)%Z.
Proof.
  induction n as [|n IH]; [reflexivity|].
  rewrite pascal_partial_sums, IH.
  rewrite (seq_S (S n)), map_app, sum_Z_app, IH.
  change (sum_Z (map (fun i => Z.of_nat (binomial n i)) [(0 + S n)%nat]))
    with (Z.of_nat (binomial n (S n)) + 0)%Z.
  rewrite binomial_gt by lia.
  rewrite Nat2Z.inj_succ, Z.pow_succ_r by lia. lia.
Qed.

Lemma rev_map_seq {A} (f : nat -> A) (m : nat) :
  rev (map f (seq 0 m)) = map (fun i => f (m - 1 - i)%nat) (seq 0 m).
Proof.
  induction m as [|m IH]; [reflexivity|].
  rewrite seq_S at 1. rewrite map_app, rev_app_distr. cbn [map rev app Nat.add].
  rewrite IH. cbn [seq map]. rewrite <- seq_shift, map_map.
  f_equal; [f_equal; lia|].
  apply map_ext. intros i. f_equal. lia.
Qed.

(** A property that a computation decides holds on a whole range when
    it holds at each number of the range. *)
Lemma range_cases (P : Z -> bool) (lo hi : Z) :
  forallb P (range_up lo (hi + 1)) = true ->
  forall n, (lo <= n <= hi)%Z -> P n = true.
Proof.
  intros Hall n Hn. rewrite forallb_forall in Hall. apply Hall.
  unfold range_up. apply in_map_iff. exists (Z.to_nat (n - lo)).
  split; [lia|]. apply in_seq. lia.
Qed.

(** Up to the row 66 every entry of the triangle is below [2^63]; the
    row 67 has entries above it. *)
Lemma triangle_rows_in_int64 (m : Z) :
  (0 <= m <= 66)%Z ->
  forallb in_int64
          (map (fun i => combination m i false false) (range_up 0 (m + 1)))
  = true.
Proof.
  apply (range_cases
           (fun m => forallb in_int64
                       (map (fun i => combination m i false false)
                            (range_up 0 (m + 1))))).
  vm_compute. reflexivity.
Qed.

(** X5.  For [|n| <= 66], where every entry fits the 64 bits of numpy's
    integers, [pascals_triangle(n)] without [weighted] and [inverse] is the
    row of [|n| + 1] binomial coefficients, which reads the same in both
    directions and sums to [2^|n|]. *)
Theorem pascals_triangle_row :
  forall n : Z,
    (Z.abs n <= 66)%Z ->
    exists row,
      pascals_triangle (Some n) false false = Some (Ints row) /\
      length row = S (Z.abs_nat n) /\
      rev row = row /\
      sum_Z row = (2 ^ Z.abs n)%Z /\
      Forall (fun x => (0 <= x < int64_bound)%Z) row.
Proof.
  intros n Hn.
  exists (map (fun i => combination (Z.abs n) i false false)
              (range_up 0 (Z.abs n + 1))).
  split; [reflexivity|].
  assert (Hfit : Forall (fun x => (0 <= x < int64_bound)%Z)
                        (map (fun i => combination (Z.abs n) i false false)
                             (range_up 0 (Z.abs n + 1)))).
  { pose proof (triangle_rows_in_int64 (Z.abs n) ltac:(lia)) as Hall.
    rewrite forallb_forall in Hall. apply List.Forall_forall.
    intros x Hx. apply Hall in Hx. unfold in_int64 in Hx.
    apply andb_prop in Hx as [H0 H1]. lia. }
  rewrite <- (Zabs2Nat.id_abs n) in Hfit |- *. rewrite triangle_row in Hfit |- *.
  split; [now rewrite length_map, length_seq|].
  split; [|split; [apply binomial_row_sum | exact Hfit]].
  rewrite rev_map_seq. apply map_ext_in. intros i Hi%in_seq.
  f_equal. replace (S (Z.abs_nat n) - 1 - i)%nat with (Z.abs_nat n - i)%nat by lia.
  apply binomial_sym. lia.
Qed.

Lemma pascals_triangle_row_witness :
  exists row,
    pascals_triangle (Some 4%Z) false false = Some (Ints row) /\
    length row = 5%nat /\
    rev row = row /\
    sum_Z row = 16%Z /\
    Forall (fun x => (0 <= x < int64_bound)%Z) row.
Proof. apply (pascals_triangle_row 4). discriminate. Defined.

Lemma pascals_triangle_row_sum_pos (n : Z) :
  sum_Z (map (fun i => combination (Z.abs n) i false false)
             (range_up 0 (Z.abs n + 1)))
  = (2 ^ Z.abs n)%Z /\ (0 < 2 ^ Z.abs n)%Z.
Proof.
  split; [|apply Z.pow_pos_nonneg; lia].
  rewrite <- (Zabs2Nat.id_abs n), triangle_row. apply binomial_row_sum.
Qed.

Lemma of_int_add (a b : Z) : of_int (a + b) = (of_int a + of_int b)%Qc.
Proof.
  unfold of_int. apply Qc_is_canon.
  unfold Qcplus, Q2Qc. cbn [this].
  rewrite !Qred_correct, inject_Z_plus. reflexivity.
Qed.

Lemma of_int_nonzero (a : Z) : a <> 0%Z -> of_int a <> 0%Qc.
Proof.
  intros H E. apply H. unfold of_int in E.
  apply (f_equal this) in E. simpl in E.
  assert (Q : (inject_Z a == 0)%Q) by (rewrite <- (Qred_correct (inject_Z a)), E; reflexivity).
  unfold Qeq in Q. simpl in Q. lia.
Qed.

Lemma sum_divide_by (total : Z) (xs : list Z) :
  sum_Qc (divide_by total xs) = (of_int (sum_Z xs) / of_int total)%Qc.
Proof.
  induction xs as [|x xs IH]; simpl.
  - unfold Qcdiv. change (of_int 0) with 0%Qc. ring.
  - rewrite IH, of_int_add. unfold Qcdiv. ring.
Qed.

Lemma weights_sum_to_one (xs : list Z) :
  sum_Z xs <> 0%Z -> sum_Qc (divide_by (sum_Z xs) xs) = 1%Qc.
Proof.
  intros H. rewrite sum_divide_by. unfold Qcdiv.
  apply Qcmult_inv_r, of_int_nonzero, H.
Qed.

(** X6.  For [|n| <= 62], where the sum [2^|n|] of the row fits the 64
    bits of numpy's integers: with [weighted] alone the row is scaled to
    weights that sum to 1 (in exact arithmetic), with [weighted] and
    [inverse] each weight [w] becomes [1 - w], and with [inverse] alone the
    call returns [None]. *)
Theorem pascals_triangle_weights :
  forall n : Z,
    (Z.abs n <= 62)%Z ->
    (exists row ws,
        pascals_triangle (Some n) false false = Some (Ints row) /\
        (0 < sum_Z row < int64_bound)%Z /\
        pascals_triangle (Some n) true false = Some (Floats ws) /\
        sum_Qc ws = 1%Qc /\
        pascals_triangle (Some n) true true
        = Some (Floats (map (fun w => (1 - w)%Qc) ws))) /\
    pascals_triangle (Some n) false true = None.
Proof.
  intros n Hn. split; [|reflexivity].
  exists (map (fun i => combination (Z.abs n) i false false)
              (range_up 0 (Z.abs n + 1))).
  exists (divide_by
            (sum_Z (map (fun i => combination (Z.abs n) i false false)
                        (range_up 0 (Z.abs n + 1))))
            (map (fun i => combination (Z.abs n) i false false)
                 (range_up 0 (Z.abs n + 1)))).
  destruct (pascals_triangle_row_sum_pos n) as [Hsum Hpos].
  split; [reflexivity|]. split.
  { rewrite Hsum. split; [exact Hpos|].
    apply Z.le_lt_trans with (2 ^ 62)%Z; [|reflexivity].
    apply Z.pow_le_mono_r; lia. }
  split; [reflexivity|]. split; [|reflexivity].
  apply weights_sum_to_one. rewrite Hsum. lia.
Qed.

Lemma pascals_triangle_weights_witness :
  (exists row ws,
      pascals_triangle (Some 4%Z) false false = Some (Ints row) /\
      (0 < sum_Z row < int64_bound)%Z /\
      pascals_triangle (Some 4%Z) true false = Some (Floats ws) /\
      sum_Qc ws = 1%Qc /\
      pascals_triangle (Some 4%Z) true true
      = Some (Floats (map (fun w => (1 - w)%Qc) ws))) /\
  pascals_triangle (Some 4%Z) false true = None.
Proof. apply (pascals_triangle_weights 4). discriminate. Defined.

(** *** [fibonacci] *)

Lemma fib_loop_length (k : nat) (a b : Z) : length (fib_loop k a b) = k.
Proof. revert a b. induction k; intros; simpl; auto. Qed.

(** Every number after the second is the sum of the two before it. *)
Lemma fib_loop_recurrence (k : nat) (a b : Z) (i : nat) (x y z : Z) :
  (a :: fib_loop k a b) !! i = Some x ->
  (a :: fib_loop k a b) !! S i = Some y ->
  (a :: fib_loop k a b) !! S (S i) = Some z ->
  z = (x + y)%Z.
Proof.
  revert k a b. induction i as [|i IH]; intros k a b Hx Hy Hz.
  - destruct k as [|[|k]]; simpl in *; try discriminate.
    injection Hx as <-. injection Hy as <-. injection Hz as <-. reflexivity.
  - destruct k as [|k]; [discriminate|].
    apply (IH k b (a + b)%Z); assumption.
Qed.

Lemma sum_Z_cons (x : Z) (xs : list Z) : sum_Z (x :: xs) = (x + sum_Z xs)%Z.
Proof. reflexivity. Qed.

Lemma fib_loop_nonneg (k : nat) (a b : Z) :
  (0 <= a)%Z -> (0 <= b)%Z -> (0 <= sum_Z (fib_loop k a b))%Z.
Proof.
  revert a b. induction k as [|k IH]; intros a b Ha Hb.
  - simpl. lia.
  - cbn [fib_loop]. rewrite sum_Z_cons.
    assert (Hab : (0 <= a + b)%Z) by lia.
    pose proof (IH b (a + b)%Z Hb Hab). lia.
Qed.

Lemma fib_sum_positive (k : nat) (a b : Z) :
  (0 <= a)%Z -> (0 < b)%Z -> (0 < a)%Z \/ (1 <= k)%nat ->
  (0 < sum_Z (a :: fib_loop k a b))%Z.
Proof.
  intros Ha Hb Hk.
  pose proof (fib_loop_nonneg k a b Ha ltac:(lia)) as H0.
  rewrite sum_Z_cons.
  destruct k as [|k].
  - simpl. destruct Hk as [?|?]; lia.
  - cbn [fib_loop]. rewrite sum_Z_cons.
    assert (Hab : (0 <= a + b)%Z) by lia.
    pose proof (fib_loop_nonneg k b (a + b)%Z ltac:(lia) Hab) as H1. lia.
Qed.

(** The numbers of [fibonacci(n)] fit 64 bits up to [n = 92], their sum
    up to [n = 90]. *)
Lemma fib_numbers_in_int64 (n : Z) (zero : bool) :
  (n <= 92)%Z -> forallb in_int64 (fib_numbers n zero) = true.
Proof.
  intros Hn.
  assert (Hcases : forall m, (0 <= m <= 92)%Z ->
             forallb in_int64 (fib_numbers m true)
             && forallb in_int64 (fib_numbers m false) = true).
  { apply (range_cases
             (fun m => forallb in_int64 (fib_numbers m true)
                       && forallb in_int64 (fib_numbers m false))).
    vm_compute. reflexivity. }
  destruct (Z.ltb_spec n 0) as [Hneg | Hpos].
  - replace (fib_numbers n zero) with (fib_numbers 2 zero).
    + destruct (andb_prop _ _ (Hcases 2%Z ltac:(lia))), zero; assumption.
    + unfold fib_numbers, fibonacci, fib_count.
      destruct (Z.leb_spec 0 n); [lia | reflexivity].
  - destruct (andb_prop _ _ (Hcases n ltac:(lia))), zero; assumption.
Qed.

Lemma fib_sum_in_int64 (n : Z) (zero : bool) :
  (n <= 90)%Z -> (sum_Z (fib_numbers n zero) <? int64_bound)%Z = true.
Proof.
  intros Hn.
  assert (Hcases : forall m, (0 <= m <= 90)%Z ->
             (sum_Z (fib_numbers m true) <? int64_bound)%Z
             && (sum_Z (fib_numbers m false) <? int64_bound)%Z = true).
  { apply (range_cases
             (fun m => (sum_Z (fib_numbers m true) <? int64_bound)%Z
                       && (sum_Z (fib_numbers m false) <? int64_bound)%Z)).
    vm_compute. reflexivity. }
  destruct (Z.ltb_spec n 0) as [Hneg | Hpos].
  - replace (fib_numbers n zero) with (fib_numbers 2 zero).
    + destruct (andb_prop _ _ (Hcases 2%Z ltac:(lia))), zero; assumption.
    + unfold fib_numbers, fibonacci, fib_count.
      destruct (Z.leb_spec 0 n); [lia | reflexivity].
  - destruct (andb_prop _ _ (Hcases n ltac:(lia))), zero; assumption.
Qed.

(** X7.  For [n <= 92], where every number fits the 64 bits of numpy's
    integers, [fibonacci(n)] is a run of Fibonacci numbers: it starts with
    1 (with 0 when [zero] is set), its second number is 1, and every later
    number is the sum of the two before it.  It holds [n] numbers, but one
    number for [n = 0], and [n + 1] numbers when [zero] is set. *)
Theorem fibonacci_sequence :
  forall (n : Z) (zero : bool),
    (n <= 92)%Z ->
    exists xs,
      fibonacci n zero false = Ints xs /\
      length xs
      = (if zero then S (Z.to_nat (fib_count n))
         else Nat.max 1 (Z.to_nat (fib_count n))) /\
      xs !! 0%nat = Some (if zero then 0%Z else 1%Z) /\
      (forall y, xs !! 1%nat = Some y -> y = 1%Z) /\
      (forall i x y z,
          xs !! i = Some x -> xs !! S i = Some y -> xs !! S (S i) = Some z ->
          z = (x + y)%Z) /\
      Forall (fun x => (0 <= x < int64_bound)%Z) xs.
Proof.
  intros n zero Hn.
  assert (Hfit : Forall (fun x => (0 <= x < int64_bound)%Z)
                        (fib_numbers n zero)).
  { pose proof (fib_numbers_in_int64 n zero Hn) as Hall.
    rewrite forallb_forall in Hall. apply List.Forall_forall.
    intros x Hx. apply Hall in Hx. unfold in_int64 in Hx.
    apply andb_prop in Hx as [H0 H1]. lia. }
  unfold fib_numbers, fibonacci in *.
  destruct zero.
  - exists (0%Z :: fib_loop (Z.to_nat (fib_count n)) 0%Z 1%Z).
    split; [reflexivity|]. split; [simpl; now rewrite fib_loop_length|].
    split; [reflexivity|]. split; [|split; [|exact Hfit]].
    + intros y. destruct (Z.to_nat (fib_count n)); simpl; [discriminate|].
      now intros [= <-].
    + apply fib_loop_recurrence.
  - exists (1%Z :: fib_loop (Z.to_nat (fib_count n - 1)) 1%Z 1%Z).
    split; [reflexivity|]. split; [simpl; rewrite fib_loop_length; lia|].
    split; [reflexivity|]. split; [|split; [|exact Hfit]].
    + intros y. destruct (Z.to_nat (fib_count n - 1)); simpl; [discriminate|].
      now intros [= <-].
    + apply fib_loop_recurrence.
Qed.

Lemma fibonacci_sequence_witness :
  exists xs,
    fibonacci 6 false false = Ints xs /\
    length xs = 6%nat /\
    xs !! 0%nat = Some 1%Z /\
    (forall y, xs !! 1%nat = Some y -> y = 1%Z) /\
    (forall i x y z,
        xs !! i = Some x -> xs !! S i = Some y -> xs !! S (S i) = Some z ->
        z = (x + y)%Z) /\
    Forall (fun x => (0 <= x < int64_bound)%Z) xs.
Proof. apply (fibonacci_sequence 6 false). discriminate. Defined.

(** X8.  For [n >= 1], setting [zero] only puts a 0 in front of the
    numbers. *)
Theorem fibonacci_zero_prepends :
  forall n : Z,
    (1 <= n)%Z ->
    exists xs,
      fibonacci n false false = Ints xs /\
      fibonacci n true false = Ints (0%Z :: xs).
Proof.
  intros n Hn. unfold fibonacci, fib_count.
  destruct (Z.leb_spec 0%Z n); [|lia]. rewrite Z.abs_eq by lia.
  eexists. split; [reflexivity|].
  replace (Z.to_nat n) with (S (Z.to_nat (n - 1))) by lia.
  reflexivity.
Qed.

Lemma fibonacci_zero_prepends_witness :
  exists xs,
    fibonacci 6 false false = Ints xs /\
    fibonacci 6 true false = Ints (0%Z :: xs).
Proof. apply (fibonacci_zero_prepends 6). lia. Defined.

(** X9.  For [n <= 90], where the sum of the numbers fits the 64 bits of
    numpy's integers: with [weighted] the numbers are scaled to weights
    that sum to 1 (in exact arithmetic); only [fibonacci(0, zero=True)],
    whose one number is 0, is left as it is. *)
Theorem fibonacci_weights :
  forall (n : Z) (zero : bool),
    (n <= 90)%Z ->
    (sum_Z (fib_numbers n zero) < int64_bound)%Z /\
    ((zero = true /\ n = 0%Z /\ fibonacci n zero true = Ints [0%Z]) \/
     (exists ws, fibonacci n zero true = Floats ws /\ sum_Qc ws = 1%Qc)).
Proof.
  intros n zero Hn.
  split; [apply Z.ltb_lt, fib_sum_in_int64, Hn|].
  clear Hn. unfold fibonacci.
  destruct zero.
  - destruct (Z.eq_dec n 0%Z) as [-> | Hne]; [left; repeat split|right].
    assert (Hk : (1 <= Z.to_nat (fib_count n))%nat).
    { unfold fib_count. destruct (Z.leb_spec 0%Z n); lia. }
    pose proof (fib_sum_positive (Z.to_nat (fib_count n)) 0%Z 1%Z
                  ltac:(lia) ltac:(lia) ltac:(right; exact Hk)) as Hpos.
    destruct (Z.ltb_spec 0%Z
      (sum_Z (0%Z :: fib_loop (Z.to_nat (fib_count n)) 0%Z 1%Z))); [|lia].
    eexists. split; [reflexivity|]. apply weights_sum_to_one. lia.
  - right.
    pose proof (fib_sum_positive (Z.to_nat (fib_count n - 1)) 1%Z 1%Z
                  ltac:(lia) ltac:(lia) ltac:(left; lia)) as Hpos.
    destruct (Z.ltb_spec 0%Z
      (sum_Z (1%Z :: fib_loop (Z.to_nat (fib_count n - 1)) 1%Z 1%Z))); [|lia].
    eexists. split; [reflexivity|]. apply weights_sum_to_one. lia.
Qed.

Lemma fibonacci_weights_witness :
  (sum_Z (fib_numbers 6 false) < int64_bound)%Z /\
  ((false = true /\ 6%Z = 0%Z /\ fibonacci 6 false true = Ints [0%Z]) \/
   (exists ws, fibonacci 6 false true = Floats ws /\ sum_Qc ws = 1%Qc)).
Proof. apply (fibonacci_weights 6 false). discriminate. Defined.

(** *** [symmetric_triangle] *)

Lemma front_length (m : Z) : length (front m) = Z.to_nat m.
Proof.
  unfold front, range_up. rewrite !length_map, length_seq. f_equal. lia.
Qed.

Lemma front_positive (m : Z) : Forall (fun x => (0 < x)%Z) (front m).
Proof.
  unfold front, range_up. rewrite map_map. apply Forall_forall.
  intros x Hx. apply list_elem_of_In, in_map_iff in Hx as (k & <- & _). lia.
Qed.

Lemma sum_positive (xs : list Z) :
  Forall (fun x => (0 < x)%Z) xs -> xs <> [] -> (0 < sum_Z xs)%Z.
Proof.
  intros H. induction H as [|x xs Hx H IH]; intros Hne; [contradiction|].
  rewrite sum_Z_cons. destruct xs as [|y xs]; [simpl; lia|].
  assert (0 < sum_Z (y :: xs))%Z by (apply IH; discriminate). lia.
Qed.

Lemma palindrome_even {A} (l : list A) : rev (l ++ rev l) = l ++ rev l.
Proof. now rewrite rev_app_distr, rev_involutive. Qed.

Lemma palindrome_odd {A} (l : list A) :
  rev (l ++ rev (removelast l)) = l ++ rev (removelast l).
Proof.
  destruct (nil_or_length_pos l) as [-> | Hpos]; [reflexivity|].
  destruct l as [|d l'] eqn:E; [simpl in Hpos; lia|]. rewrite <- E in *.
  assert (Hne : l <> []) by (rewrite E; discriminate).
  rewrite (app_removelast_last d Hne) at 1 3.
  rewrite rev_app_distr, rev_involutive, rev_app_distr.
  cbn [rev app]. now rewrite <- app_assoc.
Qed.

(** The triangle that [symmetric_triangle] binds for [n >= 2]. *)
Lemma symmetric_triangle_bound (n : Z) :
  (2 <= Z.abs n)%Z ->
  exists xs,
    (forall weighted,
        symmetric_triangle (Some n) weighted
        = if weighted then Ok (Floats (divide_by (sum_Z xs) xs))
          else Ok (Ints xs)) /\
    length xs = Z.abs_nat n /\ rev xs = xs /\ (0 < sum_Z xs)%Z.
Proof.
  intros H. unfold symmetric_triangle. cbv zeta.
  destruct (Z.eqb_spec (Z.abs n) 2) as [E2 | E2].
  - exists [1%Z; 1%Z]. split; [reflexivity|].
    split; [simpl; lia|]. split; [reflexivity | reflexivity].
  - destruct (Z.ltb_spec 2 (Z.abs n)) as [Hgt | ?]; [|lia].
    destruct (Z.eqb_spec (Z.abs n mod 2) 0) as [Heven | Hodd].
    + exists (front (Z.abs n / 2) ++ rev (front (Z.abs n / 2))).
      split; [reflexivity|].
      pose proof (Z.div_mod (Z.abs n) 2 ltac:(lia)) as Hdm.
      split; [rewrite length_app, length_rev, front_length; lia|].
      split; [apply palindrome_even|].
      apply sum_positive.
      * apply Forall_app. split; [apply front_positive|].
        apply Forall_rev, front_positive.
      * intros Hnil. apply (f_equal (@length Z)) in Hnil.
        rewrite length_app, front_length in Hnil. simpl in Hnil. lia.
    + exists (front ((Z.abs n + 1) / 2)
              ++ rev (removelast (front ((Z.abs n + 1) / 2)))).
      split; [reflexivity|].
      pose proof (Z.div_mod (Z.abs n) 2 ltac:(lia)) as Hdm.
      pose proof (Z.mod_pos_bound (Z.abs n) 2 ltac:(lia)) as Hmod.
      assert (Hhalf : ((Z.abs n + 1) / 2 = Z.abs n / 2 + 1)%Z).
      { replace (Z.abs n + 1)%Z with (1 * 2 + 2 * (Z.abs n / 2))%Z at 1 by lia.
        rewrite Z.div_add_l by lia. rewrite (Z.mul_comm 2), Z.div_mul by lia.
        lia. }
      split.
      { rewrite length_app, length_rev, removelast_firstn_len, length_take,
          front_length. lia. }
      split; [apply palindrome_odd|].
      apply sum_positive.
      * apply Forall_app. split; [apply front_positive|].
        apply Forall_rev. apply Forall_forall. intros x Hx.
        pose proof (front_positive ((Z.abs n + 1) / 2)) as Hf.
        rewrite Forall_forall in Hf. apply Hf.
        apply list_elem_of_In. apply list_elem_of_In in Hx.
        revert Hx. generalize (front ((Z.abs n + 1) / 2)).
        intros l. induction l as [|a [|b l] IH]; simpl; [tauto | tauto |].
        intros [-> | Hin]; [now left | right; now apply IH].
      * intros Hnil. apply (f_equal (@length Z)) in Hnil.
        rewrite length_app, front_length in Hnil. simpl in Hnil. lia.
Qed.

(** X10.  For [|n| >= 2], [symmetric_triangle(n)] is a list of [|n|]
    integers that reads the same in both directions, and with [weighted]
    its entries are scaled to weights that sum to 1. *)
Theorem symmetric_triangle_is_symmetric :
  forall n : Z,
    (2 <= Z.abs n)%Z ->
    exists xs ws,
      symmetric_triangle (Some n) false = Ok (Ints xs) /\
      length xs = Z.abs_nat n /\
      rev xs = xs /\
      symmetric_triangle (Some n) true = Ok (Floats ws) /\
      sum_Qc ws = 1%Qc.
Proof.
  intros n H.
  destruct (symmetric_triangle_bound n H) as (xs & Hrun & Hlen & Hrev & Hsum).
  exists xs, (divide_by (sum_Z xs) xs).
  split; [apply (Hrun false)|]. split; [exact Hlen|]. split; [exact Hrev|].
  split; [apply (Hrun true)|]. apply weights_sum_to_one. lia.
Qed.

Lemma symmetric_triangle_is_symmetric_witness :
  exists xs ws,
    symmetric_triangle (Some 5%Z) false = Ok (Ints xs) /\
    length xs = Z.abs_nat 5 /\
    rev xs = xs /\
    symmetric_triangle (Some 5%Z) true = Ok (Floats ws) /\
    sum_Qc ws = 1%Qc.
Proof. apply (symmetric_triangle_is_symmetric 5). simpl. lia. Defined.

Example symmetric_triangle_4_5 :
  symmetric_triangle (Some 4%Z) false = Ok (Ints [1; 2; 2; 1]%Z) /\
  symmetric_triangle (Some 5%Z) false = Ok (Ints [1; 2; 3; 2; 1]%Z).
Proof. split; reflexivity. Qed.

(** X11.  For [|n| < 2] no triangle is bound and the call raises
    [UnboundLocalError], with or without [weighted]. *)
Theorem symmetric_triangle_below_two_raises :
  forall (n : Z) (weighted : bool),
    (Z.abs n < 2)%Z ->
    symmetric_triangle (Some n) weighted = Raise UnboundLocalError.
Proof.
  intros n weighted H. unfold symmetric_triangle. cbv zeta.
  destruct (Z.eqb_spec (Z.abs n) 2); [lia|].
  destruct (Z.ltb_spec 2 (Z.abs n)); [lia|]. reflexivity.
Qed.

Lemma symmetric_triangle_below_two_raises_witness :
  symmetric_triangle (Some (-1)%Z) true = Raise UnboundLocalError.
Proof. apply (symmetric_triangle_below_two_raises (-1) true). simpl. lia. Defined.

(** *** [zero] *)

(** X12.  [zero] returns 0 or its argument, the argument only when its
    absolute value is at least epsilon, and applying it twice changes
    nothing more. *)
Theorem zero_idempotent :
  forall x : Qc,
    zero (zero x) = zero x /\
    (zero x = 0%Qc \/ (zero x = x /\ ~ (Qcabs x < epsilon)%Qc)).
Proof.
  intros x.
  assert (H0 : zero 0%Qc = 0%Qc) by reflexivity.
  destruct (decide (Qcabs x < epsilon)%Qc) as [Hlt | Hge].
  - assert (E : zero x = 0%Qc) by (unfold zero; now rewrite decide_True).
    rewrite E. split; [exact H0 | now left].
  - assert (E : zero x = x) by (unfold zero; now rewrite decide_False).
    rewrite E. split; [exact E | right; now split].
Qed.

End MathFacts.

(** ** More on the Super Smoother Filter *)

Module SSFMore.
Import SSF SSFFacts.
Local Open Scope R_scope.

Lemma iloc_lookup (s : Series) (i : nat) (x : R) :
  s !! i = Some x -> iloc s (Z.of_nat i) = Ok x.
Proof.
  intros H. unfold iloc.
  rewrite iloc_pos_nonneg by (apply lookup_lt_Some in H; lia).
  rewrite Nat2Z.id. f_equal. exact (nth_lookup_Some s i 0 x H).
Qed.

Lemma iloc_before (s : Series) (i : nat) (k : Z) :
  (0 <= k <= Z.of_nat i)%Z -> (i < length s)%nat ->
  iloc s (Z.of_nat i - k) = Ok (nth (i - Z.to_nat k) s 0).
Proof.
  intros Hk Hi. unfold iloc.
  rewrite iloc_pos_nonneg by lia.
  do 2 f_equal. lia.
Qed.

(** A turn of the loop at an index that has [poles] samples before it. *)
Lemma body2_step (n : Z) (close s : Series) (i : nat) (x : R) :
  length s = length close -> (2 <= i)%nat -> close !! i = Some x ->
  body2 n close s (Z.of_nat i)
  = Ok (<[i := c1_2 n * x + b1_2 n * nth (i - 1) s 0
              + a1_2 n * nth (i - 2) s 0]> s).
Proof.
  intros Hlen Hi Hx. unfold body2.
  assert (Hlt : (i < length s)%nat) by (apply lookup_lt_Some in Hx; lia).
  rewrite (iloc_lookup close i x Hx).
  rewrite (iloc_before s i 1), (iloc_before s i 2) by lia.
  simpl. now apply iloc_set_ok.
Qed.

Lemma body3_step (n : Z) (close s : Series) (i : nat) (x : R) :
  length s = length close -> (3 <= i)%nat -> close !! i = Some x ->
  body3 n close s (Z.of_nat i)
  = Ok (<[i := c1_3 n * x + c2_3 n * nth (i - 1) s 0
              + c3_3 n * nth (i - 2) s 0 + c4_3 n * nth (i - 3) s 0]> s).
Proof.
  intros Hlen Hi Hx. unfold body3.
  assert (Hlt : (i < length s)%nat) by (apply lookup_lt_Some in Hx; lia).
  rewrite (iloc_lookup close i x Hx).
  rewrite (iloc_before s i 1), (iloc_before s i 2), (iloc_before s i 3) by lia.
  simpl. now apply iloc_set_ok.
Qed.

(** The loop, cut at the turn of index [i]: the turns before it, the turn
    itself and the turns after it, which leave the samples up to [i]
    alone. *)
Lemma for_range_at (body : Series -> Z -> result Series) (s0 : Series) (i : nat) :
  (forall s k, length s = length s0 -> (k < length s0)%nat ->
               exists v, body s (Z.of_nat k) = Ok (<[k := v]> s)) ->
  (i < length s0)%nat ->
  exists s_i s_next s',
    length s_i = length s0 /\
    body s_i (Z.of_nat i) = Ok s_next /\
    for_range (length s0) body s0 = Ok s' /\
    length s' = length s0 /\
    forall j, (j <= i)%nat -> s' !! j = s_next !! j.
Proof.
  intros Hbody Hi. unfold for_range.
  assert (Hseq : seq 0 (length s0)
                 = (seq 0 i ++ i :: seq (S i) (length s0 - S i))%list).
  { replace (length s0) with (i + S (length s0 - S i))%nat at 1 by lia.
    now rewrite seq_app. }
  rewrite Hseq, fold_left_app. cbn [fold_left].
  destruct (fold_writes_own_index body (length s0) Hbody (seq 0 i) s0 eq_refl)
    as (s_i & Hrun1 & Hlen1 & _).
  { intros k Hk%elem_of_seq. lia. }
  rewrite Hrun1. cbn [mbind result_bind].
  destruct (Hbody s_i i Hlen1 Hi) as [v Hv].
  destruct (fold_writes_own_index body (length s0) Hbody
              (seq (S i) (length s0 - S i)) (<[i := v]> s_i))
    as (s' & Hrun2 & Hlen2 & Hkeep).
  { transitivity (length s_i); [apply length_insert | exact Hlen1]. }
  { intros k Hk%elem_of_seq. lia. }
  exists s_i, (<[i := v]> s_i), s'.
  split; [exact Hlen1|]. split; [exact Hv|].
  split; [rewrite Hv; exact Hrun2|]. split; [exact Hlen2|].
  intros j Hj. apply Hkeep. intros Hin%elem_of_seq. lia.
Qed.

Lemma ssf_run (verify_series : Series -> option Series)
    (get_offset : option Z -> Z) (close : Series) (length_ poles : option Z)
    (s' : Series) :
  verify_series close = Some close ->
  get_offset None = 0%Z ->
  (if (poles_arg poles =? 3)%Z
   then for_range (length close) (body3 (length_arg length_) close)
          (zero_from (Z.to_nat (poles_arg poles)) close)
   else for_range (length close) (body2 (length_arg length_) close)
          (zero_from (Z.to_nat (poles_arg poles)) close)) = Ok s' ->
  ssf verify_series get_offset close length_ poles None
  = Ok {| values := map Some s';
          name := ssf_name (length_arg length_) (poles_arg poles);
          category := "overlap" |}.
Proof.
  intros Hv Hoff Hrun. unfold ssf. rewrite Hv, Hoff. cbv zeta.
  destruct (if (poles_arg poles =? 3)%Z then _ else _) as [s1|e] eqn:E;
    [|discriminate Hrun].
  injection Hrun as ->. reflexivity.
Qed.

Lemma lookup_nth (s : list R) (j : nat) :
  (j < length s)%nat -> s !! j = Some (nth j s 0).
Proof.
  intros H. destruct (lookup_lt_is_Some_2 s j H) as [x Hx].
  transitivity (Some x); [exact Hx|].
  f_equal. symmetry. exact (nth_lookup_Some s j 0 x Hx).
Qed.

Lemma two_pole_recurrence (n : Z) (close s' : Series) (i : nat) (x : R) :
  for_range (length close) (body2 n close) (zero_from 2 close) = Ok s' ->
  (2 <= i)%nat -> close !! i = Some x ->
  exists y1 y2,
    s' !! (i - 1)%nat = Some y1 /\ s' !! (i - 2)%nat = Some y2 /\
    s' !! i = Some (c1_2 n * x + b1_2 n * y1 + a1_2 n * y2).
Proof.
  intros Hrun Hi Hx.
  pose proof (zero_from_length 2 close) as Hz.
  assert (Hlt : (i < length close)%nat) by (apply lookup_lt_Some in Hx; exact Hx).
  destruct (for_range_at (body2 n close) (zero_from 2 close) i)
    as (s_i & s_next & s'' & Hlen & Hstep & Hrun' & Hlen' & Hkeep).
  { intros s k Hs Hk. apply body2_ok; lia. }
  { lia. }
  rewrite Hz in Hrun'. rewrite Hrun in Hrun'. injection Hrun' as <-.
  rewrite (body2_step n close s_i i x) in Hstep by (auto; lia).
  injection Hstep as <-.
  exists (nth (i - 1) s_i 0), (nth (i - 2) s_i 0).
  rewrite !Hkeep by lia.
  repeat split;
    try (etransitivity;
         [apply list_lookup_insert_ne; lia | apply lookup_nth; lia]).
  apply list_lookup_insert_eq. lia.
Qed.

Lemma three_pole_recurrence (n : Z) (close s' : Series) (i : nat) (x : R) :
  for_range (length close) (body3 n close) (zero_from 3 close) = Ok s' ->
  (3 <= i)%nat -> close !! i = Some x ->
  exists y1 y2 y3,
    s' !! (i - 1)%nat = Some y1 /\ s' !! (i - 2)%nat = Some y2 /\
    s' !! (i - 3)%nat = Some y3 /\
    s' !! i
    = Some (c1_3 n * x + c2_3 n * y1 + c3_3 n * y2 + c4_3 n * y3).
Proof.
  intros Hrun Hi Hx.
  pose proof (zero_from_length 3 close) as Hz.
  assert (Hlt : (i < length close)%nat) by (apply lookup_lt_Some in Hx; exact Hx).
  destruct (for_range_at (body3 n close) (zero_from 3 close) i)
    as (s_i & s_next & s'' & Hlen & Hstep & Hrun' & Hlen' & Hkeep).
  { intros s k Hs Hk. apply body3_ok; lia. }
  { lia. }
  rewrite Hz in Hrun'. rewrite Hrun in Hrun'. injection Hrun' as <-.
  rewrite (body3_step n close s_i i x) in Hstep by (auto; lia).
  injection Hstep as <-.
  exists (nth (i - 1) s_i 0), (nth (i - 2) s_i 0), (nth (i - 3) s_i 0).
  rewrite !Hkeep by lia.
  repeat split;
    try (etransitivity;
         [apply list_lookup_insert_ne; lia | apply lookup_nth; lia]).
  apply list_lookup_insert_eq. lia.
Qed.

(** X13.  From the index [poles] on, every sample of the result is the
    filter's combination of the input at that index and of the [poles]
    samples of the result before it: [c1*x + b1*y1 + a1*y2] with two
    poles, [c1*x + c2*y1 + c3*y2 + c4*y3] with three. *)
Theorem ssf_recurrence :
  forall (verify_series : Series -> option Series)
         (get_offset : option Z -> Z) (close : Series) (length_ : option Z),
    verify_series close = Some close ->
    get_offset None = 0%Z ->
    (3 <= length close)%nat ->
    let n := length_arg length_ in
    (exists out,
        ssf verify_series get_offset close length_ (Some 2%Z) None = Ok out /\
        forall i x,
          (2 <= i)%nat -> close !! i = Some x ->
          exists y1 y2,
            values out !! (i - 1)%nat = Some (Some y1) /\ values out !! (i - 2)%nat = Some (Some y2) /\
            values out !! i
            = Some (Some (c1_2 n * x + b1_2 n * y1 + a1_2 n * y2))) /\
    (exists out,
        ssf verify_series get_offset close length_ (Some 3%Z) None = Ok out /\
        forall i x,
          (3 <= i)%nat -> close !! i = Some x ->
          exists y1 y2 y3,
            values out !! (i - 1)%nat = Some (Some y1) /\ values out !! (i - 2)%nat = Some (Some y2) /\
            values out !! (i - 3)%nat = Some (Some y3) /\
            values out !! i
            = Some (Some (c1_3 n * x + c2_3 n * y1 + c3_3 n * y2
                          + c4_3 n * y3))).
Proof.
  intros verify_series get_offset close length_ Hv Hoff Hlen n.
  assert (Hval : forall (s' : list R) j y,
             s' !! j = Some y -> map Some s' !! j = Some (Some y)).
  { intros s' j y H. change (map Some s') with (Some <$> s').
    now rewrite list_lookup_fmap, H. }
  split.
  - destruct (for_range_ok (body2 n close) (zero_from 2 close))
      as (s' & Hrun & _).
    { intros s k Hs Hk. rewrite zero_from_length in *. apply body2_ok; lia. }
    rewrite zero_from_length in Hrun.
    eexists. split.
    { apply (ssf_run verify_series get_offset close length_ (Some 2%Z) s' Hv Hoff).
      exact Hrun. }
    intros i x Hi Hx. cbn [values].
    destruct (two_pole_recurrence n close s' i x Hrun Hi Hx)
      as (y1 & y2 & H1 & H2 & H0).
    exists y1, y2. repeat split; now apply Hval.
  - destruct (for_range_ok (body3 n close) (zero_from 3 close))
      as (s' & Hrun & _).
    { intros s k Hs Hk. rewrite zero_from_length in *. apply body3_ok; lia. }
    rewrite zero_from_length in Hrun.
    eexists. split.
    { apply (ssf_run verify_series get_offset close length_ (Some 3%Z) s' Hv Hoff).
      exact Hrun. }
    intros i x Hi Hx. cbn [values].
    destruct (three_pole_recurrence n close s' i x Hrun Hi Hx)
      as (y1 & y2 & y3 & H1 & H2 & H3 & H0).
    exists y1, y2, y3. repeat split; now apply Hval.
Qed.

Lemma ssf_recurrence_witness :
  exists out,
    ssf (fun s => Some s) (fun o => default 0%Z o) [1; 2; 3; 4]
        None (Some 2%Z) None = Ok out /\
    forall i x,
      (2 <= i)%nat -> [1; 2; 3; 4] !! i = Some x ->
      exists y1 y2,
        values out !! (i - 1)%nat = Some (Some y1) /\
        values out !! (i - 2)%nat = Some (Some y2) /\
        values out !! i
        = Some (Some (c1_2 10 * x + b1_2 10 * y1 + a1_2 10 * y2)).
Proof.
  apply (ssf_recurrence (fun s => Some s) (fun o => default 0%Z o)
           [1; 2; 3; 4] None); [reflexivity | reflexivity | simpl; lia].
Defined.

Lemma poles_arg_cases (poles : option Z) :
  poles_arg poles = 2%Z \/ poles_arg poles = 3%Z.
Proof.
  unfold poles_arg. destruct poles as [p|]; [|now left].
  destruct (Z.eqb_spec p 2) as [->|]; [now left|].
  destruct (Z.eqb_spec p 3) as [->|]; [now right|]. now left.
Qed.

Lemma for_range_first_raises (m : nat) (body : Series -> Z -> result Series)
    (s : Series) (e : exn) :
  (0 < m)%nat -> body s 0%Z = Raise e -> for_range m body s = Raise e.
Proof.
  intros Hm Hb. unfold for_range. destruct m as [|m]; [lia|].
  cbn [seq fold_left]. change (Z.of_nat 0) with 0%Z.
  cbn [mbind result_bind]. rewrite Hb. apply fold_raise.
Qed.

(** X14.  The loops start at index 0 and read [ssf.iloc[i - poles]] there,
    which is in range only when the series has at least [poles] samples:
    on a non-empty series shorter than [poles] the call raises an
    [IndexError]; on every other series (the empty one, whose loop has no
    turn, included) it returns a series as long as the input. *)
Theorem ssf_short_series :
  forall (verify_series : Series -> option Series)
         (get_offset : option Z -> Z) (close : Series)
         (length_ poles offset : option Z),
    verify_series close = Some close ->
    ((0 < length close < Z.to_nat (poles_arg poles))%nat ->
     ssf verify_series get_offset close length_ poles offset
     = Raise IndexError) /\
    (~ (0 < length close < Z.to_nat (poles_arg poles))%nat ->
     exists out,
       ssf verify_series get_offset close length_ poles offset = Ok out /\
       length (values out) = length close).
Proof.
  intros verify_series get_offset close length_ poles offset Hv. split.
  - intros [H0 Hlt]. unfold ssf. rewrite Hv. cbv zeta.
    destruct (poles_arg_cases poles) as [E | E]; rewrite E in *.
    + change (2 =? 3)%Z with false. cbv iota.
      destruct close as [|x [|y close]]; simpl in H0, Hlt; try lia.
      rewrite (for_range_first_raises 1 _ _ IndexError); [reflexivity|lia|].
      reflexivity.
    + change (3 =? 3)%Z with true. cbv iota.
      destruct close as [|x [|y [|z close]]]; simpl in H0, Hlt; try lia.
      * rewrite (for_range_first_raises 1 _ _ IndexError);
          [reflexivity|lia|reflexivity].
      * rewrite (for_range_first_raises 2 _ _ IndexError);
          [reflexivity|lia|reflexivity].
  - intros Hn.
    destruct (Nat.eq_dec (length close) 0%nat) as [E|E].
    + destruct close; [|discriminate E].
      unfold ssf. rewrite Hv. cbv zeta.
      assert (Hz : forall k, zero_from k [] = []) by (now intros [|k]).
      rewrite Hz. unfold for_range. cbn [length seq fold_left].
      destruct (poles_arg poles =? 3)%Z;
        cbn [mbind result_bind];
        (destruct (get_offset offset =? 0)%Z;
         eexists; (split; [reflexivity | reflexivity])).
    + apply ssf_returns; [exact Hv | lia].
Qed.

Lemma ssf_short_series_witness :
  ssf (fun s => Some s) (fun o => default 0%Z o) [1] None (Some 2%Z) None
  = Raise IndexError /\
  exists out,
    ssf (fun s => Some s) (fun o => default 0%Z o) [1; 2] None (Some 2%Z) None
    = Ok out /\
    length (values out) = 2%nat.
Proof.
  split.
  - apply (ssf_short_series (fun s => Some s) (fun o => default 0%Z o) [1]
             None (Some 2%Z) None eq_refl).
    simpl. lia.
  - apply (ssf_short_series (fun s => Some s) (fun o => default 0%Z o) [1; 2]
             None (Some 2%Z) None eq_refl).
    simpl. lia.
Defined.

End SSFMore.

(** ** Linear regression: what the two backends share *)

Module RegressionMore.
Import Regression RegressionFacts.
Local Open Scope R_scope.

Lemma sum_squares_nonneg (x : Series) : 0 <= sum (smul x x).
Proof.
  induction x as [|xi x IH]; [simpl; lra|].
  unfold smul, sum in *. simpl. nra.
Qed.

Lemma residual_squares (mx my bb : R) (x y : Series) :
  length x = length y ->
  let res := ssub y (affine (my - bb * mx) bb x) in
  sum (smul res res)
  = sum (smul (map (fun yi => yi - my) y) (map (fun yi => yi - my) y))
    - 2 * bb * sum (smul (map (fun xi => xi - mx) x)
                         (map (fun yi => yi - my) y))
    + bb * bb * sum (smul (map (fun xi => xi - mx) x)
                          (map (fun xi => xi - mx) x)).
Proof.
  cbv zeta. revert y. induction x as [|xi x IH]; intros y Hlen.
  - destruct y; [|discriminate]. simpl. ring.
  - destruct y as [|yi y]; [discriminate|]. injection Hlen as Hlen.
    specialize (IH y Hlen).
    unfold smul, ssub, affine, sum in *. simpl. rewrite IH. ring.
Qed.

(** The coefficient of determination of the least-squares line. *)
Lemma score_of_fit (x y : Series) :
  length x = length y ->
  sum (smul (center x) (center x)) <> 0 ->
  sum (smul (center y) (center y)) <> 0 ->
  score (fit x y) x y
  = sum (smul (center x) (center y)) * sum (smul (center x) (center y))
    / (sum (smul (center x) (center x)) * sum (smul (center y) (center y))).
Proof.
  intros Hlen Hx Hy. unfold score, predict, fit. cbn [coef_0 intercept_].
  rewrite (residual_squares (mean x) (mean y) _ x y Hlen).
  change (map (fun xi => xi - mean x) x) with (center x).
  change (map (fun yi => yi - mean y) y) with (center y).
  field. split; assumption.
Qed.

Lemma corrcoef_squared (x y : Series) :
  length x = length y ->
  (2 <= length x)%nat ->
  sum (smul (center x) (center x)) <> 0 ->
  sum (smul (center y) (center y)) <> 0 ->
  npCorrcoef01 x y * npCorrcoef01 x y
  = sum (smul (center x) (center y)) * sum (smul (center x) (center y))
    / (sum (smul (center x) (center x)) * sum (smul (center y) (center y))).
Proof.
  intros Hlen Hn Hx Hy. unfold npCorrcoef01.
  assert (Hm : 0 < INR (size x) - 1).
  { unfold size. apply le_INR in Hn. change (INR 2) with 2 in Hn. lra. }
  assert (Hsize : size y = size x) by (unfold size; now rewrite Hlen).
  assert (Hxx : 0 < cov x x).
  { unfold cov. pose proof (sum_squares_nonneg (center x)).
    apply Rdiv_lt_0_compat; lra. }
  assert (Hyy : 0 < cov y y).
  { unfold cov. rewrite Hsize. pose proof (sum_squares_nonneg (center y)).
    apply Rdiv_lt_0_compat; lra. }
  pose proof (sqrt_lt_R0 _ Hxx) as Px. pose proof (sqrt_lt_R0 _ Hyy) as Py.
  assert (Sx : sqrt (cov x x) * sqrt (cov x x) = cov x x)
    by (apply sqrt_sqrt; lra).
  assert (Sy : sqrt (cov y y) * sqrt (cov y y) = cov y y)
    by (apply sqrt_sqrt; lra).
  transitivity (cov x y * cov x y
                / ((sqrt (cov x x) * sqrt (cov x x))
                   * (sqrt (cov y y) * sqrt (cov y y)))).
  { field. split; lra. }
  rewrite Sx, Sy. unfold cov. rewrite Hsize. field.
  repeat split; lra.
Qed.

(** X15.  For series of one size and an [x] that is not constant, the two
    backends return the same intercept, the same
    slope and the same line, and nothing is printed. *)
Theorem backends_agree_on_intercept_slope_line :
  forall (verify_series : Series -> option Series) (x y : Series),
    verify_series x = Some x ->
    verify_series y = Some y ->
    length x = length y ->
    sum (smul (center x) (center x)) <> 0 ->
    exists np sk,
      linear_regression verify_series false x y = (Ok (Some np), []) /\
      linear_regression verify_series true x y = (Ok (Some sk), []) /\
      a np = a sk /\ b np = b sk /\ line np = line sk.
Proof.
  intros verify_series x y Hvx Hvy Hlen Hvar.
  assert (Hne : x <> []) by (intros ->; apply Hvar; reflexivity).
  exists (_linear_regression_np x y), (_linear_regression_sklearn x y).
  unfold linear_regression. rewrite Hvx, Hvy. unfold size.
  rewrite Hlen, Nat.eqb_refl. cbn [negb].
  destruct (backends_agree_on_the_line x y Hlen Hne) as (Hb & Ha & Hl).
  repeat split; assumption.
Qed.

Lemma backends_agree_on_intercept_slope_line_witness :
  exists np sk,
    linear_regression (fun s => Some s) false xs ys = (Ok (Some np), []) /\
    linear_regression (fun s => Some s) true xs ys = (Ok (Some sk), []) /\
    a np = a sk /\ b np = b sk /\ line np = line sk.
Proof.
  apply (backends_agree_on_intercept_slope_line (fun s => Some s) xs ys);
    try reflexivity.
  unfold center, mean, sum, smul, size, xs. simpl. lra.
Defined.

(** X16.  For series of one size, at least two samples, neither of them
    constant, the [r] of the sklearn backend is the square of the [r] of
    the numpy backend: the one is the coefficient of determination of the
    line, the other Pearson's correlation. *)
Theorem sklearn_r_is_numpy_r_squared :
  forall x y : Series,
    length x = length y ->
    (2 <= length x)%nat ->
    sum (smul (center x) (center x)) <> 0 ->
    sum (smul (center y) (center y)) <> 0 ->
    r (_linear_regression_sklearn x y)
    = r (_linear_regression_np x y) * r (_linear_regression_np x y).
Proof.
  intros x y Hlen Hn Hx Hy.
  change (r (_linear_regression_sklearn x y)) with (score (fit x y) x y).
  change (r (_linear_regression_np x y)) with (npCorrcoef01 x y).
  rewrite score_of_fit, corrcoef_squared by assumption. reflexivity.
Qed.

Lemma sklearn_r_is_numpy_r_squared_witness :
  r (_linear_regression_sklearn xs ys)
  = r (_linear_regression_np xs ys) * r (_linear_regression_np xs ys).
Proof.
  apply (sklearn_r_is_numpy_r_squared xs ys);
    [reflexivity | simpl; lia | |];
    unfold center, mean, sum, smul, size, xs, ys; simpl; lra.
Defined.

End RegressionMore.

(** ** Order on the rationals *)

Module QcOrder.
Local Open Scope Qc_scope.

(** Order on [Qc] through the order on [Q]. *)
Ltac qc_arith :=
  unfold Qcle, Qclt, Qcdiv, Qcminus, Qcinv, Qcopp, Qcplus, Qcmult, Q2Qc in *;
  cbn [this] in *;
  repeat (setoid_rewrite Qred_correct);
  repeat match goal with
         | H : context [Qred _] |- _ => setoid_rewrite Qred_correct in H
         end;
  repeat match goal with
         | |- context [Qinv (Qmake ?n ?d)] =>
             let r := eval compute in (Qinv (Qmake n d)) in
             change (Qinv (Qmake n d)) with r
         end.

Lemma Qcle_div (a b lo : Qc) : 0 < b -> lo * b <= a -> lo <= a / b.
Proof.
  intros Hb H. apply Qcmult_lt_0_le_reg_r with b; [exact Hb|].
  rewrite test_field; [exact H|]. intros ->. discriminate Hb.
Qed.

Lemma Qcdiv_le (a b hi : Qc) : 0 < b -> a <= hi * b -> a / b <= hi.
Proof.
  intros Hb H. apply Qcmult_lt_0_le_reg_r with b; [exact Hb|].
  rewrite test_field; [exact H|]. intros ->. discriminate Hb.
Qed.

Lemma of_nat_S (n : nat) :
  Q2Qc (inject_Z (Z.of_nat (S n))) = Q2Qc (inject_Z (Z.of_nat n)) + 1.
Proof.
  rewrite Nat2Z.inj_succ. unfold Z.succ.
  apply Qc_is_canon. unfold Qcplus, Q2Qc. cbn [this].
  rewrite !Qred_correct, inject_Z_plus. reflexivity.
Qed.

Lemma of_nat_nonneg (n : nat) : 0 <= Q2Qc (inject_Z (Z.of_nat n)).
Proof.
  induction n as [|n IH]; [discriminate|].
  rewrite of_nat_S. revert IH. generalize (Q2Qc (inject_Z (Z.of_nat n))).
  intros q Hq. qc_arith. Lqa.lra.
Qed.

End QcOrder.

(** ** VWAP: the first row of a day, bounds, and the scale of the volume *)

Module VWAPMore.
Import TimeSeries VWAP VWAPFacts QcOrder.
Local Open Scope Qc_scope.

(** The rows of a run of [vwap] without offset. *)
Lemma vwap_rows (verify_series : Series -> option Series)
    (get_offset : option Z -> Z) (is_datetime_ordered : Series -> bool)
    (bars : list Bar) (offset : option Z) :
  (forall f, verify_series (column f bars) = Some (column f bars)) ->
  get_offset offset = 0%Z ->
  exists printed,
    vwap verify_series get_offset is_datetime_ordered
         (column bar_high bars) (column bar_low bars)
         (column bar_close bars) (column bar_volume bars) offset
    = (Ok {| data := imap (fun i b => (bar_time b, vwap_of_day bars i b)) bars;
             name := "VWAP";
             category := "overlap" |},
       printed).
Proof.
  intros Hv Hoff.
  unfold vwap, verified. rewrite !Hv. simpl. rewrite Hoff. simpl.
  eexists. f_equal. f_equal.
  rewrite hlc3_column, weighted_price_column, !groupby_cumsum_column.
  unfold sdiv. rewrite zip_with_imap. reflexivity.
Qed.

Lemma lookup_rows (bars : list Bar) (i : nat) (b : Bar) :
  bars !! i = Some b ->
  imap (fun i b => (bar_time b, vwap_of_day bars i b)) bars !! i
  = Some (bar_time b, vwap_of_day bars i b).
Proof. intros H. rewrite list_lookup_imap, H. reflexivity. Qed.

Lemma total_cons (f : Bar -> Qc) (b : Bar) (l : list Bar) :
  total f (b :: l) = f b + total f l.
Proof. reflexivity. Qed.

(** The rows of the day of [b] so far are among the rows up to [i]. *)
Lemma day_so_far_rows (bars : list Bar) (i : nat) (b b' : Bar) :
  b' ∈ day_so_far bars i b ->
  to_period_d (bar_time b') = to_period_d (bar_time b) /\
  exists j, (j <= i)%nat /\ bars !! j = Some b'.
Proof.
  unfold day_so_far. intros H. apply list_elem_of_filter in H as [Hday Hin].
  split; [exact Hday|].
  apply list_elem_of_lookup in Hin as [j Hj].
  apply lookup_take_Some in Hj as [Hj Hlt]. exists j. split; [lia | exact Hj].
Qed.

Lemma day_so_far_snoc (bars : list Bar) (i : nat) (b : Bar) :
  bars !! i = Some b ->
  day_so_far bars i b
  = filter (fun b' => to_period_d (bar_time b') = to_period_d (bar_time b))
           (take i bars) ++ [b].
Proof.
  intros Hb. unfold day_so_far.
  rewrite (take_S_r bars i b Hb), filter_app.
  now rewrite (filter_cons_True _ b []) by reflexivity.
Qed.

Lemma total_app (f : Bar -> Qc) (l k : list Bar) :
  total f (l ++ k) = total f l + total f k.
Proof.
  induction l as [|b l IH]; [simpl; ring|].
  cbn [app]. rewrite !total_cons, IH. ring.
Qed.

Lemma filter_none {A} (P : A -> Prop) `{forall x, Decision (P x)} (l : list A) :
  (forall x, x ∈ l -> ~ P x) -> filter P l = [].
Proof.
  induction l as [|a l IH]; intros Hl; [reflexivity|].
  rewrite filter_cons_False by (apply Hl, elem_of_cons; now left).
  apply IH. intros x Hx. apply Hl, elem_of_cons. now right.
Qed.

(** X17.  The sums start afresh with every calendar day: at the first row
    of a day the value is the typical price of that row, or NaN when the
    volume of that row is zero. *)
Theorem vwap_first_row_of_day :
  forall (verify_series : Series -> option Series)
         (get_offset : option Z -> Z)
         (is_datetime_ordered : Series -> bool)
         (bars : list Bar) (offset : option Z) (i : nat) (b : Bar),
    (forall f, verify_series (column f bars) = Some (column f bars)) ->
    get_offset offset = 0%Z ->
    bars !! i = Some b ->
    (forall j b', (j < i)%nat -> bars !! j = Some b' ->
                  to_period_d (bar_time b') <> to_period_d (bar_time b)) ->
    exists out printed,
      vwap verify_series get_offset is_datetime_ordered
           (column bar_high bars) (column bar_low bars)
           (column bar_close bars) (column bar_volume bars) offset
      = (Ok out, printed) /\
      data out !! i
      = Some (bar_time b,
              if decide (bar_volume b = 0) then None
              else Some (typical_price b)).
Proof.
  intros verify_series get_offset ordered bars offset i b Hv Hoff Hb Hfirst.
  destruct (vwap_rows verify_series get_offset ordered bars offset Hv Hoff)
    as [printed Hrun].
  eexists. exists printed. split; [exact Hrun|].
  cbn [data]. refine (eq_trans (lookup_rows bars i b Hb) _). do 2 f_equal.
  unfold vwap_of_day. rewrite (day_so_far_snoc bars i b Hb).
  rewrite filter_none.
  - cbn [app]. rewrite !total_cons. cbn [total foldr]. unfold fdiv.
    replace (bar_volume b + 0) with (bar_volume b) by ring.
    destruct (decide (bar_volume b = 0)) as [E | E]; [reflexivity|].
    f_equal. field. exact E.
  - intros b' Hin. apply list_elem_of_lookup in Hin as [j Hj].
    apply lookup_take_Some in Hj as [Hj Hlt]. now apply (Hfirst j).
Qed.

Lemma vwap_first_row_of_day_witness :
  exists out printed,
    vwap (fun s => Some s) (fun o => default 0%Z o) (fun _ => true)
         (column bar_high sample_bars) (column bar_low sample_bars)
         (column bar_close sample_bars) (column bar_volume sample_bars) None
    = (Ok out, printed) /\
    data out !! 2%nat = Some (86400000000000%Z, Some (Q2Qc 9)).
Proof.
  destruct (vwap_first_row_of_day
              (fun s => Some s) (fun o => default 0%Z o) (fun _ => true)
              sample_bars None 2
              (mkBar 86400000000000%Z (Q2Qc 9) (Q2Qc 9) (Q2Qc 9) (Q2Qc 5)))
    as (out & printed & Hrun & Hrow).
  - reflexivity.
  - reflexivity.
  - reflexivity.
  - intros j b' Hj Hb'.
    destruct j as [|[|j]]; [| |lia]; injection Hb' as <-; discriminate.
  - exists out, printed. split; [exact Hrun|].
    refine (eq_trans Hrow _). f_equal. f_equal. compute_done.
Defined.

Lemma weighted_sum_bounds (lo hi : Qc) (l : list Bar) :
  Forall (fun b => 0 < bar_volume b /\ lo <= typical_price b
                   /\ typical_price b <= hi) l ->
  0 <= total bar_volume l /\
  lo * total bar_volume l
  <= total (fun b => typical_price b * bar_volume b) l /\
  total (fun b => typical_price b * bar_volume b) l
  <= hi * total bar_volume l.
Proof.
  induction 1 as [|b l (Hv & Hlo & Hhi) _ (IH0 & IHlo & IHhi)].
  - cbn [total foldr]. repeat split; qc_arith; Lqa.lra.
  - rewrite !total_cons.
    generalize dependent (total bar_volume l).
    generalize (total (fun b => typical_price b * bar_volume b) l).
    generalize dependent (typical_price b). generalize dependent (bar_volume b).
    intros v Hv tp Hlo Hhi S T H0 Hl Hh.
    repeat split; qc_arith; Lqa.nra.
Qed.

Lemma typical_price_bounds (lo hi : Qc) (b : Bar) :
  lo <= bar_low b -> lo <= bar_close b -> lo <= bar_high b ->
  bar_low b <= hi -> bar_close b <= hi -> bar_high b <= hi ->
  lo <= typical_price b /\ typical_price b <= hi.
Proof.
  unfold typical_price.
  generalize (bar_low b), (bar_close b), (bar_high b). intros l c h.
  intros. split; qc_arith; Lqa.lra.
Qed.

(** X18.  When the rows of a day up to some row all have a positive volume
    and prices (high, low and close) between [lo] and [hi], the value at
    that row is no NaN and, in exact arithmetic, a number between [lo] and
    [hi] (in floats it may leave the interval by a rounding error). *)
Theorem vwap_within_price_range :
  forall (verify_series : Series -> option Series)
         (get_offset : option Z -> Z)
         (is_datetime_ordered : Series -> bool)
         (bars : list Bar) (offset : option Z) (i : nat) (b : Bar)
         (lo hi : Qc),
    (forall f, verify_series (column f bars) = Some (column f bars)) ->
    get_offset offset = 0%Z ->
    bars !! i = Some b ->
    (forall j b', (j <= i)%nat -> bars !! j = Some b' ->
                  to_period_d (bar_time b') = to_period_d (bar_time b) ->
                  0 < bar_volume b' /\
                  (lo <= bar_low b' /\ lo <= bar_close b'
                   /\ lo <= bar_high b') /\
                  (bar_low b' <= hi /\ bar_close b' <= hi
                   /\ bar_high b' <= hi)) ->
    exists out printed v,
      vwap verify_series get_offset is_datetime_ordered
           (column bar_high bars) (column bar_low bars)
           (column bar_close bars) (column bar_volume bars) offset
      = (Ok out, printed) /\
      data out !! i = Some (bar_time b, Some v) /\
      lo <= v /\ v <= hi.
Proof.
  intros verify_series get_offset ordered bars offset i b lo hi
         Hv Hoff Hb Hday.
  destruct (vwap_rows verify_series get_offset ordered bars offset Hv Hoff)
    as [printed Hrun].
  assert (Hall : Forall (fun b' => 0 < bar_volume b' /\ lo <= typical_price b'
                                   /\ typical_price b' <= hi)
                        (day_so_far bars i b)).
  { apply Forall_forall. intros b' Hin.
    apply day_so_far_rows in Hin as (Hsame & j & Hj & Hb').
    destruct (Hday j b' Hj Hb' Hsame) as (Hpos & (? & ? & ?) & (? & ? & ?)).
    split; [exact Hpos|]. now apply typical_price_bounds. }
  destruct (weighted_sum_bounds lo hi _ Hall) as (H0 & Hlo & Hhi).
  assert (Hpos : 0 < total bar_volume (day_so_far bars i b)).
  { rewrite (day_so_far_snoc bars i b Hb) in Hall |- *.
    apply Forall_app in Hall as [Hbefore Hlast].
    destruct (weighted_sum_bounds lo hi _ Hbefore) as (Hb0 & _ & _).
    apply Forall_cons in Hlast as [(Hvb & _) _].
    rewrite total_app, total_cons. cbn [total foldr].
    revert Hb0 Hvb. generalize (bar_volume b).
    generalize (total bar_volume
                  (filter (fun b' => to_period_d (bar_time b')
                                     = to_period_d (bar_time b))
                          (take i bars))).
    intros T v HT Hvb. qc_arith. Lqa.lra. }
  eexists. exists printed.
  exists (total (fun b' => typical_price b' * bar_volume b')
                (day_so_far bars i b)
          / total bar_volume (day_so_far bars i b)).
  split; [exact Hrun|]. cbn [data].
  split.
  - refine (eq_trans (lookup_rows bars i b Hb) _). do 2 f_equal. unfold vwap_of_day, fdiv.
    rewrite decide_False; [reflexivity|].
    intros E. rewrite E in Hpos. discriminate Hpos.
  - split; [now apply Qcle_div | now apply Qcdiv_le].
Qed.

Lemma vwap_within_price_range_witness :
  exists out printed v,
    vwap (fun s => Some s) (fun o => default 0%Z o) (fun _ => true)
         (column bar_high sample_bars) (column bar_low sample_bars)
         (column bar_close sample_bars) (column bar_volume sample_bars) None
    = (Ok out, printed) /\
    data out !! 1%nat = Some (3600000000000%Z, Some v) /\
    Q2Qc 1 <= v /\ v <= Q2Qc 6.
Proof.
  apply (vwap_within_price_range
           (fun s => Some s) (fun o => default 0%Z o) (fun _ => true)
           sample_bars None 1
           (mkBar 3600000000000%Z (Q2Qc 6) (Q2Qc 4) (Q2Qc 5) (Q2Qc 30))
           (Q2Qc 1) (Q2Qc 6)); try reflexivity.
  intros j b' Hj Hb' _.
  destruct j as [|[|j]]; [| |lia]; injection Hb' as <-;
    repeat split; compute_done.
Defined.

(** *** Scaling the volume *)

Lemma column_map (f : Bar -> Qc) (g : Bar -> Bar) (bars : list Bar) :
  (forall b, bar_time (g b) = bar_time b) ->
  column f (map g bars) = column (fun b => f (g b)) bars.
Proof.
  intros Hg. unfold column. rewrite map_map. apply map_ext.
  intros b. now rewrite Hg.
Qed.

Lemma total_map (f : Bar -> Qc) (g : Bar -> Bar) (l : list Bar) :
  total f (map g l) = total (fun b => f (g b)) l.
Proof. induction l as [|b l IH]; [reflexivity|]. simpl. now rewrite IH. Qed.

Lemma total_scale (k : Qc) (f : Bar -> Qc) (l : list Bar) :
  total (fun b => k * f b) l = k * total f l.
Proof.
  induction l as [|b l IH]; [simpl; ring|].
  rewrite !total_cons, IH. ring.
Qed.

Lemma total_ext (f g : Bar -> Qc) (l : list Bar) :
  (forall b, f b = g b) -> total f l = total g l.
Proof.
  intros H. induction l as [|b l IH]; [reflexivity|].
  now rewrite !total_cons, IH, H.
Qed.

Lemma day_so_far_map (g : Bar -> Bar) (bars : list Bar) (i : nat) (b : Bar) :
  (forall b, bar_time (g b) = bar_time b) ->
  day_so_far (map g bars) i (g b) = map g (day_so_far bars i b).
Proof.
  intros Hg. unfold day_so_far. rewrite <- fmap_take, (Hg b).
  generalize (take (S i) bars). intros l.
  induction l as [|a l IH]; [reflexivity|].
  cbn [fmap list_fmap]. rewrite !filter_cons, (Hg a).
  destruct (decide (to_period_d (bar_time a) = to_period_d (bar_time b)));
    [cbn [map]; f_equal|]; exact IH.
Qed.

Lemma fdiv_scale (k a b : Qc) : k <> 0 -> fdiv (k * a) (k * b) = fdiv a b.
Proof.
  intros Hk. unfold fdiv.
  destruct (decide (b = 0)) as [-> | Hb].
  - rewrite decide_True by ring. reflexivity.
  - rewrite decide_False.
    + f_equal. field. split; assumption.
    + intros E. apply Qcmult_integral in E as [E | E]; contradiction.
Qed.

(** X19.  The value depends on the volumes only through their ratios:
    multiplying every volume by one non-zero factor [k] changes no row of
    the result. *)
Theorem vwap_invariant_under_volume_scale :
  forall (verify_series : Series -> option Series)
         (get_offset : option Z -> Z)
         (is_datetime_ordered : Series -> bool)
         (bars : list Bar) (offset : option Z) (k : Qc),
    (forall f, verify_series (column f bars) = Some (column f bars)) ->
    get_offset offset = 0%Z ->
    k <> 0 ->
    fst (vwap verify_series get_offset is_datetime_ordered
              (column bar_high bars) (column bar_low bars)
              (column bar_close bars)
              (column (fun b => k * bar_volume b) bars) offset)
    = fst (vwap verify_series get_offset is_datetime_ordered
                (column bar_high bars) (column bar_low bars)
                (column bar_close bars) (column bar_volume bars) offset).
Proof.
  intros verify_series get_offset ordered bars offset k Hv Hoff Hk.
  set (g := fun b => mkBar (bar_time b) (bar_high b) (bar_low b)
                           (bar_close b) (k * bar_volume b)).
  assert (Hg : forall b, bar_time (g b) = bar_time b) by reflexivity.
  destruct (vwap_rows verify_series get_offset ordered bars offset Hv Hoff)
    as [printed ->].
  destruct (vwap_rows verify_series get_offset ordered (map g bars) offset)
    as [printed' Hrun]; [| exact Hoff |].
  { intros f. rewrite (column_map f g bars Hg). apply Hv. }
  rewrite !(column_map _ g bars Hg) in Hrun. cbn [g bar_high bar_low
    bar_close bar_volume] in Hrun.
  change (column (fun b => bar_high b) bars) with (column bar_high bars) in Hrun.
  change (column (fun b => bar_low b) bars) with (column bar_low bars) in Hrun.
  change (column (fun b => bar_close b) bars)
    with (column bar_close bars) in Hrun.
  rewrite Hrun. cbn [fst]. do 2 f_equal.
  rewrite imap_fmap. apply imap_ext. intros i b Hb. cbn [compose].
  rewrite Hg. f_equal. unfold vwap_of_day.
  rewrite (day_so_far_map g bars i b Hg), !total_map.
  rewrite (total_ext (fun b0 => typical_price (g b0) * bar_volume (g b0))
                     (fun b0 => k * (typical_price b0 * bar_volume b0)))
    by (intros b0; unfold typical_price, g; cbn; ring).
  change (fun b0 => bar_volume (g b0)) with (fun b0 => k * bar_volume b0).
  rewrite !total_scale. now apply fdiv_scale.
Qed.

Lemma vwap_invariant_under_volume_scale_witness :
  fst (vwap (fun s => Some s) (fun o => default 0%Z o) (fun _ => true)
            (column bar_high sample_bars) (column bar_low sample_bars)
            (column bar_close sample_bars)
            (column (fun b => Q2Qc 100 * bar_volume b) sample_bars) None)
  = fst (vwap (fun s => Some s) (fun o => default 0%Z o) (fun _ => true)
              (column bar_high sample_bars) (column bar_low sample_bars)
              (column bar_close sample_bars)
              (column bar_volume sample_bars) None).
Proof.
  apply (vwap_invariant_under_volume_scale
           (fun s => Some s) (fun o => default 0%Z o) (fun _ => true)
           sample_bars None (Q2Qc 100)); [reflexivity | reflexivity |].
  discriminate.
Defined.

End VWAPMore.

(** ** Volume Profile: the prices of the chronological buckets *)

Module VPMore.
Import VP VPPrices VPFacts QcOrder.
Local Open Scope Qc_scope.

Lemma qmin_le (a b : Qc) : qmin a b <= a /\ qmin a b <= b.
Proof.
  unfold qmin. destruct (decide (a <= b)) as [H | H].
  - split; [apply Qcle_refl | exact H].
  - split; [apply Qclt_le_weak, Qcnot_le_lt, H | apply Qcle_refl].
Qed.

Lemma qmax_ge (a b : Qc) : a <= qmax a b /\ b <= qmax a b.
Proof.
  unfold qmax. destruct (decide (a <= b)) as [H | H].
  - split; [exact H | apply Qcle_refl].
  - split; [apply Qcle_refl | apply Qclt_le_weak, Qcnot_le_lt, H].
Qed.

Lemma foldr_qmin_lower (c : Qc) (s : Series) :
  Forall (fun x => foldr qmin c s <= x) (c :: s).
Proof.
  induction s as [|x s IH]; [repeat constructor; apply Qcle_refl|].
  cbn [foldr]. destruct (qmin_le x (foldr qmin c s)) as [Hx Hrest].
  apply Forall_cons in IH as [Hc Hs].
  repeat apply Forall_cons_2.
  - eapply Qcle_trans; [exact Hrest | exact Hc].
  - exact Hx.
  - eapply Forall_impl; [exact Hs|]. intros y Hy. cbn beta in *.
    eapply Qcle_trans; [exact Hrest | exact Hy].
Qed.

Lemma foldr_qmax_upper (c : Qc) (s : Series) :
  Forall (fun x => x <= foldr qmax c s) (c :: s).
Proof.
  induction s as [|x s IH]; [repeat constructor; apply Qcle_refl|].
  cbn [foldr]. destruct (qmax_ge x (foldr qmax c s)) as [Hx Hrest].
  apply Forall_cons in IH as [Hc Hs].
  repeat apply Forall_cons_2.
  - eapply Qcle_trans; [exact Hc | exact Hrest].
  - exact Hx.
  - eapply Forall_impl; [exact Hs|]. intros y Hy. cbn beta in *.
    eapply Qcle_trans; [exact Hy | exact Hrest].
Qed.

Lemma sum_between (lo hi : Qc) (s : Series) :
  Forall (fun x => lo <= x) s -> Forall (fun x => x <= hi) s ->
  lo * Q2Qc (inject_Z (Z.of_nat (length s))) <= foldr Qcplus 0 s /\
  foldr Qcplus 0 s <= hi * Q2Qc (inject_Z (Z.of_nat (length s))).
Proof.
  induction s as [|x s IH]; intros Hlo Hhi.
  - cbn [length foldr]. change (Q2Qc (inject_Z (Z.of_nat 0))) with 0.
    split; qc_arith; Lqa.lra.
  - apply Forall_cons in Hlo as [Hx Hlo]. apply Forall_cons in Hhi as [Hx' Hhi].
    destruct (IH Hlo Hhi) as [IH1 IH2].
    cbn [length foldr]. rewrite of_nat_S.
    revert IH1 IH2. generalize (Q2Qc (inject_Z (Z.of_nat (length s)))).
    generalize (foldr Qcplus 0 s). intros S N IH1 IH2.
    split; qc_arith; Lqa.lra.
Qed.

(** On a series that is not empty the three reductions are numbers, the
    mean between the minimum and the maximum. *)
Lemma prices_ordered (s : Series) :
  s <> [] ->
  exists l m h, smin s = Some l /\ smean s = Some m /\ smax s = Some h /\
                l <= m /\ m <= h.
Proof.
  destruct s as [|c s]; [contradiction|]. intros _.
  exists (foldr qmin c s),
         (foldr Qcplus 0 (c :: s)
          / Q2Qc (inject_Z (Z.of_nat (length (c :: s))))),
         (foldr qmax c s).
  split; [reflexivity|]. split; [reflexivity|]. split; [reflexivity|].
  destruct (sum_between (foldr qmin c s) (foldr qmax c s) (c :: s)
              (foldr_qmin_lower c s) (foldr_qmax_upper c s)) as [Hlo Hhi].
  assert (Hpos : 0 < Q2Qc (inject_Z (Z.of_nat (length (c :: s))))).
  { cbn [length]. rewrite of_nat_S. pose proof (of_nat_nonneg (length s)) as H.
    revert H. generalize (Q2Qc (inject_Z (Z.of_nat (length s)))).
    intros q Hq. qc_arith. Lqa.lra. }
  split; [now apply Qcle_div | now apply Qcdiv_le].
Qed.

Lemma range_bucket_priced (r : list Row) : r <> [] -> priced (range_bucket r).
Proof.
  intros Hr. unfold priced, range_bucket.
  cbn [low_close mean_close high_close].
  apply prices_ordered. destruct r; [contradiction | discriminate].
Qed.

(** The fills change no bucket whose prices are numbers. *)
Lemma fill_value_priced (v : Qc) (l : list Bucket) :
  Forall priced l -> map (fill_value v) l = l.
Proof.
  induction 1 as [|b l (lo & m & h & Hl & Hm & Hh & _) _ IH]; [reflexivity|].
  cbn [map]. rewrite IH. f_equal.
  destruct b as [bl bm bh p n t]. cbn in *. subst. reflexivity.
Qed.

Lemma fill_forward_priced (last : Bucket) (l : list Bucket) :
  Forall priced l -> fill_forward last l = l.
Proof.
  intros H. revert last.
  induction H as [|b l (lo & m & h & Hl & Hm & Hh & _) _ IH]; intros last;
    [reflexivity|].
  cbn [fill_forward].
  assert (E : {| low_close := or_else (low_close b) (low_close last);
                 mean_close := or_else (mean_close b) (mean_close last);
                 high_close := or_else (high_close b) (high_close last);
                 pos_volume := pos_volume b;
                 neg_volume := neg_volume b;
                 total_volume := total_volume b |} = b).
  { destruct b as [bl bm bh p n t]. cbn in *. subst. reflexivity. }
  rewrite E, IH. reflexivity.
Qed.

Lemma fill_method_priced (m : FillMethod) (l : list Bucket) :
  Forall priced l -> fill_method m l = l.
Proof.
  intros H. destruct m; cbn [fill_method].
  - now apply fill_forward_priced.
  - rewrite fill_forward_priced by now apply Forall_rev.
    apply rev_involutive.
Qed.

(** The sections of [array_split] have the sizes of [section_sizes]. *)
Lemma reshape_lengths {A} (sizes : list nat) (l : list A) :
  (sum_list sizes <= length l)%nat ->
  map length (reshape sizes l) = sizes.
Proof.
  revert l. induction sizes as [|n sizes IH]; intros l Hl; [reflexivity|].
  cbn [reshape map]. change (sum_list (n :: sizes))
    with (n + sum_list sizes)%nat in Hl.
  rewrite IH by (rewrite length_drop; lia).
  f_equal. rewrite length_take. lia.
Qed.

Lemma array_split_nonempty {A} (l : list A) (sections : nat) :
  (0 < sections <= length l)%nat ->
  Forall (fun r => r <> []) (array_split l sections).
Proof.
  intros [H0 Hle].
  assert (Hsizes : map length (array_split l sections)
                   = section_sizes (length l) sections).
  { unfold array_split. apply reshape_lengths.
    rewrite section_sizes_sum by exact H0. lia. }
  assert (Hq : (1 <= length l / sections)%nat).
  { apply Nat.div_le_lower_bound; lia. }
  apply Forall_forall. intros r Hr ->.
  apply (list_elem_of_fmap_2 length) in Hr.
  change (length <$> array_split l sections)
    with (map length (array_split l sections)) in Hr.
  rewrite Hsizes in Hr.
  unfold section_sizes in Hr. cbn [length] in Hr.
  apply elem_of_app in Hr as [Hr | Hr];
    apply elem_of_replicate in Hr as [Hr _]; lia.
Qed.

(** The frame that a chronological run returns. *)
Lemma vp_chronological (verify_series : Series -> Z -> option Series)
    (cut : Series -> Z -> list (Qc * Qc) * list nat)
    (close volume : Series) (width : option Z) (kwargs : Kwargs) :
  kw_sort_close kwargs = false ->
  verify_series close (width_arg width) = Some close ->
  verify_series volume (width_arg width) = Some volume ->
  vp verify_series cut close volume width kwargs
  = Some {| rows :=
              let vpdf :=
                map range_bucket
                    (array_split (map row_of (inputs close volume))
                                 (Z.to_nat (width_arg width))) in
              let vpdf := match kw_fillna kwargs with
                          | Some v => map (fill_value v) vpdf
                          | None => vpdf
                          end in
              match kw_fill_method kwargs with
              | Some m => fill_method m vpdf
              | None => vpdf
              end;
            name := vp_name (width_arg width);
            category := "volume" |}.
Proof.
  intros Hmode Hc Hv. unfold vp. rewrite Hc, Hv, Hmode.
  rewrite signed_series_directions, frame_rows.
  fold (inputs close volume). reflexivity.
Qed.

Lemma inputs_length (close volume : Series) :
  length close = length volume ->
  length (inputs close volume) = length close.
Proof.
  intros H. unfold inputs, Input.
  rewrite !length_combine, directions_length. lia.
Qed.

(** X20.  In chronological mode, on at least [width] rows, every bucket
    has a low, a mean and a high price that are numbers and not NaN,
    whatever fill is asked for, with [low <= mean <= high] in exact
    arithmetic (the mean of floats may leave the interval by a rounding
    error). *)
Theorem vp_chronological_prices_ordered :
  forall (verify_series : Series -> Z -> option Series)
         (cut : Series -> Z -> list (Qc * Qc) * list nat)
         (close volume : Series) (width : option Z) (kwargs : Kwargs),
    kw_sort_close kwargs = false ->
    verify_series close (width_arg width) = Some close ->
    verify_series volume (width_arg width) = Some volume ->
    length close = length volume ->
    (Z.to_nat (width_arg width) <= length close)%nat ->
    exists frame,
      vp verify_series cut close volume width kwargs = Some frame /\
      length (rows frame) = Z.to_nat (width_arg width) /\
      Forall priced (rows frame).
Proof.
  intros verify_series cut close volume width kwargs Hmode Hc Hv Hlen Hw.
  eexists. split; [now apply vp_chronological|]. cbn [rows].
  pose proof (width_arg_pos width) as Hpos.
  set (ranges := array_split (map row_of (inputs close volume))
                             (Z.to_nat (width_arg width))).
  assert (Hpriced : Forall priced (map range_bucket ranges)).
  { apply Forall_map.
    eapply Forall_impl;
      [apply array_split_nonempty | intros r Hr; now apply range_bucket_priced].
    rewrite length_map, inputs_length by exact Hlen. lia. }
  assert (Hsame :
    match kw_fill_method kwargs with
    | Some m =>
        fill_method m
          match kw_fillna kwargs with
          | Some v => map (fill_value v) (map range_bucket ranges)
          | None => map range_bucket ranges
          end
    | None =>
        match kw_fillna kwargs with
        | Some v => map (fill_value v) (map range_bucket ranges)
        | None => map range_bucket ranges
        end
    end = map range_bucket ranges).
  { destruct (kw_fill_method kwargs), (kw_fillna kwargs);
      rewrite ?fill_value_priced, ?fill_method_priced by exact Hpriced;
      reflexivity. }
  cbv zeta. rewrite Hsame. split; [|exact Hpriced].
  unfold ranges. rewrite length_map. now apply array_split_length.
Qed.

Lemma vp_chronological_prices_ordered_witness :
  exists frame,
    vp verify_any cut_unused sample_close sample_volume (Some 2%Z) no_kwargs
    = Some frame /\
    length (rows frame) = 2%nat /\
    Forall priced (rows frame).
Proof.
  apply (vp_chronological_prices_ordered verify_any cut_unused
           sample_close sample_volume (Some 2%Z) no_kwargs);
    try reflexivity.
  simpl. lia.
Defined.

End VPMore.

(** ** The accessor: construction, constants, listing and the wrappers *)

Module CoreMore.
Import Core CoreMethods CoreFacts.
Local Open Scope string_scope.

(** *** [BasePandasObject.__init__] *)

(** X22.  [__init__] never raises: a frame without columns is empty, so
    the method has returned before the test that guards the
    [AttributeError], and the attribute [_df] is set exactly when the frame
    has a row and a column. *)
Theorem init_never_raises :
  forall df : DataFrame,
    __init__ df
    = Ok (if (0 <? length (df_index df))%nat && (0 <? length (columns df))%nat
          then Some df else None).
Proof.
  intros df. unfold __init__, empty.
  destruct (length (df_index df)) as [|n], (length (columns df)) as [|m];
    reflexivity.
Qed.

(** *** [constants] *)

Lemma elem_of_range_up (a b x : Z) :
  x ∈ Math.range_up a b <-> (a <= x < b)%Z.
Proof.
  unfold Math.range_up.
  change (map (fun k => (a + Z.of_nat k)%Z) (seq 0 (Z.to_nat (b - a))))
    with ((fun k => (a + Z.of_nat k)%Z) <$> seq 0 (Z.to_nat (b - a))).
  rewrite list_elem_of_fmap. split.
  - intros (k & -> & Hk). apply elem_of_seq in Hk. lia.
  - intros H. exists (Z.to_nat (x - a)). split; [lia|].
    apply elem_of_seq. lia.
Qed.

Lemma NoDup_range_up (a b : Z) : NoDup (Math.range_up a b).
Proof.
  unfold Math.range_up.
  change (map (fun k => (a + Z.of_nat k)%Z) (seq 0 (Z.to_nat (b - a))))
    with ((fun k => (a + Z.of_nat k)%Z) <$> seq 0 (Z.to_nat (b - a))).
  apply NoDup_fmap_2; [intros x y H; lia | apply NoDup_seq].
Qed.

Lemma levels_ok (lower_bound upper_bound every : Z) :
  every <> 0%Z ->
  levels lower_bound upper_bound every
  = Ok (filter (fun x => (x mod every)%Z = 0%Z)
               (Math.range_up lower_bound (upper_bound + 1))).
Proof.
  intros H. unfold levels.
  destruct (Math.range_up lower_bound (upper_bound + 1)) as [|x xs];
    [reflexivity|].
  destruct (Z.eqb_spec every 0); [contradiction | reflexivity].
Qed.

Lemma set_column_fresh (cols : list (string * list Cell)) (name : string)
    (col : list Cell) :
  name ∉ map fst cols -> set_column cols name col = (cols ++ [(name, col)])%list.
Proof.
  intros H. unfold set_column. now rewrite bool_decide_eq_false_2.
Qed.

Lemma filter_all {A} (P : A -> Prop) `{forall x, Decision (P x)} (l : list A) :
  (forall x, x ∈ l -> P x) -> filter P l = l.
Proof.
  induction l as [|a l IH]; intros Hl; [reflexivity|].
  rewrite filter_cons_True by (apply Hl, elem_of_cons; now left).
  f_equal. apply IH. intros x Hx. apply Hl, elem_of_cons. now right.
Qed.

Lemma apply_run (xs : list Z) (idx : list Label)
    (cols : list (string * list Cell)) (out : stdout) :
  NoDup (map pretty xs : list string) ->
  (forall x, x ∈ xs -> pretty x ∉ map fst cols) ->
  for_each xs set_constant (mkState (Some (mkDataFrame idx cols)) out)
  = (Ok tt,
     mkState (Some (mkDataFrame idx (cols ++ map (constant_column idx) xs))) out).
Proof.
  revert cols. induction xs as [|x xs IH]; intros cols Hnd Hfresh.
  - cbn [for_each map]. now rewrite app_nil_r.
  - cbn [map] in Hnd. apply NoDup_cons in Hnd as [Hx Hnd].
    cbn [for_each]. unfold mbind, M_bind.
    unfold set_constant at 1. unfold mbind, M_bind, get_df, put_df.
    cbn [_df printed]. unfold setitem_scalar. cbn [df_index df_columns].
    rewrite set_column_fresh by (apply Hfresh, elem_of_cons; now left).
    rewrite IH.
    + cbn [map]. now rewrite <- app_assoc.
    + exact Hnd.
    + intros y Hy. rewrite map_app. cbn [map fst].
      rewrite elem_of_app, list_elem_of_singleton. intros [Hin | Heq].
      * revert Hin. apply Hfresh, elem_of_cons. now right.
      * apply Hx. rewrite <- Heq.
        apply (list_elem_of_fmap_2 pretty), Hy.
Qed.

Lemma remove_run (xs : list Z) (idx : list Label)
    (cols : list (string * list Cell)) (out : stdout) :
  NoDup (map pretty xs : list string) ->
  (forall x, x ∈ xs -> pretty x ∉ map fst cols) ->
  for_each xs del_constant
    (mkState (Some (mkDataFrame idx (cols ++ map (constant_column idx) xs))) out)
  = (Ok tt, mkState (Some (mkDataFrame idx cols)) out).
Proof.
  induction xs as [|x xs IH]; intros Hnd Hfresh.
  - cbn [for_each map]. now rewrite app_nil_r.
  - cbn [map] in Hnd. apply NoDup_cons in Hnd as [Hx Hnd].
    cbn [for_each]. unfold mbind, M_bind.
    unfold del_constant at 1. unfold mbind, M_bind, get_df, put_df, lift.
    cbn [_df printed]. unfold delitem, columns. cbn [df_index df_columns].
    rewrite bool_decide_eq_true_2.
    2:{ rewrite map_app. cbn [map fst]. apply elem_of_app. right.
        apply elem_of_cons. now left. }
    cbn [map]. rewrite filter_app, filter_cons_False by (cbn; tauto).
    rewrite (filter_all _ cols).
    2:{ intros [n c] Hin Heq. cbn in Heq. subst n.
        apply (Hfresh x); [apply elem_of_cons; now left|].
        apply (list_elem_of_fmap_2 fst) in Hin. exact Hin. }
    rewrite (filter_all _ (map _ xs)).
    2:{ intros [n c] Hin Heq. cbn in Heq. subst n.
        apply list_elem_of_fmap in Hin as (y & Hy & Hin).
        injection Hy as Hy _. apply Hx. rewrite Hy.
        apply (list_elem_of_fmap_2 pretty), Hin. }
    apply IH; [exact Hnd|].
    intros y Hy. apply Hfresh, elem_of_cons. now right.
Qed.

(** X23.  Adding a range of constants and removing the same range gives
    the frame back as it was, when [every] is not zero and no column of the
    frame has the name of a constant of the range. *)
Theorem constants_round_trip :
  forall (st : State) (df : DataFrame) (lower_bound upper_bound every : Z),
    _df st = Some df ->
    every <> 0%Z ->
    (forall x, (lower_bound <= x <= upper_bound)%Z -> (x mod every)%Z = 0%Z ->
               pretty x ∉ columns df) ->
    (_ ← constants true lower_bound upper_bound every;
     constants false lower_bound upper_bound every) st
    = (Ok tt, st).
Proof.
  intros [d out] [idx cols] lower_bound upper_bound every Hdf Hevery Hfresh.
  cbn [_df] in Hdf. subst d.
  unfold constants. rewrite levels_ok by exact Hevery.
  set (xs := filter (fun x => (x mod every)%Z = 0%Z)
                    (Math.range_up lower_bound (upper_bound + 1))).
  assert (Hnd : NoDup (map pretty xs : list string)).
  { apply (NoDup_fmap_2 pretty), NoDup_filter, NoDup_range_up. }
  assert (Hxs : forall x, x ∈ xs -> pretty x ∉ map fst cols).
  { intros x Hx. apply list_elem_of_filter in Hx as [Hmod Hin].
    apply elem_of_range_up in Hin. apply (Hfresh x); [lia | exact Hmod]. }
  unfold mbind, M_bind, lift. cbn iota.
  rewrite (apply_run xs idx cols out Hnd Hxs).
  apply (remove_run xs idx cols out Hnd Hxs).
Qed.

Lemma constants_round_trip_witness :
  (_ ← constants true (-1) 1 2; constants false (-1) 1 2) sample_state
  = (Ok tt, sample_state).
Proof.
  apply (constants_round_trip sample_state sample_df (-1) 1 2);
    [reflexivity | lia |].
  intros x Hx Hmod.
  assert (Hcases : x = (-1)%Z \/ x = 0%Z \/ x = 1%Z) by lia.
  destruct Hcases as [-> | [-> | ->]]; compute_done.
Defined.

(** X24.  A step [every] of zero raises [ZeroDivisionError] as soon as
    the range holds a number, and an empty range does nothing at all,
    whatever the step; the frame is as it was in both cases. *)
Theorem constants_zero_step_and_empty_range :
  forall (st : State) (apply : bool) (lower_bound upper_bound every : Z),
    ((lower_bound <= upper_bound)%Z ->
     constants apply lower_bound upper_bound 0 st
     = (Raise ZeroDivisionError, st)) /\
    ((upper_bound < lower_bound)%Z ->
     constants apply lower_bound upper_bound every st = (Ok tt, st)).
Proof.
  intros st apply lower_bound upper_bound every. split; intros H.
  - unfold constants, levels.
    destruct (Math.range_up lower_bound (upper_bound + 1)) as [|x xs] eqn:E.
    + exfalso. assert (Hin : lower_bound ∈ Math.range_up lower_bound
                                            (upper_bound + 1))
        by (apply elem_of_range_up; lia).
      rewrite E in Hin. inversion Hin.
    + reflexivity.
  - unfold constants, levels, Math.range_up.
    replace (Z.to_nat (upper_bound + 1 - lower_bound)) with 0%nat by lia.
    now destruct apply.
Qed.

Lemma constants_zero_step_and_empty_range_witness :
  constants true 1 3 0 sample_state = (Raise ZeroDivisionError, sample_state)
  /\ constants false 3 1 0 sample_state = (Ok tt, sample_state).
Proof.
  split.
  - apply (constants_zero_step_and_empty_range sample_state true 1 3 0). lia.
  - apply (constants_zero_step_and_empty_range sample_state false 3 1 0). lia.
Defined.

Lemma delitem_missing (df : DataFrame) (name : string) :
  name ∉ columns df -> delitem df name = Raise (KeyError name).
Proof. intros H. unfold delitem. now rewrite bool_decide_eq_false_2. Qed.

Lemma delitem_present (df : DataFrame) (name : string) :
  name ∈ columns df ->
  delitem df name
  = Ok {| df_index := df_index df;
          df_columns := filter (fun c => fst c <> name) (df_columns df) |}.
Proof. intros H. unfold delitem. now rewrite bool_decide_eq_true_2. Qed.

Lemma bind_run {A B} (m : M A) (k : A -> M B) (st : State) :
  (m ≫= k) st
  = match m st with
    | (Ok a, st') => k a st'
    | (Raise e, st') => (Raise e, st')
    end.
Proof. reflexivity. Qed.

Lemma del_constant_run (x : Z) (df : DataFrame) (out : stdout) :
  del_constant x (mkState (Some df) out)
  = match delitem df (pretty x) with
    | Ok df' => (Ok tt, mkState (Some df') out)
    | Raise e => (Raise e, mkState (Some df) out)
    end.
Proof.
  unfold del_constant, mbind, M_bind, get_df, lift, put_df. cbn [_df printed].
  now destruct (delitem df (pretty x)).
Qed.

(** X25.  Removing constants is not all or nothing: when the frame has
    the column of the first constant of the range but not that of the
    second, the call raises a [KeyError] that names the second, and the
    column of the first is gone. *)
Theorem constants_remove_stops_at_missing_column :
  forall (st : State) (df : DataFrame) (n : Z),
    _df st = Some df ->
    pretty n ∈ columns df ->
    pretty (n + 1)%Z ∉ columns df ->
    constants false n (n + 1) 1 st
    = (Raise (KeyError (pretty (n + 1)%Z)),
       mkState
         (Some {| df_index := df_index df;
                  df_columns := filter (fun c => fst c <> pretty n)
                                       (df_columns df) |})
         (printed st)).
Proof.
  intros [d out] df n Hdf Hin Hout. cbn [_df] in Hdf. subst d.
  unfold constants. rewrite levels_ok by lia.
  assert (Hrange : Math.range_up n (n + 1 + 1) = [n; (n + 1)%Z]).
  { unfold Math.range_up. replace (Z.to_nat (n + 1 + 1 - n)) with 2%nat by lia.
    cbn [seq map]. repeat f_equal; lia. }
  rewrite Hrange, !filter_cons_True, filter_nil by apply Z.mod_1_r.
  unfold mbind at 1, M_bind at 1, lift. cbn [for_each].
  rewrite bind_run, del_constant_run, (delitem_present df _ Hin).
  rewrite bind_run, del_constant_run, delitem_missing; [reflexivity|].
  unfold columns. cbn [df_columns].
  intros H. apply list_elem_of_fmap in H as ([m c] & Hm & Hc).
  apply list_elem_of_filter in Hc as [_ Hc]. cbn in Hm. subst m.
  apply Hout. apply (list_elem_of_fmap_2 fst) in Hc. exact Hc.
Qed.

Lemma constants_remove_stops_at_missing_column_witness :
  constants false 2 3 1 (mkState (Some levelled_df) [])
  = (Raise (KeyError "3"),
     mkState
       (Some {| df_index := df_index levelled_df;
                df_columns := [ ("close", sample_column 11 12);
                                ("1", sample_column 1 1) ] |})
       []).
Proof.
  apply (constants_remove_stops_at_missing_column
           (mkState (Some levelled_df) []) levelled_df 2 eq_refl).
  - compute_done.
  - compute_done.
Defined.

(** *** [indicators] *)

Lemma list_is_no_string (xs : list pyobj) (l : list string) :
  py_in (OList xs) l = false.
Proof. induction l as [|s l IH]; [reflexivity | exact IH]. Qed.

(** X26.  The argument [exclude] excludes nothing: the test
    [exclude_methods in ta_indicators] asks whether the list itself is one
    of the names, which it never is, so the listing is the one without
    [exclude], whatever is passed. *)
Theorem indicators_ignores_exclude :
  forall (dir_ta : list string) (exclude : pyobj) (as_list : bool)
         (st : State),
    indicators dir_ta exclude as_list st = indicators dir_ta ONone as_list st.
Proof.
  intros dir_ta exclude as_list st. unfold indicators. cbv zeta.
  rewrite !bind_run. unfold lift.
  destruct (remove_each _ _) as [l | e]; [|reflexivity].
  destruct exclude as [| | | |xs]; try reflexivity.
  rewrite !bind_run, list_is_no_string. reflexivity.
Qed.

(** *** [_get_column] and the wrappers *)

Lemma find_column_missing (cols : list (string * list Cell)) (name : string) :
  name ∉ map fst cols -> find_column cols name = None.
Proof.
  induction cols as [|[n c] cols IH]; intros H; [reflexivity|].
  cbn [map fst] in H. apply not_elem_of_cons in H as [Hne Hrest].
  cbn [find_column]. rewrite decide_False by congruence. now apply IH.
Qed.

(** X27.  A default column name gets no second chance: when no series is
    named and the frame has no column of the default name, [_get_column]
    raises a [KeyError]; the columns are not searched for a match and
    nothing is printed. *)
Theorem default_column_must_exist :
  forall (str_match : string -> list string -> result (list bool))
         (st : State) (df : DataFrame) (default : string),
    _df st = Some df ->
    default ∉ columns df ->
    _get_column str_match PyNone (Some default) st
    = (Raise (KeyError default), st).
Proof.
  intros str_match st df default Hdf Hmissing.
  unfold _get_column. rewrite bind_run. unfold get_df. rewrite Hdf.
  rewrite bind_run. unfold lift, getitem.
  now rewrite find_column_missing.
Qed.

Lemma default_column_must_exist_witness :
  _get_column literal_match PyNone (Some "close") sample_state
  = (Raise (KeyError "close"), sample_state).
Proof.
  apply (default_column_must_exist literal_match sample_state sample_df
           "close" eq_refl).
  compute_done.
Defined.

Section WrapperFacts.
Variable str_match : string -> list string -> result (list bool).
Variable indicator : string -> list (option Series) -> kwargs
                     -> result (option Value).
Variable helper : string -> kwargs -> M (option Value).
Variable elapsed : string.

Lemma get_column_keeps_df (series : pyval) (default : option string)
    (st : State) :
  _df (snd (_get_column str_match series default st)) = _df st.
Proof.
  unfold _get_column. rewrite bind_run. unfold get_df.
  destruct (_df st) as [df|] eqn:Hdf; [|exact Hdf].
  destruct series as [| b | z | name | s], default as [d|];
    try exact Hdf;
    try (rewrite bind_run; unfold lift;
         destruct (getitem df d); exact Hdf).
  destruct (bool_decide (name ∈ columns df)).
  - rewrite bind_run. unfold lift. destruct (getitem df name); exact Hdf.
  - rewrite bind_run. unfold lift.
    destruct (str_match name (columns df)) as [matches|e]; [|exact Hdf].
    destruct (true_positions matches) as [|i rest].
    + exact Hdf.
    + rewrite bind_run. unfold lift. destruct (iloc_col df i); exact Hdf.
Qed.

Lemma resolve_all_keeps_df (kw : kwargs) (inputs : list (string * string))
    (st : State) :
  _df (snd (resolve_all str_match kw inputs st)) = _df st.
Proof.
  revert st. induction inputs as [|input inputs IH]; intros st; [reflexivity|].
  cbn [resolve_all]. rewrite bind_run.
  pose proof (get_column_keeps_df (default PyNone (kw !! fst input))
                                  (Some (snd input)) st) as Hfirst.
  unfold resolve.
  destruct (_get_column str_match _ _ st) as [[s|e] st1]; cbn [snd] in Hfirst;
    [|exact Hfirst].
  rewrite bind_run. specialize (IH st1).
  destruct (resolve_all str_match kw inputs st1) as [[rest|e] st2];
    cbn [snd] in IH; unfold mret, M_ret; cbn [snd]; congruence.
Qed.

Lemma lookup_without (names : list string) (kw : kwargs) (k : string) :
  k ∉ names -> without names kw !! k = kw !! k.
Proof.
  induction names as [|n names IH]; intros H; [reflexivity|].
  apply not_elem_of_cons in H as [Hne Hrest].
  transitivity (without names kw !! k); [|now apply IH].
  unfold without. cbn [foldr]. apply lookup_delete_ne. congruence.
Qed.

Lemma append_keeps_df (result : option Value) (kw : kwargs) (st : State) :
  append_requested kw <> Ok true ->
  _df (snd (_append result kw st)) = _df st.
Proof.
  intros H. unfold _append. rewrite bind_run. unfold lift.
  destruct (append_requested kw) as [[|]|e]; [contradiction | |]; reflexivity.
Qed.

Lemma run_wrapper_keeps_df (name : string) (w : Wrapper) (kw : kwargs)
    (st : State) :
  "append" ∉ (map fst (w_inputs w) ++ w_others w)%list ->
  append_requested kw <> Ok true ->
  _df (snd (run_wrapper str_match indicator name w kw st)) = _df st.
Proof.
  intros Hnames Hreq. unfold run_wrapper. rewrite bind_run.
  pose proof (resolve_all_keeps_df kw (w_inputs w) st) as Hres.
  destruct (resolve_all str_match kw (w_inputs w) st) as [[resolved|e] st1];
    cbn [snd] in Hres; [|exact Hres].
  rewrite bind_run. unfold lift.
  destruct (indicator name _ _) as [result|e]; [|exact Hres].
  rewrite bind_run.
  pose proof (append_keeps_df result
                (without (map fst (w_inputs w) ++ w_others w)%list kw) st1)
    as Happ.
  assert (Hreq' : append_requested
                    (without (map fst (w_inputs w) ++ w_others w)%list kw)
                  <> Ok true).
  { unfold append_requested. rewrite lookup_without by exact Hnames.
    exact Hreq. }
  specialize (Happ Hreq').
  destruct (_append result _ st1) as [[[]|e] st2]; cbn [snd] in Happ;
    unfold mret, M_ret; cbn [snd]; congruence.
Qed.

Lemma wrappers_take_no_append :
  Forall (fun nw => "append" ∉ (map fst (w_inputs (snd nw))
                                ++ w_others (snd nw))%list)
         wrappers.
Proof. compute_done. Qed.

(** X28.  Called without [append] (or with a false one), none of the
    indicator methods changes the frame, whether it returns or raises. *)
Theorem wrapper_without_append_keeps_frame :
  forall (name : string) (kw : kwargs) (st : State),
    name ∈ map fst wrappers ->
    append_requested kw <> Ok true ->
    _df (snd (call_method str_match indicator helper name kw st)) = _df st.
Proof.
  intros name kw st Hname Hreq. unfold call_method.
  destruct (list_find (fun m => fst m = name) wrappers)
    as [[i [n w]]|] eqn:Hfind.
  - apply list_find_Some in Hfind as (Hi & _ & _).
    apply run_wrapper_keeps_df; [|exact Hreq].
    pose proof wrappers_take_no_append as Hall.
    rewrite Forall_forall in Hall.
    apply (Hall (n, w)). apply list_elem_of_lookup. now exists i.
  - exfalso. apply list_find_None in Hfind.
    apply list_elem_of_fmap in Hname as ([n w] & -> & Hin).
    rewrite Forall_forall in Hfind. now apply (Hfind (n, w)).
Qed.

(** X29.  The method [vwma] looks the volume column up and then leaves it
    aside: the indicator gets the close series for its [close] and for its
    [volume]. *)
Theorem vwma_gets_close_for_volume :
  forall (kw : kwargs) (st st1 st2 : State) (close volume : option Series),
    resolve str_match kw ("close", "close") st = (Ok close, st1) ->
    resolve str_match kw ("volume", "volume") st1 = (Ok volume, st2) ->
    call_method str_match indicator helper "vwma" kw st
    = (result ← lift (indicator "vwma" [close; close]
                                (without ["close"; "volume"] kw));
       _ ← _append result
             (without ["close"; "volume"; "length"; "offset"] kw);
       mret result) st2.
Proof.
  intros kw st st1 st2 close volume Hclose Hvolume.
  change (call_method str_match indicator helper "vwma" kw st)
    with (run_wrapper str_match indicator "vwma"
            (mkWrapper [("close", "close"); ("volume", "volume")]
                       ["length"; "offset"] [0; 0]%nat) kw st).
  unfold run_wrapper. cbn [w_inputs w_others w_passed resolve_all].
  rewrite !bind_run, Hclose, !bind_run, Hvolume. reflexivity.
Qed.

Lemma lower_ascii_idempotent (c : ascii) :
  lower_ascii (lower_ascii c) = lower_ascii c.
Proof. destruct c as [[] [] [] [] [] [] [] []]; reflexivity. Qed.

Lemma lower_idempotent (s : string) : lower (lower s) = lower s.
Proof.
  induction s as [|c s IH]; [reflexivity|].
  cbn [lower]. now rewrite lower_ascii_idempotent, IH.
Qed.

(** X30.  The accessor takes the name of an indicator in any case:
    calling it with [kind] or with [kind] in lower case is the same call. *)
Theorem call_ignores_case_of_kind :
  forall (kind : string) (alias : pyval) (timed : bool) (kw : kwargs)
         (st : State),
    __call__ str_match indicator helper elapsed (PyStr kind) alias timed kw st
    = __call__ str_match indicator helper elapsed (PyStr (lower kind)) alias
               timed kw st.
Proof.
  intros kind alias timed kw st. unfold __call__, call_body.
  now rewrite lower_idempotent.
Qed.

End WrapperFacts.

Lemma wrapper_without_append_keeps_frame_witness :
  _df (snd (call_method literal_match no_indicator no_helper "sma" ∅
                        sample_state))
  = Some sample_df.
Proof.
  apply (wrapper_without_append_keeps_frame literal_match no_indicator
           no_helper "sma" ∅ sample_state).
  - compute_done.
  - discriminate.
Defined.

Lemma vwma_gets_close_for_volume_witness :
  let kw : kwargs := {[ "close" := PyStr "Close"; "volume" := PyStr "Open" ]} in
  let close := Some (mkSeries "Close" (df_index sample_df)
                              (sample_column 11 12)) in
  call_method literal_match no_indicator no_helper "vwma" kw sample_state
  = (result ← lift (no_indicator "vwma" [close; close]
                                 (without ["close"; "volume"] kw));
     _ ← _append result
           (without ["close"; "volume"; "length"; "offset"] kw);
     mret result) sample_state.
Proof.
  cbv zeta.
  apply (vwma_gets_close_for_volume literal_match no_indicator no_helper
           _ sample_state sample_state sample_state _
           (Some (mkSeries "Open" (df_index sample_df)
                           (sample_column 10 11))));
    reflexivity.
Defined.

End CoreMore.
